(** * ColorMind: colour conversions, harmony generation and palette assembly

    A shallow embedding of [color_processor.py] and [palette_generator.py]
    together with the part of Python's [colorsys] module they call.

    Python [float] arithmetic is written once against the interface [PyNum]
    and read in two ways:
    - [QNum], exact rational arithmetic, in which the universally quantified
      results are proved;
    - [FNum], IEEE 754 binary64 (Rocq's primitive floats), which evaluates a
      concrete run bit for bit as CPython does.

    Python exceptions are values of [Res]. *)

From Stdlib Require Import ZArith QArith Qround Lqa Lia List String Ascii Bool.
From Stdlib Require Import Floats Uint63 DecimalString.
From Stdlib Require Import Permutation Sorted.
Import ListNotations.

Local Open Scope Z_scope.

(** ** Exceptions *)

Inductive PyErr : Type :=
| ZeroDivisionError
| ValueError (msg : string).

Inductive Res (A : Type) : Type :=
| Ok (a : A)
| Err (e : PyErr).

Arguments Ok {A} a.
Arguments Err {A} e.

Definition bind {A B : Type} (m : Res A) (k : A -> Res B) : Res B :=
  match m with
  | Ok a => k a
  | Err e => Err e
  end.

Notation "x <- m ;; k" := (bind m (fun x => k))
  (at level 61, m at next level, right associativity).
Notation "' pat <- m ;; k" := (bind m (fun x => match x with pat => k end))
  (at level 61, pat pattern, m at next level, right associativity).

(** [for x in xs: out.append(f x)], stopping at the first exception. *)
Fixpoint map_res {A B : Type} (f : A -> Res B) (xs : list A) : Res (list B) :=
  match xs with
  | [] => Ok []
  | x :: xs' => y <- f x ;; ys <- map_res f xs' ;; Ok (y :: ys)
  end.

(** ** Numbers *)

(** The operations the sources apply to a Python [float].  [ofZ] is the
    implicit [int] to [float] conversion, [pymod] is [%] with a positive
    right operand, [int_] is [int()], truncation toward zero. *)
Class PyNum (T : Type) : Type := {
  ofZ : Z -> T;
  add : T -> T -> T;
  sub : T -> T -> T;
  mul : T -> T -> T;
  div : T -> T -> T;
  opp : T -> T;
  ltb : T -> T -> bool;
  leb : T -> T -> bool;
  eqb : T -> T -> bool;
  pymod : T -> T -> T;
  int_ : T -> Z
}.

Declare Scope py_scope.
Delimit Scope py_scope with py.
Infix "+" := add : py_scope.
Infix "-" := sub : py_scope.
Infix "*" := mul : py_scope.
Infix "/" := div : py_scope.
Infix "<?" := ltb : py_scope.
Infix "<=?" := leb : py_scope.
Infix "==?" := eqb (at level 70) : py_scope.
Infix "%%" := pymod (at level 40, left associativity) : py_scope.

(** *** Exact rationals *)

Module ExactQ.

Definition qltb (x y : Q) : bool := negb (Qle_bool y x).

(** [x % y] for [y > 0]: the remainder lies in [[0, y)]. *)
Definition qmod (x y : Q) : Q := (x - y * inject_Z (Qfloor (x / y)))%Q.

Definition qtrunc (x : Q) : Z := Z.quot (Qnum x) (Zpos (Qden x)).

End ExactQ.

#[export] Instance QNum : PyNum Q := {|
  ofZ := inject_Z;
  add := Qplus;
  sub := Qminus;
  mul := Qmult;
  div := Qdiv;
  opp := Qopp;
  ltb := ExactQ.qltb;
  leb := Qle_bool;
  eqb := Qeq_bool;
  pymod := ExactQ.qmod;
  int_ := ExactQ.qtrunc
|}.

(** *** IEEE 754 binary64 *)

Module Binary64.

(** [float(z)], rounded to nearest even: the primitive conversion where the
    integer fits a machine word, the specification of the format beyond. *)
Definition of_Z (z : Z) : float :=
  if (0 <=? z) && (z <? 4611686018427387904)
  then of_uint63 (Uint63.of_Z z)
  else if (-4611686018427387904 <? z) && (z <? 0)
  then PrimFloat.opp (of_uint63 (Uint63.of_Z (- z)))
  else SF2Prim (binary_normalize prec emax z 0 false).

(** A finite float as [m * 2^e] with [m] an integer. *)
Definition to_scaled (x : float) : Z * Z :=
  match Prim2SF x with
  | S754_finite sg m e => ((if sg then Z.neg m else Z.pos m), e)
  | _ => (0, 0)
  end.

(** [int(x)].  CPython raises on an infinity or a NaN; neither arises from
    the finite values the sources compute with, since a division by zero
    raises first. *)
Definition trunc (x : float) : Z :=
  let '(m, e) := to_scaled x in
  if 0 <=? e then m * 2 ^ e else Z.quot m (2 ^ (- e)).

(** C's [fmod]: exact, with the sign of the dividend. *)
Definition c_fmod (x y : float) : float :=
  let '(mx, ex) := to_scaled x in
  let '(my, ey) := to_scaled y in
  let e := Z.min ex ey in
  let r := Z.rem (mx * 2 ^ (ex - e)) (my * 2 ^ (ey - e)) in
  SF2Prim (binary_normalize prec emax r e (PrimFloat.ltb x 0)).

(** CPython's [float_rem]. *)
Definition float_rem (vx wx : float) : float :=
  let md := c_fmod vx wx in
  if PrimFloat.eqb md 0 then PrimFloat.abs 0
  else if Bool.eqb (PrimFloat.ltb wx 0) (PrimFloat.ltb md 0) then md
  else PrimFloat.add md wx.

End Binary64.

#[export] Instance FNum : PyNum float := {|
  ofZ := Binary64.of_Z;
  add := PrimFloat.add;
  sub := PrimFloat.sub;
  mul := PrimFloat.mul;
  div := PrimFloat.div;
  opp := PrimFloat.opp;
  ltb := PrimFloat.ltb;
  leb := PrimFloat.leb;
  eqb := PrimFloat.eqb;
  pymod := Binary64.float_rem;
  int_ := Binary64.trunc
|}.

Section Arith.
Context {T : Type} `{PyNum T}.
Local Open Scope py_scope.

(** A decimal literal [n/d] with [d] a power of ten: the source text
    [0.02] is [dec 2 100]. *)
Definition dec (n d : Z) : T := ofZ n / ofZ d.

(** [x / y] with a divisor that is not a literal. *)
Definition pydiv (x y : T) : Res T :=
  if y ==? ofZ 0 then Err ZeroDivisionError else Ok (x / y).

(** [max(a, b)] and [min(a, b)]: the first argument wins a tie. *)
Definition pymax (a b : T) : T := if a <? b then b else a.
Definition pymin (a b : T) : T := if b <? a then b else a.

(** [max(r, g, b)], [min(r, g, b)]. *)
Definition max3 (r g b : T) : T := pymax (pymax r g) b.
Definition min3 (r g b : T) : T := pymin (pymin r g) b.

(** [max(0, min(1, x))]. *)
Definition clamp01 (x : T) : T := pymax (ofZ 0) (pymin (ofZ 1) x).

End Arith.

(** ** Python's [colorsys] (CPython 3.11, [Lib/colorsys.py]) *)

Module colorsys.
Section Defs.
Context {T : Type} `{PyNum T}.
Local Open Scope py_scope.

Definition ONE_THIRD : T := ofZ 1 / ofZ 3.
Definition ONE_SIXTH : T := ofZ 1 / ofZ 6.
Definition TWO_THIRD : T := ofZ 2 / ofZ 3.

Definition rgb_to_hls (r g b : T) : Res (T * T * T) :=
  let maxc := max3 r g b in
  let minc := min3 r g b in
  let sumc := maxc + minc in
  let rangec := maxc - minc in
  let l := sumc / ofZ 2 in
  if minc ==? maxc then Ok (ofZ 0, l, ofZ 0)
  else
    s <- (if l <=? dec 5 10 then pydiv rangec sumc
          else pydiv rangec (ofZ 2 - sumc)) ;;
    rc <- pydiv (maxc - r) rangec ;;
    gc <- pydiv (maxc - g) rangec ;;
    bc <- pydiv (maxc - b) rangec ;;
    let h := if r ==? maxc then bc - gc
             else if g ==? maxc then ofZ 2 + rc - bc
             else ofZ 4 + gc - rc in
    let h := (h / ofZ 6) %% ofZ 1 in
    Ok (h, l, s).

Definition _v (m1 m2 hue : T) : T :=
  let hue := hue %% ofZ 1 in
  if hue <? ONE_SIXTH then m1 + (m2 - m1) * hue * ofZ 6
  else if hue <? dec 5 10 then m2
  else if hue <? TWO_THIRD then m1 + (m2 - m1) * (TWO_THIRD - hue) * ofZ 6
  else m1.

Definition hls_to_rgb (h l s : T) : T * T * T :=
  if s ==? ofZ 0 then (l, l, l)
  else
    let m2 := if l <=? dec 5 10 then l * (ofZ 1 + s) else l + s - l * s in
    let m1 := ofZ 2 * l - m2 in
    (_v m1 m2 (h + ONE_THIRD), _v m1 m2 h, _v m1 m2 (h - ONE_THIRD)).

End Defs.
End colorsys.

(** ** Data model *)

(** An RGB colour, the list [[r, g, b]] of the sources. *)
Definition RGB : Type := (Z * Z * Z)%type.

Record HSL : Type := mkHSL { hsl_h : Z; hsl_s : Z; hsl_l : Z }.

Record CMYK : Type := mkCMYK { cmyk_c : Z; cmyk_m : Z; cmyk_y : Z; cmyk_k : Z }.

(** An entry of the list [extract_dominant_colors] returns. *)
Record DominantColor (T : Type) : Type := mkDominantColor {
  dc_rgb : RGB;
  dc_hex : string;
  dc_hsl : HSL;
  dc_cmyk : CMYK;
  dc_frequency : T;
  dc_rank : Z
}.

Arguments mkDominantColor {T}.
Arguments dc_rgb {T}.
Arguments dc_hex {T}.
Arguments dc_hsl {T}.
Arguments dc_cmyk {T}.
Arguments dc_frequency {T}.
Arguments dc_rank {T}.

(** An entry of a palette's [colors].  A dict read from a request may lack
    the key [rgb] or [hex], hence the options. *)
Record PaletteColor : Type := mkPaletteColor {
  pc_rgb : option RGB;
  pc_hex : option string;
  pc_hsl : HSL;
  pc_cmyk : CMYK;
  pc_role : string;
  pc_locked : bool
}.

Record Palette : Type := mkPalette {
  p_name : string;
  p_colors : list PaletteColor;
  p_harmony_type : option string;
  p_style : string;
  p_mood : string;
  p_lighting : string;
  p_created_at : string
}.

(** ** String formatting *)

Module Fmt.

Definition hex_digit (d : Z) : ascii :=
  if d <? 10 then ascii_of_nat (48 + Z.to_nat d)
  else ascii_of_nat (87 + Z.to_nat d).

Fixpoint hex_pos (fuel : nat) (z : Z) (acc : string) : string :=
  match fuel with
  | O => acc
  | S fuel' =>
      let acc' := String (hex_digit (z mod 16)) acc in
      if z / 16 =? 0 then acc' else hex_pos fuel' (z / 16) acc'
  end.

(** The digits of [format(z, 'x')] for [z >= 0]. *)
Definition hex (z : Z) : string := hex_pos (S (Z.to_nat (Z.log2 z))) z EmptyString.

(** ['{:02x}'.format(z)]: sign first, then zeros up to width two. *)
Definition x02 (z : Z) : string :=
  let digits := hex (Z.abs z) in
  if z <? 0 then "-" ++ digits
  else if (String.length digits <? 2)%nat then "0" ++ digits else digits.

(** [str(n)] for a natural number. *)
Definition str_nat (n : nat) : string := NilEmpty.string_of_uint (Nat.to_uint n).

End Fmt.

(** ** Dictionaries with string keys *)

(** [d.get(key, default)] on a dict literal, kept as its list of items. *)
Fixpoint dict_get {V : Type} (key : string) (d : list (string * V)) (default : V) : V :=
  match d with
  | [] => default
  | (k, v) :: d' => if String.eqb key k then v else dict_get key d' default
  end.

(** ** [color_processor.py] *)

Module ColorProcessor.
Section Defs.
Context {T : Type} `{PyNum T}.
Local Open Scope py_scope.


(** [np.mean(pixels, axis=1)] for one row: a float64 sum over the three
    channels, divided by their number. *)
Definition brightness (p : RGB) : T :=
  let '(r, g, b) := p in (ofZ r + ofZ g + ofZ b) / ofZ 3.

Definition mask (dark_threshold light_threshold : Z) (p : RGB) : bool :=
  (ofZ dark_threshold <? brightness p) && (brightness p <? ofZ light_threshold).

Definition _filter_extreme_colors_with
    (pixels : list RGB) (dark_threshold light_threshold : Z) : list RGB :=
  let filtered_pixels := filter (mask dark_threshold light_threshold) pixels in
  if ofZ (Z.of_nat (List.length filtered_pixels))
       <? ofZ (Z.of_nat (List.length pixels)) * dec 1 10
  then pixels
  else filtered_pixels.

(** The call of [extract_dominant_colors]: both thresholds at their
    defaults. *)
Definition _filter_extreme_colors (pixels : list RGB) : list RGB :=
  _filter_extreme_colors_with pixels 30 225.

Definition _rgb_to_hex (rgb : RGB) : string :=
  let '(r, g, b) := rgb in
  ("#" ++ Fmt.x02 r ++ Fmt.x02 g ++ Fmt.x02 b)%string.

Definition _rgb_to_hsl (rgb : RGB) : Res HSL :=
  let '(r0, g0, b0) := rgb in
  let r := ofZ r0 / ofZ 255 in
  let g := ofZ g0 / ofZ 255 in
  let b := ofZ b0 / ofZ 255 in
  '(h, l, s) <- colorsys.rgb_to_hls r g b ;;
  Ok (mkHSL (int_ (h * ofZ 360)) (int_ (s * ofZ 100)) (int_ (l * ofZ 100))).

Definition _rgb_to_cmyk (rgb : RGB) : Res CMYK :=
  let '(r0, g0, b0) := rgb in
  let r := ofZ r0 / ofZ 255 in
  let g := ofZ g0 / ofZ 255 in
  let b := ofZ b0 / ofZ 255 in
  let k := ofZ 1 - max3 r g b in
  if k ==? ofZ 1 then Ok (mkCMYK 0 0 0 100)
  else
    c <- pydiv (ofZ 1 - r - k) (ofZ 1 - k) ;;
    m <- pydiv (ofZ 1 - g - k) (ofZ 1 - k) ;;
    y <- pydiv (ofZ 1 - b - k) (ofZ 1 - k) ;;
    Ok (mkCMYK (int_ (c * ofZ 100)) (int_ (m * ofZ 100))
               (int_ (y * ofZ 100)) (int_ (k * ofZ 100))).

(** What scikit-learn's [KMeans] holds after [fit]: the centre of each
    cluster and, for each pixel, the number of its cluster. *)
Record KMeans : Type := mkKMeans {
  cluster_centers_ : list (T * T * T);
  labels_ : list nat
}.

(** [centers.astype(int)], row by row. *)
Definition astype_int (center : T * T * T) : RGB :=
  let '(r, g, b) := center in (int_ r, int_ g, int_ b).

(** [np.bincount(labels)]: how often each number from 0 to the largest label
    occurs. *)
Definition bincount (labels : list nat) : list Z :=
  match labels with
  | [] => []
  | _ :: _ =>
      map (fun i => Z.of_nat (count_occ Nat.eq_dec labels i)) (seq 0 (S (list_max labels)))
  end.

(** [pairs.sort(key=lambda x: x[1], reverse=True)]: by falling count, pairs
    of equal count in the order they had. *)
Fixpoint insert_pair (x : RGB * Z) (sorted : list (RGB * Z)) : list (RGB * Z) :=
  match sorted with
  | [] => [x]
  | y :: rest => if (snd x <? snd y)%Z then y :: insert_pair x rest else x :: sorted
  end.

Definition sort_pairs (pairs : list (RGB * Z)) : list (RGB * Z) :=
  fold_right insert_pair [] pairs.

(** [for i, (color, count) in enumerate(color_frequency_pairs)], from index
    [i] on. *)
Fixpoint dominant_from (i : nat) (n_labels : nat) (pairs : list (RGB * Z))
    : Res (list (DominantColor T)) :=
  match pairs with
  | [] => Ok []
  | (color, count) :: rest =>
      let hex := _rgb_to_hex color in
      hsl <- _rgb_to_hsl color ;;
      cmyk <- _rgb_to_cmyk color ;;
      let color_info :=
        mkDominantColor color hex hsl cmyk (ofZ count / ofZ (Z.of_nat n_labels))
                        (Z.of_nat i + 1) in
      dominant_colors <- dominant_from (S i) n_labels rest ;;
      Ok (color_info :: dominant_colors)
  end.

(** [extract_dominant_colors] from the fitted clustering on; resizing the
    image, reading its pixels and clustering them are Pillow's, NumPy's and
    scikit-learn's. *)
Definition extract_dominant_colors (kmeans : KMeans) : Res (list (DominantColor T)) :=
  let colors := map astype_int (cluster_centers_ kmeans) in
  let labels := labels_ kmeans in
  let color_counts := bincount labels in
  let color_frequency_pairs := sort_pairs (combine colors color_counts) in
  dominant_from 0 (List.length labels) color_frequency_pairs.

Definition get_color_temperature (rgb : RGB) : string :=
  let '(r, g, b) := rgb in
  let warmth := (ofZ r + (ofZ g * dec 5 10)) - ofZ b in
  if ofZ 0 <? warmth then "warm"%string else "cool"%string.

Section Contrast.

(** Python's built-in [pow] on floats. *)
Variable pow : T -> T -> T.

(** The inner function of [calculate_contrast_ratio]. *)
Definition get_luminance (rgb : RGB) : T :=
  let '(r0, g0, b0) := rgb in
  let r := ofZ r0 / ofZ 255 in
  let g := ofZ g0 / ofZ 255 in
  let b := ofZ b0 / ofZ 255 in
  let r := if r <=? dec 3928 100000 then r / dec 1292 100
           else pow ((r + dec 55 1000) / dec 1055 1000) (dec 24 10) in
  let g := if g <=? dec 3928 100000 then g / dec 1292 100
           else pow ((g + dec 55 1000) / dec 1055 1000) (dec 24 10) in
  let b := if b <=? dec 3928 100000 then b / dec 1292 100
           else pow ((b + dec 55 1000) / dec 1055 1000) (dec 24 10) in
  dec 2126 10000 * r + dec 7152 10000 * g + dec 722 10000 * b.

Definition calculate_contrast_ratio (color1 color2 : RGB) : Res T :=
  let l1 := get_luminance color1 in
  let l2 := get_luminance color2 in
  let lighter := pymax l1 l2 in
  let darker := pymin l1 l2 in
  pydiv (lighter + dec 5 100) (darker + dec 5 100).

End Contrast.

End Defs.
End ColorProcessor.

(** ** [palette_generator.py] *)

(** [random.choice] draws from a stream, [datetime.now()] is what the clock
    reads: both are handed to the functions that use them. *)
Record Rng : Type := mkRng { rng_draw : nat -> nat; rng_pos : nat }.

Definition choice (seq : list string) (g : Rng) : string * Rng :=
  (nth (rng_draw g (rng_pos g) mod List.length seq)%nat seq EmptyString,
   mkRng (rng_draw g) (S (rng_pos g))).

Module PaletteGenerator.

Record StyleRule (T : Type) : Type := mkStyleRule {
saturation_range : T * T;
lightness_range : T * T;
preferred_hues : list Z;
temperature : string
}.

Arguments mkStyleRule {T}.
Arguments saturation_range {T}.
Arguments lightness_range {T}.
Arguments preferred_hues {T}.
Arguments temperature {T}.

(** A colour of a request: a bare triple, or a dict that may carry [rgb]. *)
Inductive BaseColor : Type :=
| Triple (rgb : RGB)
| Dict (rgb : option RGB).

(** A colour of an export request: a dict that may lack any of its keys. *)
Record SwatchColor : Type := mkSwatchColor {
  sc_rgb : option RGB;
  sc_hex : option string;
  sc_role : option string
}.

(** A call on Pillow's [ImageDraw]: [draw.rectangle(xy, fill=fill)] and
    [draw.text(xy, text, fill=fill)]. *)
Inductive DrawCall : Type :=
| rectangle (xy : Z * Z * Z * Z) (fill : RGB)
| text (xy : Z * Z) (label : string) (fill : RGB).

Section Defs.
Context {T : Type} `{PyNum T}.
Local Open Scope string_scope.
Local Open Scope py_scope.

Definition japandi : StyleRule T :=
  mkStyleRule (dec 5 100, dec 25 100) (dec 7 10, dec 95 100)
              [30; 45; 60; 200; 220]%Z "warm".
Definition scandinavian : StyleRule T :=
  mkStyleRule (dec 1 10, dec 4 10) (dec 75 100, dec 95 100)
              [0; 200; 220; 240]%Z "cool".
Definition minimalist : StyleRule T :=
  mkStyleRule (dec 0 10, dec 15 100) (dec 2 10, dec 95 100)
              [0; 60; 120; 180; 240; 300]%Z "neutral".
Definition industrial : StyleRule T :=
  mkStyleRule (dec 1 10, dec 5 10) (dec 2 10, dec 7 10)
              [0; 30; 200; 220; 240]%Z "cool".
Definition mediterranean : StyleRule T :=
  mkStyleRule (dec 3 10, dec 8 10) (dec 4 10, dec 8 10)
              [20; 40; 60; 180; 200; 220; 240]%Z "warm".

Definition style_rules : list (string * StyleRule T) :=
  [("japandi", japandi); ("scandinavian", scandinavian);
   ("minimalist", minimalist); ("industrial", industrial);
   ("mediterranean", mediterranean)].

(** [(saturation, lightness)] per mood. *)
Definition mood_adjustments : list (string * (T * T)) :=
  [("calm", (opp (dec 2 10), dec 1 10));
   ("cozy", (dec 1 10, opp (dec 1 10)));
   ("luxury", (dec 2 10, opp (dec 2 10)));
   ("energetic", (dec 3 10, dec 0 10))].

(** [(temperature, brightness)] per lighting. *)
Definition lighting_adjustments : list (string * (T * T)) :=
  [("daylight", (ofZ 0, ofZ 0));
   ("warm_light", (dec 1 10, opp (dec 5 100)));
   ("cool_led", (opp (dec 1 10), dec 5 100))].

Definition prefixes : list string :=
  ["Serene"; "Vibrant"; "Dreamy"; "Bold"; "Gentle"; "Rich"; "Fresh"; "Warm";
   "Cool"; "Deep"].
Definition themes : list string :=
  ["Ocean"; "Forest"; "Sunset"; "Dawn"; "Garden"; "Stone"; "Sand"; "Sky";
   "Earth"; "Moonlight"].
Definition suffixes : list string :=
  ["Harmony"; "Whisper"; "Embrace"; "Glow"; "Essence"; "Dream"; "Breeze";
   "Touch"; "Aura"; "Calm"].

Definition _hsl_to_rgb (h s l : T) : RGB :=
  let h_norm := h / ofZ 360 in
  let '(r, g, b) := colorsys.hls_to_rgb h_norm l s in
  (int_ (r * ofZ 255), int_ (g * ofZ 255), int_ (b * ofZ 255)).

Definition _generate_harmony_colors (h s l : T) (harmony_type : string) : list RGB :=
  if String.eqb harmony_type "complementary" then
    [ _hsl_to_rgb h s l;
      _hsl_to_rgb ((h + ofZ 180) %% ofZ 360) (s * dec 8 10) l;
      _hsl_to_rgb h (s * dec 3 10) (l + dec 2 10);
      _hsl_to_rgb ((h + ofZ 180) %% ofZ 360) (s * dec 3 10) (l + dec 2 10);
      _hsl_to_rgb h (s * dec 1 10) (l + dec 3 10) ]
  else if String.eqb harmony_type "analogous" then
    [ _hsl_to_rgb h s l;
      _hsl_to_rgb ((h + ofZ 30) %% ofZ 360) (s * dec 9 10) l;
      _hsl_to_rgb ((h - ofZ 30) %% ofZ 360) (s * dec 9 10) l;
      _hsl_to_rgb ((h + ofZ 60) %% ofZ 360) (s * dec 7 10) (l + dec 1 10);
      _hsl_to_rgb ((h - ofZ 60) %% ofZ 360) (s * dec 7 10) (l + dec 1 10) ]
  else if String.eqb harmony_type "triadic" then
    [ _hsl_to_rgb h s l;
      _hsl_to_rgb ((h + ofZ 120) %% ofZ 360) (s * dec 8 10) l;
      _hsl_to_rgb ((h + ofZ 240) %% ofZ 360) (s * dec 8 10) l;
      _hsl_to_rgb h (s * dec 3 10) (l + dec 2 10);
      _hsl_to_rgb ((h + ofZ 120) %% ofZ 360) (s * dec 3 10) (l + dec 2 10) ]
  else if String.eqb harmony_type "tetradic" then
    [ _hsl_to_rgb h s l;
      _hsl_to_rgb ((h + ofZ 90) %% ofZ 360) (s * dec 9 10) l;
      _hsl_to_rgb ((h + ofZ 180) %% ofZ 360) (s * dec 8 10) l;
      _hsl_to_rgb ((h + ofZ 270) %% ofZ 360) (s * dec 9 10) l;
      _hsl_to_rgb h (s * dec 2 10) (l + dec 3 10) ]
  else if String.eqb harmony_type "monochromatic" then
    [ _hsl_to_rgb h s l;
      _hsl_to_rgb h (s * dec 8 10) (l + dec 1 10);
      _hsl_to_rgb h (s * dec 6 10) (l + dec 2 10);
      _hsl_to_rgb h (s * dec 4 10) (l + dec 3 10);
      _hsl_to_rgb h (s * dec 2 10) (l + dec 4 10) ]
  else [].

Definition fits_style (style_rule : StyleRule T) (color_info : DominantColor T) : bool :=
  let hsl := dc_hsl color_info in
  let saturation := ofZ (hsl_s hsl) / ofZ 100 in
  let lightness := ofZ (hsl_l hsl) / ofZ 100 in
  let '(sat_min, sat_max) := saturation_range style_rule in
  let '(light_min, light_max) := lightness_range style_rule in
  (sat_min <=? saturation) && (saturation <=? sat_max)
  && ((light_min <=? lightness) && (lightness <=? light_max)).

Definition _select_style_colors
    (dominant_colors : list (DominantColor T)) (style : string) : list RGB :=
  let style_rule := dict_get style style_rules scandinavian in
  let selected_colors := map dc_rgb (filter (fits_style style_rule) dominant_colors) in
  match selected_colors with
  | [] => map dc_rgb (firstn 3 dominant_colors)
  | _ :: _ => selected_colors
  end.

(** The body of the loop of [_apply_style_mood_lighting]: [mood_adj] is
    [(saturation, lightness)], [lighting_adj] is [(temperature, brightness)]. *)
Definition adjust_one (mood_adj lighting_adj : T * T) (rgb : RGB) : Res RGB :=
  let '(r0, g0, b0) := rgb in
  let r := ofZ r0 / ofZ 255 in
  let g := ofZ g0 / ofZ 255 in
  let b := ofZ b0 / ofZ 255 in
  '(h, l, s) <- colorsys.rgb_to_hls r g b ;;
  let s := clamp01 (s + fst mood_adj) in
  let l := clamp01 (l + snd mood_adj) in
  let h := if ofZ 0 <? fst lighting_adj
           then (if h <? dec 98 100 then h + dec 2 100 else h)
           else if fst lighting_adj <? ofZ 0
           then (if dec 2 100 <? h then h - dec 2 100 else h)
           else h in
  let l := clamp01 (l + snd lighting_adj) in
  let '(r, g, b) := colorsys.hls_to_rgb h l s in
  Ok (int_ (r * ofZ 255), int_ (g * ofZ 255), int_ (b * ofZ 255)).

Definition _apply_style_mood_lighting
    (colors : list RGB) (style mood lighting : string) : Res (list RGB) :=
  let mood_adj := dict_get mood mood_adjustments (ofZ 0, ofZ 0) in
  let lighting_adj := dict_get lighting lighting_adjustments (ofZ 0, ofZ 0) in
  map_res (adjust_one mood_adj lighting_adj) colors.

(** The three converters have the same text as in [color_processor.py]. *)
Definition _rgb_to_hex : RGB -> string := ColorProcessor._rgb_to_hex.
Definition _rgb_to_hsl : RGB -> Res HSL := ColorProcessor._rgb_to_hsl.
Definition _rgb_to_cmyk : RGB -> Res CMYK := ColorProcessor._rgb_to_cmyk.

Definition roles : list string :=
  ["Primary"; "Secondary"; "Accent"; "Neutral"; "Background"].

(** [roles[i] if i < len(roles) else f'Color {i + 1}']. *)
Definition role_at (i : nat) : string :=
  if (i <? List.length roles)%nat then nth i roles EmptyString
  else "Color " ++ Fmt.str_nat (i + 1).

(** [for i, rgb in enumerate(colors)], from index [i] on. *)
Fixpoint assign_from (i : nat) (colors : list RGB) : Res (list PaletteColor) :=
  match colors with
  | [] => Ok []
  | rgb :: rest =>
      let hex := _rgb_to_hex rgb in
      hsl <- _rgb_to_hsl rgb ;;
      cmyk <- _rgb_to_cmyk rgb ;;
      let color_info :=
        mkPaletteColor (Some rgb) (Some hex) hsl cmyk (role_at i) false in
      palette <- assign_from (S i) rest ;;
      Ok (color_info :: palette)
  end.

Definition _assign_color_roles (colors : list RGB) : Res (list PaletteColor) :=
  assign_from 0 colors.

Definition _generate_palette_name
    (g : Rng) (colors : list PaletteColor) (mood style : string) : string * Rng :=
  let '(prefix, g) := choice prefixes g in
  let '(theme, g) := choice themes g in
  let '(suffix, g) := choice suffixes g in
  let '(prefix, g) :=
    if String.eqb mood "luxury" then choice ["Rich"; "Deep"; "Bold"] g
    else if String.eqb mood "calm" then choice ["Serene"; "Gentle"; "Soft"] g
    else if String.eqb mood "energetic" then choice ["Vibrant"; "Bold"; "Fresh"] g
    else (prefix, g) in
  (prefix ++ " " ++ theme ++ " " ++ suffix, g).

(** The body of the loop of [adjust_for_lighting]. *)
Definition relight_one (lighting_adj : T * T) (color : PaletteColor) : Res PaletteColor :=
  let '(r0, g0, b0) :=
    match pc_rgb color with Some rgb => rgb | None => (128, 128, 128)%Z end in
  let r := ofZ r0 / ofZ 255 in
  let g := ofZ g0 / ofZ 255 in
  let b := ofZ b0 / ofZ 255 in
  '(h, l, s) <- colorsys.rgb_to_hls r g b ;;
  let h := if ofZ 0 <? fst lighting_adj then pymin (ofZ 1) (h + dec 2 100)
           else if fst lighting_adj <? ofZ 0 then pymax (ofZ 0) (h - dec 2 100)
           else h in
  let l := clamp01 (l + snd lighting_adj) in
  let '(r, g, b) := colorsys.hls_to_rgb h l s in
  let adjusted_rgb := (int_ (r * ofZ 255), int_ (g * ofZ 255), int_ (b * ofZ 255)) in
  Ok (mkPaletteColor (Some adjusted_rgb) (Some (_rgb_to_hex adjusted_rgb))
                     (pc_hsl color) (pc_cmyk color) (pc_role color) (pc_locked color)).

Definition adjust_for_lighting
    (colors : list PaletteColor) (lighting_type : string) : Res (list PaletteColor) :=
  let lighting_adj := dict_get lighting_type lighting_adjustments (ofZ 0, ofZ 0) in
  map_res (relight_one lighting_adj) colors.

Section Swatch.

(** The width of a text in Pillow's default font: right less left of
    [draw.textbbox((0, 0), s)]. *)
Variable text_width : string -> Z.

(** The calls of the loop of [create_swatch_image] for the colour at index
    [i]. *)
Definition swatch_calls (swatch_width height : Z) (i : nat) (color : SwatchColor)
    : list DrawCall :=
  let rgb := match sc_rgb color with Some rgb => rgb | None => (128, 128, 128)%Z end in
  let x1 := (Z.of_nat i * swatch_width)%Z in
  let x2 := (x1 + swatch_width)%Z in
  let hex_code := match sc_hex color with Some hex => hex | None => "#808080" end in
  let text_y := int_ (ofZ height * dec 75 100) in
  let text_x := (x1 + (swatch_width - text_width hex_code) / 2)%Z in
  let role := match sc_role color with
              | Some role => role
              | None => "Color " ++ Fmt.str_nat (i + 1)
              end in
  let role_x := (x1 + (swatch_width - text_width role) / 2)%Z in
  let y2 := int_ (ofZ height * dec 7 10) in
  [ rectangle (x1, 0%Z, x2, y2) rgb;
    text (text_x, text_y) hex_code (0, 0, 0)%Z;
    text (role_x, text_y + 20)%Z role (0, 0, 0)%Z ].

(** [for i, color in enumerate(colors)], from index [i] on. *)
Fixpoint swatches_from (swatch_width height : Z) (i : nat) (colors : list SwatchColor)
    : list DrawCall :=
  match colors with
  | [] => []
  | color :: rest =>
      (swatch_calls swatch_width height i color
       ++ swatches_from swatch_width height (S i) rest)%list
  end.

(** [create_swatch_image], as the calls it makes on [draw], in order; the
    picture they draw on a white ground and its PNG encoding are Pillow's. *)
Definition create_swatch_image
    (colors : list SwatchColor) (palette_name : string) (width height : Z)
    : Res (list DrawCall) :=
  let num_colors := Z.of_nat (List.length colors) in
  if (num_colors =? 0)%Z then Err ZeroDivisionError
  else
    let swatch_width := (width / num_colors)%Z in
    let name_x := ((width - text_width palette_name) / 2)%Z in
    Ok (swatches_from swatch_width height 0 colors
        ++ [text (name_x, int_ (ofZ height * dec 85 100)) palette_name (0, 0, 0)%Z])%list.

End Swatch.

(** [h, l, s] of a colour, the hue in degrees. *)
Definition seed_of (rgb : RGB) : Res (T * T * T) :=
  let '(r0, g0, b0) := rgb in
  '(h, l, s) <- colorsys.rgb_to_hls (ofZ r0 / ofZ 255) (ofZ g0 / ofZ 255)
                                    (ofZ b0 / ofZ 255) ;;
  Ok (h * ofZ 360, l, s).

Definition generate_palette
    (g : Rng) (now : string) (dominant_colors : list (DominantColor T))
    (style mood lighting : string) : Res (Palette * Rng) :=
  let base_colors := _select_style_colors dominant_colors style in
  harmony_palette <-
    match base_colors with
    | primary_rgb :: _ =>
        '(h, l, s) <- seed_of primary_rgb ;;
        Ok (_generate_harmony_colors h s l "complementary")
    | [] => Ok base_colors
    end ;;
  adjusted_palette <- _apply_style_mood_lighting harmony_palette style mood lighting ;;
  final_palette <- _assign_color_roles adjusted_palette ;;
  let '(palette_name, g) := _generate_palette_name g final_palette mood style in
  Ok (mkPalette palette_name final_palette None style mood lighting now, g).

Definition generate_harmony_palette
    (g : Rng) (now : string) (base_colors : list BaseColor)
    (harmony_type style mood lighting : string) : Res (Palette * Rng) :=
  match base_colors with
  | [] => Err (ValueError "No base colors provided")
  | primary_color :: _ =>
      let rgb :=
        match primary_color with
        | Dict (Some rgb) => rgb
        | Dict None => (128, 128, 128)%Z
        | Triple rgb => rgb
        end in
      '(h, l, s) <- seed_of rgb ;;
      let harmony_colors := _generate_harmony_colors h s l harmony_type in
      adjusted_palette <- _apply_style_mood_lighting harmony_colors style mood lighting ;;
      final_palette <- _assign_color_roles adjusted_palette ;;
      let '(palette_name, g) := _generate_palette_name g final_palette mood style in
      Ok (mkPalette palette_name final_palette (Some harmony_type) style mood lighting now, g)
  end.

End Defs.
End PaletteGenerator.

(** ** [app.py] *)

Module App.

Definition ALLOWED_EXTENSIONS : list string := ["png"; "jpg"; "jpeg"]%string.

(** [c in s] for a single character. *)
Fixpoint contains (c : ascii) (s : string) : bool :=
  match s with
  | EmptyString => false
  | String c' s' => Ascii.eqb c c' || contains c s'
  end.

(** [s.rsplit(sep, 1)]: the text before the last [sep] and the text after
    it, or [s] alone where [sep] does not occur. *)
Fixpoint rsplit1 (sep : ascii) (s : string) : list string :=
  match s with
  | EmptyString => [EmptyString]
  | String c s' =>
      match rsplit1 sep s' with
      | [tail] => if Ascii.eqb c sep then [EmptyString; tail] else [String c tail]
      | head :: rest => String c head :: rest
      | [] => []
      end
  end.

(** [s.lower()] on a name in ASCII: the letters A to Z move to a to z. *)
Definition lower_char (c : ascii) : ascii :=
  let n := nat_of_ascii c in
  if ((65 <=? n) && (n <=? 90))%nat then ascii_of_nat (n + 32) else c.

Fixpoint lower (s : string) : string :=
  match s with
  | EmptyString => EmptyString
  | String c s' => String (lower_char c) (lower s')
  end.

Definition allowed_file (filename : string) : bool :=
  contains "." filename
  && existsb (String.eqb (lower (nth 1 (rsplit1 "." filename) EmptyString)))
             ALLOWED_EXTENSIONS.

(** The JSON body of a request, key by key; a key the body lacks reads as
    its default.  Colours are triples of integers, or dicts. *)
Record PaletteRequest : Type := mkPaletteRequest {
  pr_colors : option (list PaletteGenerator.BaseColor);
  pr_style : option string;
  pr_mood : option string;
  pr_lighting : option string;
  pr_harmony : option string
}.

Record LightingRequest : Type := mkLightingRequest {
  lr_colors : option (list PaletteColor);
  lr_lighting : option string
}.

(** [data.get(key, default)]. *)
Definition get {A : Type} (value : option A) (default : A) : A :=
  match value with
  | Some a => a
  | None => default
  end.

(** What [jsonify] is given. *)
Inductive Body : Type :=
| ErrorBody (error : string)
| PaletteBody (palette : Palette)
| ColorsBody (colors : list PaletteColor).

(** A body and its status code. *)
Definition Response : Type := (Body * Z)%type.

(** [str(e)]; the divisions of the generator are divisions of floats. *)
Definition str_exc (e : PyErr) : string :=
  match e with
  | ZeroDivisionError => "float division by zero"
  | ValueError msg => msg
  end.

Section Routes.
Context {T : Type} `{PyNum T}.
Local Open Scope string_scope.

Definition generate_palette (g : Rng) (now : string) (data : PaletteRequest)
    : Response * Rng :=
  let base_colors := get (pr_colors data) [] in
  let style := get (pr_style data) "scandinavian" in
  let mood := get (pr_mood data) "calm" in
  let lighting := get (pr_lighting data) "daylight" in
  let harmony_type := get (pr_harmony data) "complementary" in
  match base_colors with
  | [] => ((ErrorBody "No base colors provided", 400), g)
  | _ :: _ =>
      match PaletteGenerator.generate_harmony_palette
              g now base_colors harmony_type style mood lighting with
      | Ok (palette_data, g') => ((PaletteBody palette_data, 200), g')
      | Err e => ((ErrorBody ("Error generating palette: " ++ str_exc e), 500), g)
      end
  end.

(** An uploaded file: its name, and the clustering that Pillow, NumPy and
    scikit-learn make of its picture. *)
Record Upload : Type := mkUpload {
  filename : string;
  fitted : ColorProcessor.KMeans (T := T)
}.

(** [request.form], key by key. *)
Record UploadForm : Type := mkUploadForm {
  uf_style : option string;
  uf_mood : option string;
  uf_lighting : option string
}.

Inductive UploadBody : Type :=
| UploadError (error : string)
| UploadOk (dominant_colors : list (DominantColor T)) (palette : Palette).

(** [upload_file] for a file that opens as a picture; [file] is
    [request.files.get('file')]. *)
Definition upload_file (g : Rng) (now : string) (file : option Upload) (form : UploadForm)
    : (UploadBody * Z) * Rng :=
  match file with
  | None => ((UploadError "No file uploaded", 400), g)
  | Some file =>
      if String.eqb (filename file) EmptyString
      then ((UploadError "No file selected", 400), g)
      else if negb (allowed_file (filename file))
      then ((UploadError "Invalid file type. Please upload JPG or PNG images only.", 400), g)
      else
        let style := get (uf_style form) "scandinavian" in
        let mood := get (uf_mood form) "calm" in
        let lighting := get (uf_lighting form) "daylight" in
        match
          dominant_colors <- ColorProcessor.extract_dominant_colors (fitted file) ;;
          palette_data <- PaletteGenerator.generate_palette
                            g now dominant_colors style mood lighting ;;
          Ok (dominant_colors, palette_data)
        with
        | Ok (dominant_colors, (palette_data, g')) =>
            ((UploadOk dominant_colors palette_data, 200), g')
        | Err e => ((UploadError ("Error processing image: " ++ str_exc e), 500), g)
        end
  end.

Definition adjust_lighting (data : LightingRequest) : Response :=
  let colors := get (lr_colors data) [] in
  let lighting_type := get (lr_lighting data) "daylight" in
  match colors with
  | [] => (ErrorBody "No colors provided", 400)
  | _ :: _ =>
      match PaletteGenerator.adjust_for_lighting colors lighting_type with
      | Ok adjusted_colors => (ColorsBody adjusted_colors, 200)
      | Err e => (ErrorBody ("Error adjusting lighting: " ++ str_exc e), 500)
      end
  end.

End Routes.
End App.

(** ** The round trip of the specification *)

Import PaletteGenerator.


(** * Specification *)

(** The notions the results are stated with. *)

(** ** Colours of the data model *)

Definition channel_ok (c : Z) : Prop := 0 <= c <= 255.

Definition rgb_ok (rgb : RGB) : Prop :=
  let '(r, g, b) := rgb in channel_ok r /\ channel_ok g /\ channel_ok b.

(** ** Round trip *)


(** ** Harmony schemes *)

Definition known_schemes : list string :=
  ["complementary"; "analogous"; "triadic"; "tetradic"; "monochromatic"]%string.


(** ** Lighting *)

Definition known_moods : list string := ["calm"; "cozy"; "luxury"; "energetic"]%string.

(** [color.get('rgb', [128, 128, 128])]. *)
Definition rgb_or_default (c : PaletteColor) : RGB :=
  match pc_rgb c with
  | Some rgb => rgb
  | None => (128, 128, 128)
  end.



(** ** Seed selection *)

(** The configured ranges as exact fractions,
    [((sat_min, sat_max), (light_min, light_max))]; a name that is not a
    style reads the scandinavian ranges. *)
Definition style_ranges (style : string) : (Q * Q) * (Q * Q) :=
  if String.eqb style "japandi" then ((5 # 100, 25 # 100), (70 # 100, 95 # 100))
  else if String.eqb style "scandinavian" then ((10 # 100, 40 # 100), (75 # 100, 95 # 100))
  else if String.eqb style "minimalist" then ((0 # 100, 15 # 100), (20 # 100, 95 # 100))
  else if String.eqb style "industrial" then ((10 # 100, 50 # 100), (20 # 100, 70 # 100))
  else if String.eqb style "mediterranean" then ((30 # 100, 80 # 100), (40 # 100, 80 # 100))
  else ((10 # 100, 40 # 100), (75 # 100, 95 # 100)).

(** The fraction [percent / 100] lies in the closed range. *)
Definition in_range (range : Q * Q) (percent : Z) : bool :=
  Qle_bool (fst range) (percent # 100) && Qle_bool (percent # 100) (snd range).

Definition qualifies {T : Type} (style : string) (c : DominantColor T) : bool :=
  in_range (fst (style_ranges style)) (hsl_s (dc_hsl c))
  && in_range (snd (style_ranges style)) (hsl_l (dc_hsl c)).

(** The colours that qualify, or the first three when none does. *)
Definition select_spec {T : Type} (dominant_colors : list (DominantColor T))
    (style : string) : list RGB :=
  match filter (qualifies style) dominant_colors with
  | [] => map dc_rgb (firstn 3 dominant_colors)
  | kept => map dc_rgb kept
  end.

(** Percentages, as [_rgb_to_hsl] produces them. *)
Definition percent_ok {T : Type} (c : DominantColor T) : Prop :=
  0 <= hsl_s (dc_hsl c) <= 100 /\ 0 <= hsl_l (dc_hsl c) <= 100.

(** ** The filter of extreme pixels *)

(** The mean of the three channels. *)
Definition mean_brightness (p : RGB) : Q :=
  let '(r, g, b) := p in (r + g + b) # 3.

Definition strictly_between (lo hi : Z) (p : RGB) : bool :=
  ExactQ.qltb (inject_Z lo) (mean_brightness p)
  && ExactQ.qltb (mean_brightness p) (inject_Z hi).

(** [kept] is fewer than ten percent of [total]. *)
Definition too_few (kept total : nat) : bool :=
  ExactQ.qltb (inject_Z (Z.of_nat kept)) ((1 # 10) * inject_Z (Z.of_nat total)).

Definition filter_spec (pixels : list RGB) : list RGB :=
  let kept := filter (strictly_between 30 225) pixels in
  if too_few (List.length kept) (List.length pixels) then pixels else kept.

(** ** Palette assembly *)

(** The role of position [i], as the specification lists the roles. *)
Definition role_name (i : nat) : string :=
  match i with
  | 0%nat => "Primary"
  | 1%nat => "Secondary"
  | 2%nat => "Accent"
  | 3%nat => "Neutral"
  | 4%nat => "Background"
  | _ => "Color " ++ Fmt.str_nat (i + 1)
  end.

(** [palette] is the assembly of [colors]: as many entries, in the same
    order, each with its colour, the hex string, HSL and CMYK of that colour,
    the role of its position, and not locked. *)
Definition assembled {T : Type} `{PyNum T}
    (colors : list RGB) (palette : list PaletteColor) : Prop :=
  List.length palette = List.length colors
  /\ map pc_rgb palette = map Some colors
  /\ map pc_hex palette = map (fun rgb => Some (_rgb_to_hex rgb)) colors
  /\ map (fun c => Ok (pc_hsl c)) palette = map _rgb_to_hsl colors
  /\ map (fun c => Ok (pc_cmyk c)) palette = map _rgb_to_cmyk colors
  /\ map pc_role palette = map role_name (seq 0 (List.length colors))
  /\ Forall (fun c => pc_locked c = false) palette.

(** ** Further notions *)

(** *** Channels *)

(** The largest and the smallest channel. *)
Definition max_channel (rgb : RGB) : Z := let '(r, g, b) := rgb in Z.max (Z.max r g) b.
Definition min_channel (rgb : RGB) : Z := let '(r, g, b) := rgb in Z.min (Z.min r g) b.

(** The colours on which a division of [rgb_to_hls] is by zero: the channels
    are not all equal and the largest and the smallest add up to 0 or to
    510. *)
Definition divides_by_zero (rgb : RGB) : bool :=
  negb (min_channel rgb =? max_channel rgb)
  && ((max_channel rgb + min_channel rgb =? 0) || (max_channel rgb + min_channel rgb =? 510)).

(** *** Palettes *)

(** The colour a request names first. *)
Definition seed_rgb (c : BaseColor) : RGB :=
  match c with
  | Triple rgb => rgb
  | Dict (Some rgb) => rgb
  | Dict None => (128, 128, 128)
  end.

(** Every entry holds a colour of the data model, with the hex string, the
    HSL and the CMYK of that colour. *)
Definition entry_ok (c : PaletteColor) : Prop :=
  exists rgb,
    pc_rgb c = Some rgb /\ rgb_ok rgb
    /\ pc_hex c = Some (_rgb_to_hex rgb)
    /\ _rgb_to_hsl (T := Q) rgb = Ok (pc_hsl c)
    /\ _rgb_to_cmyk (T := Q) rgb = Ok (pc_cmyk c).

(** What [adjust_for_lighting] returns for one entry: the entry with [rgb]
    and [hex] replaced. *)
Definition with_rgb (c : PaletteColor) (rgb : RGB) : PaletteColor :=
  mkPaletteColor (Some rgb) (Some (_rgb_to_hex rgb)) (pc_hsl c) (pc_cmyk c) (pc_role c)
                 (pc_locked c).

(** A colour with three equal channels. *)
Definition is_gray (rgb : RGB) : Prop := let '(r, g, b) := rgb in r = g /\ g = b.

(** *** Palette names *)

(** The words the prefix of a name is drawn from, and whether the mood
    replaces the prefix drawn first. *)
Definition mood_prefixes (mood : string) : list string :=
  if String.eqb mood "luxury" then ["Rich"; "Deep"; "Bold"]%string
  else if String.eqb mood "calm" then ["Serene"; "Gentle"; "Soft"]%string
  else if String.eqb mood "energetic" then ["Vibrant"; "Bold"; "Fresh"]%string
  else prefixes.

Definition overrides_prefix (mood : string) : bool :=
  String.eqb mood "luxury" || String.eqb mood "calm" || String.eqb mood "energetic".

(** *** The swatch image *)

(** A text of width [w] drawn at [x] sits in the middle of the span from
    [left] to [right], up to the rounding of a half. *)
Definition centred (left right x w : Z) : Prop :=
  0 <= (left + right) - (2 * x + w) <= 1.

(** The three calls for the colour at index [i]: its swatch, its hex code and
    its role. *)
Definition swatch_ok (text_width : string -> Z) (width swatch_width : Z) (i : nat)
    (color : SwatchColor) (calls : list DrawCall) : Prop :=
  match calls with
  | [rectangle (x1, y1, x2, y2) fill; text (tx, ty) hex_code _; text (rx, ry) role _] =>
      x1 = Z.of_nat i * swatch_width /\ x2 = x1 + swatch_width
      /\ 0 <= x1 /\ x1 <= x2 /\ x2 <= width /\ y1 = 0
      /\ fill = match sc_rgb color with Some rgb => rgb | None => (128, 128, 128) end
      /\ hex_code = match sc_hex color with Some hex => hex | None => "#808080"%string end
      /\ centred x1 x2 tx (text_width hex_code)
      /\ centred x1 x2 rx (text_width role)
      /\ ry = ty + 20
  | _ => False
  end.

(** * Auxiliary results *)

(** ** Exact arithmetic *)

Ltac qnum := cbv [add sub mul div opp ltb leb eqb ofZ pymod int_ QNum] in *.

(** A channel as the sources normalise it, [c / 255.0]. *)
Definition q255 (z : Z) : Q := (inject_Z z / inject_Z 255)%Q.

Lemma qltb_true : forall x y, ExactQ.qltb x y = true <-> (x < y)%Q.
Proof.
  intros x y. unfold ExactQ.qltb. rewrite negb_true_iff.
  split; intro Hx.
  - apply Qnot_le_lt. intro Hle. apply Qle_bool_iff in Hle. congruence.
  - destruct (Qle_bool y x) eqn:E; [|reflexivity].
    apply Qle_bool_iff in E. exfalso. apply (Qlt_not_le _ _ Hx E).
Qed.

Lemma qltb_false : forall x y, ExactQ.qltb x y = false <-> (y <= x)%Q.
Proof.
  intros x y. unfold ExactQ.qltb. rewrite negb_false_iff. apply Qle_bool_iff.
Qed.

Lemma qleb_false : forall x y, Qle_bool x y = false <-> (y < x)%Q.
Proof.
  intros x y. rewrite <- qltb_true. unfold ExactQ.qltb.
  destruct (Qle_bool x y); cbn; intuition congruence.
Qed.

Lemma qeqb_false : forall x y, Qeq_bool x y = false <-> ~ (x == y)%Q.
Proof.
  intros x y. split.
  - intros E Hq. apply Qeq_bool_iff in Hq. congruence.
  - intro Hn. destruct (Qeq_bool x y) eqn:E; [|reflexivity].
    apply Qeq_bool_iff in E. contradiction.
Qed.

Lemma q255_lt : forall a b, (q255 a < q255 b)%Q <-> a < b.
Proof. intros a b. unfold q255, Qlt, Qdiv, Qmult, Qinv, inject_Z; simpl. lia. Qed.

Lemma q255_le : forall a b, (q255 a <= q255 b)%Q <-> a <= b.
Proof. intros a b. unfold q255, Qle, Qdiv, Qmult, Qinv, inject_Z; simpl. lia. Qed.

Lemma q255_eq : forall a b, (q255 a == q255 b)%Q <-> a = b.
Proof. intros a b. unfold q255, Qeq, Qdiv, Qmult, Qinv, inject_Z; simpl. lia. Qed.

Lemma pymax_q255 : forall a b, pymax (q255 a) (q255 b) = q255 (Z.max a b).
Proof.
  intros a b. unfold pymax; qnum.
  destruct (ExactQ.qltb (q255 a) (q255 b)) eqn:E.
  - apply qltb_true in E. apply -> q255_lt in E. f_equal. lia.
  - apply qltb_false in E. apply -> q255_le in E. f_equal. lia.
Qed.

Lemma pymin_q255 : forall a b, pymin (q255 a) (q255 b) = q255 (Z.min a b).
Proof.
  intros a b. unfold pymin; qnum.
  destruct (ExactQ.qltb (q255 b) (q255 a)) eqn:E.
  - apply qltb_true in E. apply -> q255_lt in E. f_equal. lia.
  - apply qltb_false in E. apply -> q255_le in E. f_equal. lia.
Qed.

Lemma max3_q255 : forall r g b,
  max3 (q255 r) (q255 g) (q255 b) = q255 (Z.max (Z.max r g) b).
Proof. intros. unfold max3. now rewrite !pymax_q255. Qed.

Lemma min3_q255 : forall r g b,
  min3 (q255 r) (q255 g) (q255 b) = q255 (Z.min (Z.min r g) b).
Proof. intros. unfold min3. now rewrite !pymin_q255. Qed.

(** [int()] of a rational that is not negative is its floor. *)
Lemma qtrunc_floor : forall x, (0 <= x)%Q -> ExactQ.qtrunc x = Qfloor x.
Proof.
  intros [n d] Hx. unfold ExactQ.qtrunc, Qfloor; cbn [Qnum Qden].
  unfold Qle in Hx; cbn in Hx.
  apply Z.quot_div_nonneg; lia.
Qed.

Lemma qtrunc_bounds : forall x z,
  (inject_Z z <= x)%Q -> (x < inject_Z (z + 1))%Q -> 0 <= z -> ExactQ.qtrunc x = z.
Proof.
  intros x z Hlo Hhi Hz.
  rewrite qtrunc_floor.
  - pose proof (Qfloor_le x) as H1. pose proof (Qlt_floor x) as H2.
    assert (Ha : (inject_Z z < inject_Z (Qfloor x + 1))%Q) by (eapply Qle_lt_trans; eassumption).
    assert (Hb : (inject_Z (Qfloor x) < inject_Z (z + 1))%Q) by (eapply Qle_lt_trans; eassumption).
    rewrite <- Zlt_Qlt in Ha, Hb. lia.
  - eapply Qle_trans; [|exact Hlo]. change 0%Q with (inject_Z 0). rewrite <- Zle_Qle. exact Hz.
Qed.

(** ** CMYK in exact arithmetic *)

Lemma rgb_to_cmyk_exact : forall r0 g0 b0 : Z,
  channel_ok r0 -> channel_ok g0 -> channel_ok b0 ->
  exists cmyk, ColorProcessor._rgb_to_cmyk (T := Q) (r0, g0, b0) = Ok cmyk
    /\ (Z.max (Z.max r0 g0) b0 = 0 -> cmyk = mkCMYK 0 0 0 100).
Proof.
  intros r0 g0 b0 Hr Hg Hb. unfold channel_ok in *.
  unfold ColorProcessor._rgb_to_cmyk, pydiv; qnum.
  fold (q255 r0) (q255 g0) (q255 b0). rewrite max3_q255.
  set (M := Z.max (Z.max r0 g0) b0).
  assert (HM : 0 <= M <= 255) by (unfold M; lia).
  destruct (Qeq_bool (inject_Z 1 - q255 M) (inject_Z 1)) eqn:Ek.
  - eexists; split; [reflexivity | intros _; reflexivity].
  - assert (HM0 : M <> 0).
    { intro H0. apply qeqb_false in Ek. apply Ek. rewrite H0. reflexivity. }
    assert (Hd : Qeq_bool (inject_Z 1 - (inject_Z 1 - q255 M)) (inject_Z 0) = false).
    { apply qeqb_false. intro Hq.
      assert (Hz : (q255 M == q255 0)%Q).
      { assert (H0 : (q255 0 == 0)%Q) by reflexivity.
        change (inject_Z 1) with 1%Q in Hq. change (inject_Z 0) with 0%Q in Hq.
        rewrite H0. lra. }
      apply -> q255_eq in Hz. contradiction. }
    rewrite Hd. cbn [bind].
    eexists; split; [reflexivity | intros H0; contradiction].
Qed.

(** ** [rgb_to_hls] on a colour of the data model, in exact arithmetic *)

Module HlsQ.

(** What [rgb_to_hls] computes from the largest and the smallest channel. *)
Definition lightness (M m : Z) : Q := ((q255 M + q255 m) / inject_Z 2)%Q.

Definition saturation (M m : Z) : Q :=
  if Qle_bool (lightness M m) (inject_Z 5 / inject_Z 10)
  then ((q255 M - q255 m) / (q255 M + q255 m))%Q
  else ((q255 M - q255 m) / (inject_Z 2 - (q255 M + q255 m)))%Q.

(** The hue before it is divided by six and reduced modulo one. *)
Definition hue6 (r g b : Z) : Q :=
  let M := Z.max (Z.max r g) b in
  let m := Z.min (Z.min r g) b in
  let rc := ((q255 M - q255 r) / (q255 M - q255 m))%Q in
  let gc := ((q255 M - q255 g) / (q255 M - q255 m))%Q in
  let bc := ((q255 M - q255 b) / (q255 M - q255 m))%Q in
  if r =? M then (bc - gc)%Q
  else if g =? M then (inject_Z 2 + rc - bc)%Q
  else (inject_Z 4 + gc - rc)%Q.

Definition hue (r g b : Z) : Q :=
  ExactQ.qmod (hue6 r g b / inject_Z 6) (inject_Z 1).

End HlsQ.

Lemma qeqb_q255 : forall a b, Qeq_bool (q255 a) (q255 b) = (a =? b).
Proof.
  intros a b. destruct (a =? b) eqn:E.
  - apply Z.eqb_eq in E. subst. apply Qeq_bool_iff. reflexivity.
  - apply Z.eqb_neq in E. apply qeqb_false. intro Hq.
    apply -> q255_eq in Hq. contradiction.
Qed.

Lemma q255_val : forall a, (q255 a == inject_Z a / 255)%Q.
Proof. intro a. reflexivity. Qed.

Lemma rgb_to_hls_gray : forall v,
  colorsys.rgb_to_hls (q255 v) (q255 v) (q255 v)
  = Ok (inject_Z 0, HlsQ.lightness v v, inject_Z 0).
Proof.
  intro v. unfold colorsys.rgb_to_hls.
  rewrite max3_q255, min3_q255, !Z.max_id, !Z.min_id.
  qnum. rewrite qeqb_q255, Z.eqb_refl. reflexivity.
Qed.

Lemma rgb_to_hls_colored : forall r g b,
  channel_ok r -> channel_ok g -> channel_ok b ->
  Z.min (Z.min r g) b <> Z.max (Z.max r g) b ->
  colorsys.rgb_to_hls (q255 r) (q255 g) (q255 b)
  = Ok (HlsQ.hue r g b,
        HlsQ.lightness (Z.max (Z.max r g) b) (Z.min (Z.min r g) b),
        HlsQ.saturation (Z.max (Z.max r g) b) (Z.min (Z.min r g) b)).
Proof.
  intros r g b Hr Hg Hb Hne. unfold channel_ok in *.
  unfold colorsys.rgb_to_hls, HlsQ.hue, HlsQ.hue6, HlsQ.saturation, HlsQ.lightness.
  rewrite max3_q255, min3_q255.
  set (M := Z.max (Z.max r g) b) in *. set (m := Z.min (Z.min r g) b) in *.
  assert (HM : 0 <= m /\ m < M /\ M <= 255) by (unfold M, m in *; lia).
  unfold pydiv, dec; qnum.
  rewrite !qeqb_q255.
  destruct (m =? M) eqn:E; [apply Z.eqb_eq in E; lia | clear E].
  assert (Hlt : (q255 m < q255 M)%Q) by (apply q255_lt; lia).
  assert (Hm0 : (0 <= q255 m)%Q).
  { assert (H0 : (q255 0 == 0)%Q) by reflexivity. rewrite <- H0. apply q255_le. lia. }
  assert (HM1 : (q255 M <= 1)%Q).
  { assert (H1 : (q255 255 == 1)%Q) by reflexivity. rewrite <- H1. apply q255_le. lia. }
  assert (Hrange : Qeq_bool (q255 M - q255 m) (inject_Z 0) = false).
  { apply qeqb_false. change (inject_Z 0) with 0%Q. lra. }
  assert (Hsum : Qeq_bool (q255 M + q255 m) (inject_Z 0) = false).
  { apply qeqb_false. change (inject_Z 0) with 0%Q. lra. }
  assert (Hsum2 : Qeq_bool (inject_Z 2 - (q255 M + q255 m)) (inject_Z 0) = false).
  { apply qeqb_false. change (inject_Z 0) with 0%Q. change (inject_Z 2) with 2%Q. lra. }
  rewrite Hrange, Hsum, Hsum2.
  destruct (Qle_bool ((q255 M + q255 m) / inject_Z 2) (inject_Z 5 / inject_Z 10));
    cbn [bind]; reflexivity.
Qed.

(** ** Finite checks *)

(** [[0; 1; ...; n - 1]]. *)
Definition upto (n : nat) : list Z := map Z.of_nat (seq 0 n).

Lemma in_upto : forall n z, 0 <= z < Z.of_nat n -> In z (upto n).
Proof.
  intros n z Hz. unfold upto. apply in_map_iff.
  exists (Z.to_nat z). split; [lia | apply in_seq; lia].
Qed.

Lemma forallb_upto : forall (P : Z -> bool) n,
  forallb P (upto n) = true -> forall z, 0 <= z < Z.of_nat n -> P z = true.
Proof.
  intros P n Hall z Hz. rewrite forallb_forall in Hall. apply Hall, in_upto, Hz.
Qed.

(** ** Definedness of the converters *)

Section Defined.
Context {T : Type} `{PyNum T}.
Local Open Scope py_scope.

(** No division of [rgb_to_hls] is by zero; a condition on the largest and
    the smallest channel only. *)
Definition hls_defined (maxc minc : T) : bool :=
  (minc ==? maxc)
  || (negb ((maxc - minc) ==? ofZ 0)
      && negb (if (maxc + minc) / ofZ 2 <=? dec 5 10
               then (maxc + minc) ==? ofZ 0
               else (ofZ 2 - (maxc + minc)) ==? ofZ 0)).

Lemma rgb_to_hls_defined : forall r g b : T,
  hls_defined (max3 r g b) (min3 r g b) = true ->
  exists hls, colorsys.rgb_to_hls r g b = Ok hls.
Proof.
  intros r g b Hd. unfold colorsys.rgb_to_hls, pydiv. unfold hls_defined in Hd.
  destruct (min3 r g b ==? max3 r g b); [eexists; reflexivity |].
  cbn [orb] in Hd. apply andb_true_iff in Hd. destruct Hd as [Hr Hs].
  apply negb_true_iff in Hr. apply negb_true_iff in Hs. rewrite Hr.
  destruct ((max3 r g b + min3 r g b) / ofZ 2 <=? dec 5 10);
    rewrite Hs; cbn [bind]; eexists; reflexivity.
Qed.

Lemma max3_cases : forall r g b : T, max3 r g b = r \/ max3 r g b = g \/ max3 r g b = b.
Proof.
  intros r g b. unfold max3, pymax.
  destruct (r <? g); destruct (_ <? b); auto.
Qed.

Lemma min3_cases : forall r g b : T, min3 r g b = r \/ min3 r g b = g \/ min3 r g b = b.
Proof.
  intros r g b. unfold min3, pymin.
  destruct (g <? r); destruct (b <? _); auto.
Qed.

(** The guard of [_rgb_to_cmyk] covers its divisor. *)
Definition cmyk_defined (maxc : T) : bool :=
  ((ofZ 1 - maxc) ==? ofZ 1) || negb ((ofZ 1 - (ofZ 1 - maxc)) ==? ofZ 0).

Lemma rgb_to_cmyk_defined : forall r g b : Z,
  cmyk_defined (max3 (ofZ r / ofZ 255) (ofZ g / ofZ 255) (ofZ b / ofZ 255)) = true ->
  exists cmyk, ColorProcessor._rgb_to_cmyk (r, g, b) = Ok cmyk.
Proof.
  intros r g b Hd. unfold ColorProcessor._rgb_to_cmyk, pydiv. unfold cmyk_defined in Hd.
  destruct (_ ==? ofZ 1); [eexists; reflexivity |].
  cbn [orb] in Hd. apply negb_true_iff in Hd. rewrite Hd. cbn [bind].
  eexists; reflexivity.
Qed.

Lemma rgb_to_hsl_defined : forall r g b : Z,
  hls_defined (max3 (ofZ r / ofZ 255) (ofZ g / ofZ 255) (ofZ b / ofZ 255))
              (min3 (ofZ r / ofZ 255) (ofZ g / ofZ 255) (ofZ b / ofZ 255)) = true ->
  exists hsl, ColorProcessor._rgb_to_hsl (r, g, b) = Ok hsl.
Proof.
  intros r g b Hd. unfold ColorProcessor._rgb_to_hsl.
  destruct (rgb_to_hls_defined _ _ _ Hd) as [[[h l] s] Hh]. rewrite Hh. cbn [bind].
  eexists; reflexivity.
Qed.

End Defined.

(** *** Binary64: checked on every pair of channels *)

Definition f255 (z : Z) : float := (ofZ z / ofZ 255)%py.

Definition channels_binary64 : list float := map f255 (upto 256).

Lemma f255_in : forall z, channel_ok z -> In (f255 z) channels_binary64.
Proof.
  intros z Hz. apply in_map, in_upto. unfold channel_ok in Hz. lia.
Qed.

Definition all_pairs {A : Type} (P : A -> A -> bool) (xs : list A) : bool :=
  forallb (fun a => forallb (P a) xs) xs.

Lemma all_pairs_spec : forall (A : Type) (P : A -> A -> bool) (xs : list A),
  all_pairs P xs = true -> forall a b, In a xs -> In b xs -> P a b = true.
Proof.
  intros A P xs Hall a b Ia Ib. unfold all_pairs in Hall.
  rewrite forallb_forall in Hall. specialize (Hall a Ia).
  rewrite forallb_forall in Hall. exact (Hall b Ib).
Qed.

Lemma hls_defined_binary64 : all_pairs hls_defined channels_binary64 = true.
Proof. vm_compute. reflexivity. Qed.

Lemma cmyk_defined_binary64 : forallb cmyk_defined channels_binary64 = true.
Proof. vm_compute. reflexivity. Qed.

Lemma converters_defined_binary64 : forall rgb : RGB,
  rgb_ok rgb ->
  (exists hsl, ColorProcessor._rgb_to_hsl (T := float) rgb = Ok hsl)
  /\ (exists cmyk, ColorProcessor._rgb_to_cmyk (T := float) rgb = Ok cmyk).
Proof.
  intros [[r g] b] (Hr & Hg & Hb).
  pose proof (f255_in r Hr) as Ir. pose proof (f255_in g Hg) as Ig.
  pose proof (f255_in b Hb) as Ib.
  assert (IM : In (max3 (f255 r) (f255 g) (f255 b)) channels_binary64)
    by (destruct (max3_cases (f255 r) (f255 g) (f255 b)) as [E | [E | E]]; rewrite E; assumption).
  assert (Im : In (min3 (f255 r) (f255 g) (f255 b)) channels_binary64)
    by (destruct (min3_cases (f255 r) (f255 g) (f255 b)) as [E | [E | E]]; rewrite E; assumption).
  split.
  - apply rgb_to_hsl_defined. fold (f255 r) (f255 g) (f255 b).
    exact (all_pairs_spec _ _ _ hls_defined_binary64 _ _ IM Im).
  - apply rgb_to_cmyk_defined. fold (f255 r) (f255 g) (f255 b).
    pose proof cmyk_defined_binary64 as Hall. rewrite forallb_forall in Hall.
    exact (Hall _ IM).
Qed.

(** *** Exact arithmetic *)

Lemma converters_defined_exact : forall rgb : RGB,
  rgb_ok rgb ->
  (exists hsl, ColorProcessor._rgb_to_hsl (T := Q) rgb = Ok hsl)
  /\ (exists cmyk, ColorProcessor._rgb_to_cmyk (T := Q) rgb = Ok cmyk).
Proof.
  intros [[r g] b] (Hr & Hg & Hb). split.
  - unfold ColorProcessor._rgb_to_hsl.
    change (@div Q QNum (ofZ r) (ofZ 255)) with (q255 r).
    change (@div Q QNum (ofZ g) (ofZ 255)) with (q255 g).
    change (@div Q QNum (ofZ b) (ofZ 255)) with (q255 b).
    destruct (Z.eq_dec (Z.min (Z.min r g) b) (Z.max (Z.max r g) b)) as [E | E].
    + assert (r = g /\ g = b) as [-> ->] by lia.
      rewrite rgb_to_hls_gray. cbn [bind]. eexists; reflexivity.
    + rewrite rgb_to_hls_colored by assumption. cbn [bind]. eexists; reflexivity.
  - destruct (rgb_to_cmyk_exact r g b Hr Hg Hb) as [cmyk [Hc _]].
    exists cmyk; exact Hc.
Qed.

(** ** Palette assembly: the loop *)

Lemma role_at_name : forall i, role_at i = role_name i.
Proof.
  intro i. unfold role_at, role_name.
  do 5 (destruct i as [| i]; [reflexivity |]).
  reflexivity.
Qed.

Section Assembly.
Context {T : Type} `{PyNum T}.

Definition convertible (rgb : RGB) : Prop :=
  (exists hsl, _rgb_to_hsl rgb = Ok hsl) /\ (exists cmyk, _rgb_to_cmyk rgb = Ok cmyk).

Lemma assign_from_spec : forall colors i,
  Forall convertible colors ->
  exists palette,
    assign_from i colors = Ok palette
    /\ List.length palette = List.length colors
    /\ map pc_rgb palette = map Some colors
    /\ map pc_hex palette = map (fun rgb => Some (_rgb_to_hex rgb)) colors
    /\ map (fun c => Ok (pc_hsl c)) palette = map _rgb_to_hsl colors
    /\ map (fun c => Ok (pc_cmyk c)) palette = map _rgb_to_cmyk colors
    /\ map pc_role palette = map role_at (seq i (List.length colors))
    /\ Forall (fun c => pc_locked c = false) palette.
Proof.
  induction colors as [| rgb rest IH]; intros i Hall.
  - exists []. cbn. repeat split; constructor.
  - inversion Hall as [| ? ? [[hsl Hh] [cmyk Hc]] Hrest]; subst.
    destruct (IH (S i) Hrest) as (palette & Hp & Hlen & Hrgb & Hhex & Hhsl & Hcmyk & Hrole & Hlock).
    eexists. cbn [assign_from]. rewrite Hh, Hc. cbn [bind]. rewrite Hp. cbn [bind].
    split; [reflexivity |].
    cbn [List.length map seq pc_rgb pc_hex pc_hsl pc_cmyk pc_role pc_locked].
    rewrite Hlen, Hrgb, Hhex, Hhsl, Hcmyk, Hrole, Hh, Hc.
    repeat split. constructor; [reflexivity | exact Hlock].
Qed.

Lemma assign_color_roles_assembled : forall colors,
  Forall convertible colors ->
  exists palette, _assign_color_roles colors = Ok palette /\ assembled colors palette.
Proof.
  intros colors Hall.
  destruct (assign_from_spec colors 0 Hall)
    as (palette & Hp & Hlen & Hrgb & Hhex & Hhsl & Hcmyk & Hrole & Hlock).
  exists palette. split; [exact Hp |].
  unfold assembled. repeat split; try assumption.
  rewrite Hrole. apply map_ext. exact role_at_name.
Qed.

End Assembly.

(** ** Seed selection: the two arithmetics *)

Section Selection.
Context {T : Type} `{PyNum T}.
Local Open Scope py_scope.

(** The test of [fits_style] on one percentage. *)
Definition within (range : T * T) (percent : Z) : bool :=
  (fst range <=? ofZ percent / ofZ 100) && (ofZ percent / ofZ 100 <=? snd range).

Lemma fits_style_within : forall rule c,
  fits_style rule c
  = within (saturation_range rule) (hsl_s (dc_hsl c))
    && within (lightness_range rule) (hsl_l (dc_hsl c)).
Proof.
  intros [[smin smax] [lmin lmax] hues temp] c. reflexivity.
Qed.

(** The ranges the code reads for a style name. *)
Definition rule_ranges (style : string) : (T * T) * (T * T) :=
  let rule := dict_get style style_rules scandinavian in
  (saturation_range rule, lightness_range rule).

Lemma select_by_ranges : forall dominant_colors style,
  (forall c, In c dominant_colors ->
     within (fst (rule_ranges style)) (hsl_s (dc_hsl c))
     && within (snd (rule_ranges style)) (hsl_l (dc_hsl c))
     = qualifies style c) ->
  _select_style_colors dominant_colors style = select_spec dominant_colors style.
Proof.
  intros dcs style Hagree. unfold _select_style_colors, select_spec.
  assert (E : filter (fits_style (dict_get style style_rules scandinavian)) dcs
              = filter (qualifies style) dcs).
  { apply filter_ext_in. intros c Hc. rewrite fits_style_within. exact (Hagree c Hc). }
  rewrite E. destruct (filter (qualifies style) dcs); reflexivity.
Qed.

End Selection.

(** The five tables of ranges, by name. *)
Ltac by_style style :=
  unfold rule_ranges, style_ranges, style_rules; cbn [dict_get];
  repeat match goal with
         | |- context [String.eqb style ?k] => destruct (String.eqb style k)
         end;
  cbn [saturation_range lightness_range japandi scandinavian minimalist industrial
       mediterranean fst snd].

Lemma within_exact_scaled : forall n dn d dd n' d' percent,
  dn = 10 \/ dn = 100 -> dd = 10 \/ dd = 100 ->
  n' * dn = n * 100 -> d' * dd = d * 100 ->
  within (T := Q) (dec n dn, dec d dd) percent = in_range (n' # 100, d' # 100) percent.
Proof.
  intros n dn d dd n' d' percent Hdn Hdd Hn Hd.
  unfold within, in_range, dec; qnum. cbn [fst snd].
  f_equal; apply eq_iff_eq_true; rewrite !Qle_bool_iff;
    destruct Hdn as [-> | ->]; destruct Hdd as [-> | ->];
    unfold Qle, Qdiv, Qmult, Qinv, inject_Z; cbn [Qnum Qden Z.mul Pos.mul];
    lia.
Qed.

Lemma ranges_exact : forall style percent,
  within (T := Q) (fst (rule_ranges style)) percent
  = in_range (fst (style_ranges style)) percent
  /\ within (T := Q) (snd (rule_ranges style)) percent
     = in_range (snd (style_ranges style)) percent.
Proof.
  intros style percent. by_style style.
  all: split; apply within_exact_scaled; auto; reflexivity.
Qed.

(** Binary64 decides each range as exact arithmetic does, on every
    percentage from 0 to 100. *)
Definition ranges_agree (style : string) (percent : Z) : bool :=
  Bool.eqb (within (T := float) (fst (rule_ranges style)) percent)
           (in_range (fst (style_ranges style)) percent)
  && Bool.eqb (within (T := float) (snd (rule_ranges style)) percent)
              (in_range (snd (style_ranges style)) percent).

Lemma ranges_binary64_checked :
  forallb (fun style => forallb (ranges_agree style) (upto 101))
          ["japandi"; "scandinavian"; "minimalist"; "industrial"; "mediterranean"; EmptyString]%string
  = true.
Proof. vm_compute. reflexivity. Qed.

Lemma ranges_binary64 : forall style percent,
  0 <= percent <= 100 ->
  within (T := float) (fst (rule_ranges style)) percent
  = in_range (fst (style_ranges style)) percent
  /\ within (T := float) (snd (rule_ranges style)) percent
     = in_range (snd (style_ranges style)) percent.
Proof.
  intros style percent Hp.
  pose proof ranges_binary64_checked as Hall. rewrite forallb_forall in Hall.
  assert (Hs : exists known,
             In known ["japandi"; "scandinavian"; "minimalist"; "industrial";
                       "mediterranean"; EmptyString]%string
             /\ rule_ranges (T := float) style = rule_ranges known
             /\ style_ranges style = style_ranges known).
  { unfold rule_ranges, style_ranges, style_rules; cbn [dict_get].
    destruct (String.eqb style "japandi");
      [exists "japandi"%string; cbn; auto 8 |].
    destruct (String.eqb style "scandinavian");
      [exists "scandinavian"%string; cbn; auto 8 |].
    destruct (String.eqb style "minimalist");
      [exists "minimalist"%string; cbn; auto 8 |].
    destruct (String.eqb style "industrial");
      [exists "industrial"%string; cbn; auto 8 |].
    destruct (String.eqb style "mediterranean");
      [exists "mediterranean"%string; cbn; auto 8 |].
    exists EmptyString; cbn; auto 8. }
  destruct Hs as (known & Hin & E1 & E2). rewrite E1, E2.
  specialize (Hall known Hin).
  pose proof (forallb_upto _ _ Hall percent ltac:(lia)) as Hk.
  unfold ranges_agree in Hk. apply andb_true_iff in Hk. destruct Hk as [Ha Hb].
  split; apply eqb_prop; assumption.
Qed.

(** ** The filter of extreme pixels in exact arithmetic *)

Lemma qltb_ext : forall x x' y y',
  (x == x')%Q -> (y == y')%Q -> ExactQ.qltb x y = ExactQ.qltb x' y'.
Proof.
  intros x x' y y' Hx Hy. apply eq_iff_eq_true. rewrite !qltb_true, Hx, Hy. reflexivity.
Qed.

Lemma brightness_exact : forall p,
  (ColorProcessor.brightness (T := Q) p == mean_brightness p)%Q.
Proof.
  intros [[r g] b]. unfold ColorProcessor.brightness, mean_brightness; qnum.
  rewrite <- !inject_Z_plus. unfold Qdiv, Qeq, Qmult, Qinv, inject_Z; cbn [Qnum Qden].
  lia.
Qed.

Lemma mask_exact : forall lo hi p,
  ColorProcessor.mask (T := Q) lo hi p = strictly_between lo hi p.
Proof.
  intros lo hi p. unfold ColorProcessor.mask, strictly_between.
  change (@ltb Q QNum) with ExactQ.qltb. change (@ofZ Q QNum) with inject_Z.
  f_equal; apply qltb_ext; try reflexivity; apply brightness_exact.
Qed.

(** In whole numbers: the sum of the channels lies strictly between 90 and
    675, and ten times the number kept is less than the number of pixels. *)
Lemma strictly_between_sum : forall r g b,
  strictly_between 30 225 (r, g, b) = (90 <? r + g + b) && (r + g + b <? 675).
Proof.
  intros r g b. unfold strictly_between, mean_brightness.
  f_equal; apply eq_iff_eq_true; rewrite qltb_true, Z.ltb_lt;
    unfold Qlt, inject_Z; cbn [Qnum Qden]; lia.
Qed.

Lemma too_few_tenth : forall kept total,
  too_few kept total = (10 * Z.of_nat kept <? Z.of_nat total).
Proof.
  intros kept total. unfold too_few.
  apply eq_iff_eq_true. rewrite qltb_true, Z.ltb_lt.
  unfold Qlt, Qmult, inject_Z; cbn [Qnum Qden]. lia.
Qed.

(** ** The range of [hls_to_rgb] in exact arithmetic *)

Lemma qmod_1_range : forall x,
  (0 <= ExactQ.qmod x (inject_Z 1))%Q /\ (ExactQ.qmod x (inject_Z 1) < 1)%Q.
Proof.
  intro x. unfold ExactQ.qmod.
  assert (E : (x / inject_Z 1 == x)%Q) by (change (inject_Z 1) with 1%Q; field).
  pose proof (Qfloor_le (x / inject_Z 1)) as Hlo.
  pose proof (Qlt_floor (x / inject_Z 1)) as Hhi.
  rewrite inject_Z_plus in Hhi.
  set (F := inject_Z (Qfloor (x / inject_Z 1))) in *.
  change (inject_Z 1) with 1%Q in *. split; lra.
Qed.

Lemma qtrunc_unit_255 : forall x,
  (0 <= x)%Q -> (x <= 1)%Q -> channel_ok (ExactQ.qtrunc (x * inject_Z 255)).
Proof.
  intros x H0 H1. unfold channel_ok.
  assert (Hx : (0 <= x * inject_Z 255)%Q) by (change (inject_Z 255) with 255%Q; lra).
  rewrite qtrunc_floor by exact Hx.
  split.
  - exact (Qfloor_resp_le 0 _ Hx).
  - assert (Hy : (x * inject_Z 255 <= 255)%Q)
      by (change (inject_Z 255) with 255%Q; lra).
    exact (Qfloor_resp_le _ 255 Hy).
Qed.

Lemma v_between : forall m1 m2 hue,
  (m1 <= m2)%Q ->
  (m1 <= colorsys._v m1 m2 hue)%Q /\ (colorsys._v m1 m2 hue <= m2)%Q.
Proof.
  intros m1 m2 hue Hm. unfold colorsys._v, colorsys.ONE_SIXTH, colorsys.TWO_THIRD, dec; qnum.
  destruct (qmod_1_range hue) as [H0 H1].
  set (x := ExactQ.qmod hue (inject_Z 1)) in *. clearbody x.
  change (inject_Z 1 / inject_Z 6)%Q with (1 # 6)%Q.
  change (inject_Z 5 / inject_Z 10)%Q with (5 # 10)%Q.
  change (inject_Z 2 / inject_Z 3)%Q with (2 # 3)%Q.
  change (inject_Z 6) with 6%Q.
  destruct (ExactQ.qltb x (1 # 6)) eqn:E1.
  { apply qltb_true in E1.
    assert (P1 : (0 <= (m2 - m1) * x)%Q) by (apply Qmult_le_0_compat; lra).
    assert (P2 : (0 <= (m2 - m1) * ((1 # 6) - x))%Q) by (apply Qmult_le_0_compat; lra).
    split; lra. }
  apply qltb_false in E1.
  destruct (ExactQ.qltb x (5 # 10)) eqn:E2.
  { split; lra. }
  apply qltb_false in E2.
  destruct (ExactQ.qltb x (2 # 3)) eqn:E3.
  { apply qltb_true in E3.
    assert (P1 : (0 <= (m2 - m1) * ((2 # 3) - x))%Q) by (apply Qmult_le_0_compat; lra).
    assert (P2 : (0 <= (m2 - m1) * (x - (5 # 10)))%Q) by (apply Qmult_le_0_compat; lra).
    split; lra. }
  split; lra.
Qed.

Lemma hls_to_rgb_unit : forall h l s,
  (0 <= s)%Q -> (s <= 1)%Q -> (0 <= l)%Q -> (l <= 1)%Q ->
  let '(r, g, b) := colorsys.hls_to_rgb h l s in
  (0 <= r <= 1)%Q /\ (0 <= g <= 1)%Q /\ (0 <= b <= 1)%Q.
Proof.
  intros h l s Hs0 Hs1 Hl0 Hl1. unfold colorsys.hls_to_rgb.
  destruct (s ==? ofZ 0)%py.
  { repeat split; assumption. }
  set (m2 := if (l <=? dec 5 10)%py then (l * (ofZ 1 + s))%py else (l + s - l * s)%py).
  set (m1 := (ofZ 2 * l - m2)%py).
  assert (Hm : (0 <= m1)%Q /\ (m1 <= m2)%Q /\ (m2 <= 1)%Q).
  { unfold m1, m2, dec; qnum.
    change (inject_Z 5 / inject_Z 10)%Q with (5 # 10)%Q.
    change (inject_Z 1) with 1%Q. change (inject_Z 2) with 2%Q.
    assert (P1 : (0 <= l * s)%Q) by (apply Qmult_le_0_compat; lra).
    assert (P2 : (0 <= l * (1 - s))%Q) by (apply Qmult_le_0_compat; lra).
    assert (P3 : (0 <= (1 - l) * s)%Q) by (apply Qmult_le_0_compat; lra).
    assert (P4 : (0 <= (1 - l) * (1 - s))%Q) by (apply Qmult_le_0_compat; lra).
    destruct (Qle_bool l (5 # 10)) eqn:E.
    - apply Qle_bool_iff in E. repeat split; lra.
    - apply qleb_false in E. repeat split; lra. }
  destruct Hm as (Hm1 & Hm12 & Hm2).
  pose proof (v_between m1 m2 (h + colorsys.ONE_THIRD)%py Hm12) as [Ha Hb].
  pose proof (v_between m1 m2 h Hm12) as [Hc Hd].
  pose proof (v_between m1 m2 (h - colorsys.ONE_THIRD)%py Hm12) as [He Hf].
  repeat split; lra.
Qed.

Lemma hsl_to_rgb_ok : forall h s l : Q,
  (0 <= s)%Q -> (s <= 1)%Q -> (0 <= l)%Q -> (l <= 1)%Q ->
  rgb_ok (_hsl_to_rgb h s l).
Proof.
  intros h s l Hs0 Hs1 Hl0 Hl1. unfold _hsl_to_rgb.
  pose proof (hls_to_rgb_unit (h / ofZ 360)%py l s Hs0 Hs1 Hl0 Hl1) as Hu.
  destruct (colorsys.hls_to_rgb (h / ofZ 360)%py l s) as [[r g] b].
  destruct Hu as ([? ?] & [? ?] & [? ?]).
  unfold rgb_ok. repeat split; apply qtrunc_unit_255; assumption.
Qed.

(** ** Equal rationals give equal results *)

Lemma qleb_ext : forall x x' y y',
  (x == x')%Q -> (y == y')%Q -> Qle_bool x y = Qle_bool x' y'.
Proof.
  intros x x' y y' Hx Hy. apply eq_iff_eq_true. rewrite !Qle_bool_iff, Hx, Hy. reflexivity.
Qed.

Lemma qeqb_ext : forall x x' y y',
  (x == x')%Q -> (y == y')%Q -> Qeq_bool x y = Qeq_bool x' y'.
Proof.
  intros x x' y y' Hx Hy. apply eq_iff_eq_true. rewrite !Qeq_bool_iff, Hx, Hy. reflexivity.
Qed.

Lemma qmod_ext : forall x x' y,
  (x == x')%Q -> (ExactQ.qmod x y == ExactQ.qmod x' y)%Q.
Proof.
  intros x x' y Hx. unfold ExactQ.qmod.
  assert (E : Qfloor (x / y) = Qfloor (x' / y)).
  { apply Qfloor_comp. unfold Qdiv. apply Qmult_comp; [exact Hx | reflexivity]. }
  rewrite E. unfold Qminus. apply Qplus_comp; [exact Hx | reflexivity].
Qed.


Lemma v_ext : forall m1 m1' m2 m2' hue hue',
  (m1 == m1')%Q -> (m2 == m2')%Q -> (hue == hue')%Q ->
  (colorsys._v m1 m2 hue == colorsys._v m1' m2' hue')%Q.
Proof.
  intros m1 m1' m2 m2' hue hue' H1 H2 Hh.
  unfold colorsys._v, colorsys.ONE_SIXTH, colorsys.TWO_THIRD, dec; qnum.
  pose proof (qmod_ext hue hue' (inject_Z 1) Hh) as Hx.
  set (x := ExactQ.qmod hue (inject_Z 1)) in *.
  set (x' := ExactQ.qmod hue' (inject_Z 1)) in *.
  rewrite (qltb_ext x x' _ _ Hx (Qeq_refl _)).
  rewrite (qltb_ext x x' (inject_Z 5 / inject_Z 10) _ Hx (Qeq_refl _)).
  rewrite (qltb_ext x x' (inject_Z 2 / inject_Z 3) _ Hx (Qeq_refl _)).
  destruct (ExactQ.qltb x' (inject_Z 1 / inject_Z 6)).
  { rewrite H1, H2, Hx. reflexivity. }
  destruct (ExactQ.qltb x' (inject_Z 5 / inject_Z 10)); [exact H2 |].
  destruct (ExactQ.qltb x' (inject_Z 2 / inject_Z 3)); [| exact H1].
  rewrite H1, H2, Hx. reflexivity.
Qed.

(** Componentwise equality of triples of rationals. *)
Definition qeq3 (a b : Q * Q * Q) : Prop :=
  let '(a1, a2, a3) := a in
  let '(b1, b2, b3) := b in
  (a1 == b1)%Q /\ (a2 == b2)%Q /\ (a3 == b3)%Q.

Lemma hls_to_rgb_ext : forall h h' l l' s s',
  (h == h')%Q -> (l == l')%Q -> (s == s')%Q ->
  qeq3 (colorsys.hls_to_rgb h l s) (colorsys.hls_to_rgb h' l' s').
Proof.
  intros h h' l l' s s' Hh Hl Hs. unfold colorsys.hls_to_rgb, dec; qnum.
  rewrite (qeqb_ext s s' _ _ Hs (Qeq_refl _)).
  destruct (Qeq_bool s' (inject_Z 0)).
  { cbv [qeq3]. auto. }
  rewrite (qleb_ext l l' _ _ Hl (Qeq_refl _)).
  assert (Hm2 : ((if Qle_bool l' (inject_Z 5 / inject_Z 10)
                  then l * (inject_Z 1 + s) else l + s - l * s)
                 == (if Qle_bool l' (inject_Z 5 / inject_Z 10)
                     then l' * (inject_Z 1 + s') else l' + s' - l' * s'))%Q).
  { destruct (Qle_bool l' (inject_Z 5 / inject_Z 10)); rewrite Hl, Hs; reflexivity. }
  set (m2 := if Qle_bool l' (inject_Z 5 / inject_Z 10)
             then (l * (inject_Z 1 + s))%Q else (l + s - l * s)%Q) in *.
  set (m2' := if Qle_bool l' (inject_Z 5 / inject_Z 10)
              then (l' * (inject_Z 1 + s'))%Q else (l' + s' - l' * s')%Q) in *.
  clearbody m2 m2'.
  assert (Hm1 : (inject_Z 2 * l - m2 == inject_Z 2 * l' - m2')%Q)
    by (rewrite Hl, Hm2; reflexivity).
  cbv [qeq3]. repeat split; apply v_ext; try exact Hm1; try exact Hm2;
    try exact Hh; rewrite Hh; reflexivity.
Qed.

(** [int(c * 255)] on each component. *)
Definition to_bytes (c : Q * Q * Q) : RGB :=
  let '(r, g, b) := c in
  (ExactQ.qtrunc (r * inject_Z 255), ExactQ.qtrunc (g * inject_Z 255),
   ExactQ.qtrunc (b * inject_Z 255)).



(** ** Lightness and saturation of a colour of the data model *)

Lemma q255_unit : forall c, channel_ok c -> (0 <= q255 c)%Q /\ (q255 c <= 1)%Q.
Proof.
  intros c Hc. unfold channel_ok in Hc.
  assert (H0 : (q255 0 == 0)%Q) by reflexivity.
  assert (H1 : (q255 255 == 1)%Q) by reflexivity.
  split; [rewrite <- H0 | rewrite <- H1]; apply q255_le; lia.
Qed.

Lemma lightness_unit : forall M m,
  channel_ok M -> channel_ok m ->
  (0 <= HlsQ.lightness M m)%Q /\ (HlsQ.lightness M m <= 1)%Q.
Proof.
  intros M m HM Hm. unfold HlsQ.lightness.
  destruct (q255_unit M HM) as [? ?]. destruct (q255_unit m Hm) as [? ?].
  set (a := q255 M) in *. set (b := q255 m) in *. clearbody a b.
  assert (E : ((a + b) / inject_Z 2 == (a + b) * (1 # 2))%Q)
    by (change (inject_Z 2) with 2%Q; field).
  rewrite E. split; lra.
Qed.

Lemma saturation_unit : forall M m,
  channel_ok M -> channel_ok m -> m < M ->
  (0 <= HlsQ.saturation M m)%Q /\ (HlsQ.saturation M m <= 1)%Q.
Proof.
  intros M m HM Hm Hlt. unfold HlsQ.saturation, HlsQ.lightness.
  destruct (q255_unit M HM) as [? ?]. destruct (q255_unit m Hm) as [? ?].
  assert (Hab : (q255 m < q255 M)%Q) by (apply q255_lt; exact Hlt).
  set (a := q255 M) in *. set (b := q255 m) in *. clearbody a b.
  change (inject_Z 2) with 2%Q.
  destruct (Qle_bool ((a + b) / 2) (inject_Z 5 / inject_Z 10)) eqn:E.
  - split.
    + apply Qle_shift_div_l; lra.
    + apply Qle_shift_div_r; lra.
  - apply qleb_false in E. change (inject_Z 5 / inject_Z 10)%Q with (5 # 10)%Q in E.
    assert (E2 : ((a + b) / 2 == (a + b) * (1 # 2))%Q) by field.
    rewrite E2 in E.
    split.
    + apply Qle_shift_div_l; lra.
    + apply Qle_shift_div_r; lra.
Qed.

(** A literal [n / d] as the fraction the linear solver reads. *)
Ltac qfrac :=
  repeat match goal with
         | |- context [(inject_Z ?a / inject_Z (Zpos ?b))%Q] =>
             change (inject_Z a / inject_Z (Zpos b))%Q with (a # b)%Q
         end.

(** ** Lighting: one colour *)

Lemma clamp01_unit : forall x : Q,
  (0 <= clamp01 x)%Q /\ (clamp01 x <= 1)%Q
  /\ ((0 <= x)%Q -> (x <= 1)%Q -> (clamp01 x == x)%Q).
Proof.
  intro x. unfold clamp01, pymax, pymin; qnum.
  change (inject_Z 0) with 0%Q. change (inject_Z 1) with 1%Q.
  destruct (ExactQ.qltb x 1) eqn:E1.
  - apply qltb_true in E1.
    destruct (ExactQ.qltb 0 x) eqn:E2.
    + apply qltb_true in E2. repeat split; intros; first [lra | reflexivity].
    + apply qltb_false in E2. repeat split; intros; lra.
  - apply qltb_false in E1.
    destruct (ExactQ.qltb 0 1) eqn:E2.
    + repeat split; intros; lra.
    + apply qltb_false in E2. lra.
Qed.

Lemma rgb_to_hls_unit : forall r g b,
  channel_ok r -> channel_ok g -> channel_ok b ->
  exists h l s,
    colorsys.rgb_to_hls (q255 r) (q255 g) (q255 b) = Ok (h, l, s)
    /\ (0 <= l)%Q /\ (l <= 1)%Q /\ (0 <= s)%Q /\ (s <= 1)%Q.
Proof.
  intros r g b Hr Hg Hb.
  destruct (Z.eq_dec (Z.min (Z.min r g) b) (Z.max (Z.max r g) b)) as [E | E].
  - assert (r = g /\ g = b) as [-> ->] by (unfold channel_ok in *; lia).
    rewrite rgb_to_hls_gray. do 3 eexists. split; [reflexivity |].
    destruct (lightness_unit b b Hb Hb) as [? ?].
    change (inject_Z 0) with 0%Q. repeat split; try assumption; lra.
  - rewrite rgb_to_hls_colored by assumption. do 3 eexists. split; [reflexivity |].
    assert (HM : channel_ok (Z.max (Z.max r g) b)) by (unfold channel_ok in *; lia).
    assert (Hm : channel_ok (Z.min (Z.min r g) b)) by (unfold channel_ok in *; lia).
    destruct (lightness_unit _ _ HM Hm) as [? ?].
    destruct (saturation_unit _ _ HM Hm ltac:(unfold channel_ok in *; lia)) as [? ?].
    repeat split; assumption.
Qed.

Lemma zero_mood : forall mood,
  ~ In mood known_moods ->
  dict_get mood (mood_adjustments (T := Q)) (ofZ 0, ofZ 0) = (ofZ 0, ofZ 0).
Proof.
  intros mood Hnot. unfold mood_adjustments; cbn [dict_get].
  repeat match goal with
         | |- context [String.eqb mood ?k] =>
             destruct (String.eqb_spec mood k) as [-> | _];
             [exfalso; apply Hnot; cbn; auto 8 |]
         end.
  reflexivity.
Qed.



(** ** The wave of [hls_to_rgb] *)

(** [_v m1 m2] runs between [m1] and [m2] along one fixed profile of the
    hue. *)
Definition wave (hue : Q) : Q := colorsys._v (T := Q) 0%Q 1%Q hue.

Lemma qfloor_unique : forall (x : Q) (k : Z),
  (inject_Z k <= x)%Q -> (x < inject_Z k + 1)%Q -> Qfloor x = k.
Proof.
  intros x k Hlo Hhi.
  pose proof (Qfloor_le x) as H1. pose proof (Qlt_floor x) as H2.
  rewrite inject_Z_plus in H2. change (inject_Z 1) with 1%Q in H2.
  assert (Ha : (inject_Z k < inject_Z (Qfloor x + 1))%Q)
    by (rewrite inject_Z_plus; change (inject_Z 1) with 1%Q; lra).
  assert (Hb : (inject_Z (Qfloor x) < inject_Z (k + 1))%Q)
    by (rewrite inject_Z_plus; change (inject_Z 1) with 1%Q; lra).
  rewrite <- Zlt_Qlt in Ha, Hb. lia.
Qed.

Lemma qmod_1_shift : forall (x : Q) (k : Z),
  (inject_Z k <= x)%Q -> (x < inject_Z k + 1)%Q ->
  (ExactQ.qmod x (inject_Z 1) == x - inject_Z k)%Q.
Proof.
  intros x k Hlo Hhi. unfold ExactQ.qmod.
  assert (E : Qfloor (x / inject_Z 1) = k).
  { apply qfloor_unique.
    - assert (E1 : (x / inject_Z 1 == x)%Q) by (change (inject_Z 1) with 1%Q; field).
      rewrite E1. exact Hlo.
    - assert (E1 : (x / inject_Z 1 == x)%Q) by (change (inject_Z 1) with 1%Q; field).
      rewrite E1. exact Hhi. }
  rewrite E. change (inject_Z 1) with 1%Q. ring.
Qed.

(** The profile, piece by piece; [y] is the hue less a whole number. *)
Lemma wave_pieces : forall (u : Q) (k : Z),
  (inject_Z k <= u)%Q -> (u < inject_Z k + 1)%Q ->
  let y := (u - inject_Z k)%Q in
  ((y <= 1 # 6)%Q -> (wave u == 6 * y)%Q)
  /\ ((1 # 6 <= y)%Q -> (y <= 1 # 2)%Q -> (wave u == 1)%Q)
  /\ ((1 # 2 <= y)%Q -> (y <= 2 # 3)%Q -> (wave u == 4 - 6 * y)%Q)
  /\ ((2 # 3 <= y)%Q -> (wave u == 0)%Q).
Proof.
  intros u k Hlo Hhi y.
  pose proof (qmod_1_shift u k Hlo Hhi) as Hx. fold y in Hx.
  assert (Hy : (0 <= y)%Q /\ (y < 1)%Q) by (unfold y; split; lra).
  unfold wave, colorsys._v, colorsys.ONE_SIXTH, colorsys.TWO_THIRD, dec; qnum.
  set (x := ExactQ.qmod u (inject_Z 1)) in *. clearbody x y.
  change (inject_Z 1 / inject_Z 6)%Q with (1 # 6)%Q.
  change (inject_Z 5 / inject_Z 10)%Q with (5 # 10)%Q.
  change (inject_Z 2 / inject_Z 3)%Q with (2 # 3)%Q.
  change (inject_Z 6) with 6%Q.
  destruct (ExactQ.qltb x (1 # 6)) eqn:E1;
    [apply qltb_true in E1 | apply qltb_false in E1;
     destruct (ExactQ.qltb x (5 # 10)) eqn:E2;
     [apply qltb_true in E2 | apply qltb_false in E2;
      destruct (ExactQ.qltb x (2 # 3)) eqn:E3;
      [apply qltb_true in E3 | apply qltb_false in E3]]];
    repeat split; intros; lra.
Qed.

(** The same with the right end of the period included: the profile is
    continuous and starts where it ends. *)
Lemma wave_closed : forall (u : Q) (k : Z),
  (inject_Z k <= u)%Q -> (u <= inject_Z k + 1)%Q ->
  let y := (u - inject_Z k)%Q in
  ((y <= 1 # 6)%Q -> (wave u == 6 * y)%Q)
  /\ ((1 # 6 <= y)%Q -> (y <= 1 # 2)%Q -> (wave u == 1)%Q)
  /\ ((1 # 2 <= y)%Q -> (y <= 2 # 3)%Q -> (wave u == 4 - 6 * y)%Q)
  /\ ((2 # 3 <= y)%Q -> (wave u == 0)%Q).
Proof.
  intros u k Hlo Hhi y.
  destruct (Qlt_le_dec u (inject_Z k + 1)) as [Hlt | Hge].
  - exact (wave_pieces u k Hlo Hlt).
  - assert (Hk : (inject_Z (k + 1) <= u)%Q)
      by (rewrite inject_Z_plus; change (inject_Z 1) with 1%Q; lra).
    assert (Hk1 : (u < inject_Z (k + 1) + 1)%Q)
      by (rewrite inject_Z_plus; change (inject_Z 1) with 1%Q; lra).
    destruct (wave_pieces u (k + 1) Hk Hk1) as (W1 & _).
    rewrite inject_Z_plus in W1. change (inject_Z 1) with 1%Q in W1.
    unfold y. repeat split; intros; try lra; rewrite W1; lra.
Qed.

Lemma wave_unit : forall u, (0 <= wave u)%Q /\ (wave u <= 1)%Q.
Proof.
  intro u. unfold wave. apply v_between. lra.
Qed.

Lemma v_wave : forall m1 m2 hue : Q,
  (colorsys._v m1 m2 hue == m1 + (m2 - m1) * wave hue)%Q.
Proof.
  intros m1 m2 hue.
  unfold wave, colorsys._v, colorsys.ONE_SIXTH, colorsys.TWO_THIRD, dec; qnum.
  destruct (ExactQ.qltb _ (inject_Z 1 / inject_Z 6)); [ring |].
  destruct (ExactQ.qltb _ (inject_Z 5 / inject_Z 10)); [ring |].
  destruct (ExactQ.qltb _ (inject_Z 2 / inject_Z 3)); ring.
Qed.

(** What [hls_to_rgb] interpolates between. *)
Definition back_m2 (l s : Q) : Q :=
  if Qle_bool l (inject_Z 5 / inject_Z 10)
  then (l * (inject_Z 1 + s))%Q else (l + s - l * s)%Q.

Definition back_m1 (l s : Q) : Q := (inject_Z 2 * l - back_m2 l s)%Q.

Lemma hls_to_rgb_wave : forall h l s : Q,
  qeq3 (colorsys.hls_to_rgb h l s)
       (back_m1 l s + (back_m2 l s - back_m1 l s) * wave (h + colorsys.ONE_THIRD),
        back_m1 l s + (back_m2 l s - back_m1 l s) * wave h,
        back_m1 l s + (back_m2 l s - back_m1 l s) * wave (h - colorsys.ONE_THIRD))%Q.
Proof.
  intros h l s. unfold colorsys.hls_to_rgb, dec; qnum.
  destruct (Qeq_bool s (inject_Z 0)) eqn:E.
  - apply Qeq_bool_iff in E. change (inject_Z 0) with 0%Q in E.
    assert (E2 : (back_m2 l s == l)%Q).
    { unfold back_m2. destruct (Qle_bool l _); rewrite E; ring. }
    assert (E1 : (back_m1 l s == l)%Q).
    { unfold back_m1. rewrite E2. change (inject_Z 2) with 2%Q. ring. }
    cbv [qeq3]. repeat split; rewrite E1, E2; ring.
  - fold (back_m2 l s). fold (back_m1 l s).
    cbv [qeq3]. repeat split; apply v_wave.
Qed.

Lemma floor_bounds : forall x : Q,
  (inject_Z (Qfloor x) <= x)%Q /\ (x < inject_Z (Qfloor x) + 1)%Q.
Proof.
  intro x. pose proof (Qfloor_le x) as H1. pose proof (Qlt_floor x) as H2.
  rewrite inject_Z_plus in H2. change (inject_Z 1) with 1%Q in H2. split; assumption.
Qed.



(** The profile has period one. *)
Lemma wave_shift : forall (u u' : Q) (k : Z),
  (u == u' + inject_Z k)%Q -> (wave u == wave u')%Q.
Proof.
  intros u u' k E.
  destruct (floor_bounds u') as [Hlo Hhi].
  set (j := Qfloor u') in *.
  assert (Hlo' : (inject_Z (j + k) <= u)%Q) by (rewrite inject_Z_plus; lra).
  assert (Hhi' : (u < inject_Z (j + k) + 1)%Q) by (rewrite inject_Z_plus; lra).
  destruct (wave_pieces u (j + k) Hlo' Hhi') as (A1 & A2 & A3 & A4).
  destruct (wave_pieces u' j Hlo Hhi) as (B1 & B2 & B3 & B4).
  rewrite inject_Z_plus in A1, A2, A3, A4.
  set (J := inject_Z j) in *. set (K := inject_Z k) in *. clearbody J K.
  destruct (Qlt_le_dec (u' - J) (1 # 6)) as [H1 | H1];
    [rewrite A1, B1 by lra; lra |].
  destruct (Qlt_le_dec (u' - J) (1 # 2)) as [H2 | H2];
    [rewrite A2, B2 by lra; lra |].
  destruct (Qlt_le_dec (u' - J) (2 # 3)) as [H3 | H3];
    [rewrite A3, B3 by lra; lra |].
  rewrite A4, B4 by lra. lra.
Qed.


(** *** The profile undoes the hue of [rgb_to_hls] *)

(** [tr], [tg], [tb] place the three channels between the smallest (0) and
    the largest (1); [h6] is the hue on the scale from 0 to 6, before it is
    reduced, in each of its six cases. *)
Definition sextant (tr tg tb h6 : Q) : Prop :=
  ((tr == 1)%Q /\ (tb == 0)%Q /\ (h6 == tg)%Q)
  \/ ((tr == 1)%Q /\ (tg == 0)%Q /\ (h6 == - tb)%Q)
  \/ ((tg == 1)%Q /\ (tb == 0)%Q /\ (h6 == 2 - tr)%Q)
  \/ ((tg == 1)%Q /\ (tr == 0)%Q /\ (h6 == 2 + tb)%Q)
  \/ ((tb == 1)%Q /\ (tg == 0)%Q /\ (h6 == 4 + tr)%Q)
  \/ ((tb == 1)%Q /\ (tr == 0)%Q /\ (h6 == 4 - tg)%Q).

(** The value of [wave u], found on the piece of period [k] that holds it. *)
Ltac wave_at u k :=
  let W1 := fresh "W" in let W2 := fresh "W" in
  let W3 := fresh "W" in let W4 := fresh "W" in
  destruct (wave_closed u k) as (W1 & W2 & W3 & W4);
  [ change (inject_Z k) with (k # 1)%Q; lra
  | change (inject_Z k) with (k # 1)%Q; lra
  | change (inject_Z k) with (k # 1)%Q in W1, W2, W3, W4;
    first [ rewrite W1 by lra; lra | rewrite W2 by lra; lra
          | rewrite W3 by lra; lra | rewrite W4 by lra; lra ] ].

Lemma wave_inverse : forall tr tg tb h6 : Q,
  (0 <= tr)%Q -> (tr <= 1)%Q -> (0 <= tg)%Q -> (tg <= 1)%Q ->
  (0 <= tb)%Q -> (tb <= 1)%Q ->
  sextant tr tg tb h6 ->
  (wave (h6 * (1 # 6) + (1 # 3)) == tr)%Q
  /\ (wave (h6 * (1 # 6)) == tg)%Q
  /\ (wave (h6 * (1 # 6) - (1 # 3)) == tb)%Q.
Proof.
  intros tr tg tb h6 Hr0 Hr1 Hg0 Hg1 Hb0 Hb1 Hs.
  destruct Hs as [(E1 & E0 & Eh) | [(E1 & E0 & Eh) | [(E1 & E0 & Eh)
                 | [(E1 & E0 & Eh) | [(E1 & E0 & Eh) | (E1 & E0 & Eh)]]]]].
  - repeat split.
    + wave_at (h6 * (1 # 6) + (1 # 3))%Q 0.
    + wave_at (h6 * (1 # 6))%Q 0.
    + wave_at (h6 * (1 # 6) - (1 # 3))%Q (-1).
  - repeat split.
    + wave_at (h6 * (1 # 6) + (1 # 3))%Q 0.
    + wave_at (h6 * (1 # 6))%Q (-1).
    + wave_at (h6 * (1 # 6) - (1 # 3))%Q (-1).
  - repeat split.
    + wave_at (h6 * (1 # 6) + (1 # 3))%Q 0.
    + wave_at (h6 * (1 # 6))%Q 0.
    + wave_at (h6 * (1 # 6) - (1 # 3))%Q (-1).
  - repeat split.
    + wave_at (h6 * (1 # 6) + (1 # 3))%Q 0.
    + wave_at (h6 * (1 # 6))%Q 0.
    + wave_at (h6 * (1 # 6) - (1 # 3))%Q 0.
  - repeat split.
    + wave_at (h6 * (1 # 6) + (1 # 3))%Q 1.
    + wave_at (h6 * (1 # 6))%Q 0.
    + wave_at (h6 * (1 # 6) - (1 # 3))%Q 0.
  - repeat split.
    + wave_at (h6 * (1 # 6) + (1 # 3))%Q 0.
    + wave_at (h6 * (1 # 6))%Q 0.
    + wave_at (h6 * (1 # 6) - (1 # 3))%Q 0.
Qed.

(** *** Where a channel lies between the smallest and the largest *)

(** The place of channel [c] between [m] (0) and [M] (1). *)
Definition place (M m c : Z) : Q :=
  ((q255 c - q255 m) / (q255 M - q255 m))%Q.

Lemma inject_Z_sub : forall a b, (inject_Z (a - b) == inject_Z a - inject_Z b)%Q.
Proof.
  intros a b. unfold Z.sub. rewrite inject_Z_plus, inject_Z_opp. ring.
Qed.

Lemma q255_diff : forall a b, (q255 a - q255 b == inject_Z (a - b) * (1 # 255))%Q.
Proof.
  intros a b. rewrite inject_Z_sub. unfold q255. change (inject_Z 255) with 255%Q. field.
Qed.

Lemma place_spec : forall M m c,
  m < M ->
  (inject_Z c == inject_Z m + inject_Z (M - m) * place M m c)%Q
  /\ ((q255 M - q255 c) / (q255 M - q255 m) == 1 - place M m c)%Q.
Proof.
  intros M m c Hlt. unfold place.
  assert (Hd : ~ (q255 M - q255 m == 0)%Q).
  { intro E. assert (E' : (q255 M == q255 m)%Q) by lra.
    apply -> q255_eq in E'. lia. }
  split.
  - rewrite inject_Z_sub.
    assert (Hd' : ~ (inject_Z M - inject_Z m == 0)%Q).
    { intro E. apply Hd. rewrite q255_diff, inject_Z_sub, E. ring. }
    unfold q255 in *. change (inject_Z 255) with 255%Q in *. field. exact Hd'.
  - field. exact Hd.
Qed.

Lemma place_unit : forall M m c,
  m < M -> m <= c <= M -> (0 <= place M m c)%Q /\ (place M m c <= 1)%Q.
Proof.
  intros M m c Hlt Hc. unfold place.
  assert (Hd : (0 < q255 M - q255 m)%Q).
  { assert (H : (q255 m < q255 M)%Q) by (apply q255_lt; exact Hlt). lra. }
  assert (H1 : (q255 m <= q255 c)%Q) by (apply q255_le; lia).
  assert (H2 : (q255 c <= q255 M)%Q) by (apply q255_le; lia).
  split.
  - apply Qle_shift_div_l; [exact Hd | lra].
  - apply Qle_shift_div_r; [exact Hd | lra].
Qed.

Lemma place_ends : forall M m,
  m < M -> (place M m M == 1)%Q /\ (place M m m == 0)%Q.
Proof.
  intros M m Hlt. unfold place.
  assert (Hd : ~ (q255 M - q255 m == 0)%Q).
  { intro E. assert (E' : (q255 M == q255 m)%Q) by lra.
    apply -> q255_eq in E'. lia. }
  split; field; exact Hd.
Qed.

(** The hue of [rgb_to_hls], before it is reduced, is one of the six cases
    of [sextant]. *)
Lemma hue6_sextant : forall r g b,
  let M := Z.max (Z.max r g) b in
  let m := Z.min (Z.min r g) b in
  m < M ->
  sextant (place M m r) (place M m g) (place M m b) (HlsQ.hue6 r g b).
Proof.
  intros r g b M m Hlt. unfold HlsQ.hue6. cbv zeta. fold M m.
  destruct (place_spec M m r Hlt) as [_ Er].
  destruct (place_spec M m g Hlt) as [_ Eg].
  destruct (place_spec M m b Hlt) as [_ Eb].
  destruct (place_ends M m Hlt) as [E1 E0].
  change (inject_Z 2) with 2%Q. change (inject_Z 4) with 4%Q.
  unfold sextant.
  destruct (Z.eqb_spec r M) as [HrM | HrM].
  - destruct (Z.eq_dec b m) as [Hbm | Hbm].
    + left. rewrite Eb, Eg. rewrite HrM, Hbm, E1, E0.
      repeat split; try reflexivity. ring.
    + assert (Hgm : g = m) by (unfold M, m in *; lia).
      right; left. rewrite Eb, Eg. rewrite HrM, Hgm, E1, E0.
      repeat split; try reflexivity. ring.
  - destruct (Z.eqb_spec g M) as [HgM | HgM].
    + destruct (Z.eq_dec b m) as [Hbm | Hbm].
      * right; right; left. rewrite Er, Eb. rewrite HgM, Hbm, E1, E0.
        repeat split; try reflexivity. ring.
      * assert (Hrm : r = m) by (unfold M, m in *; lia).
        right; right; right; left. rewrite Er, Eb. rewrite HgM, Hrm, E1, E0.
        repeat split; try reflexivity. ring.
    + assert (HbM : b = M) by (unfold M, m in *; lia).
      destruct (Z.eq_dec g m) as [Hgm | Hgm].
      * right; right; right; right; left. rewrite Eg, Er. rewrite HbM, Hgm, E1, E0.
        repeat split; try reflexivity. ring.
      * assert (Hrm : r = m) by (unfold M, m in *; lia).
        right; right; right; right; right. rewrite Eg, Er. rewrite HbM, Hrm, E1, E0.
        repeat split; try reflexivity. ring.
Qed.

(** The profile, read at the hue of [rgb_to_hls], gives back the place of
    each channel. *)
Lemma wave_of_hue : forall r g b,
  let M := Z.max (Z.max r g) b in
  let m := Z.min (Z.min r g) b in
  m < M ->
  (wave (HlsQ.hue r g b + (1 # 3)) == place M m r)%Q
  /\ (wave (HlsQ.hue r g b) == place M m g)%Q
  /\ (wave (HlsQ.hue r g b - (1 # 3)) == place M m b)%Q.
Proof.
  intros r g b M m Hlt.
  assert (Hr : m <= r <= M) by (unfold M, m; lia).
  assert (Hg : m <= g <= M) by (unfold M, m; lia).
  assert (Hb : m <= b <= M) by (unfold M, m; lia).
  destruct (place_unit M m r Hlt Hr) as [Hr0 Hr1].
  destruct (place_unit M m g Hlt Hg) as [Hg0 Hg1].
  destruct (place_unit M m b Hlt Hb) as [Hb0 Hb1].
  pose proof (hue6_sextant r g b Hlt) as Hs. fold M m in Hs.
  destruct (wave_inverse (place M m r) (place M m g) (place M m b) (HlsQ.hue6 r g b)
              Hr0 Hr1 Hg0 Hg1 Hb0 Hb1 Hs)
    as (Wr & Wg & Wb).
  unfold HlsQ.hue, ExactQ.qmod.
  set (k := Qfloor (HlsQ.hue6 r g b / inject_Z 6 / inject_Z 1)).
  set (h6 := HlsQ.hue6 r g b) in *. clearbody h6.
  assert (Eh : (h6 / inject_Z 6 - inject_Z 1 * inject_Z k
                == h6 * (1 # 6) + inject_Z (- k))%Q).
  { rewrite inject_Z_opp. change (inject_Z 6) with 6%Q. change (inject_Z 1) with 1%Q.
    field. }
  clearbody k.
  repeat split.
  - rewrite <- Wr. apply (wave_shift _ _ (- k)). rewrite Eh. ring.
  - rewrite <- Wg. apply (wave_shift _ _ (- k)). rewrite Eh. ring.
  - rewrite <- Wb. apply (wave_shift _ _ (- k)). rewrite Eh. ring.
Qed.

(** ** The round trip through [_rgb_to_hsl] and [_hsl_to_rgb] *)



(** The same in whole numbers: the stored percentages, and the two ends of
    the interpolation in ten-thousandths. *)
Definition percent_l (M m : Z) : Z := (100 * (M + m)) / 510.

Definition percent_s (M m : Z) : Z :=
  if M + m <=? 255 then (100 * (M - m)) / (M + m)
  else (100 * (M - m)) / (510 - (M + m)).








(** *** The stored percentages in whole numbers *)

Lemma qtrunc_div : forall (x : Q) (n d : Z),
  0 <= n -> 0 < d -> (x * inject_Z d == inject_Z n)%Q -> ExactQ.qtrunc x = n / d.
Proof.
  intros x n d Hn Hd Hx.
  assert (HD : (0 < inject_Z d)%Q) by (change 0%Q with (inject_Z 0); rewrite <- Zlt_Qlt; exact Hd).
  pose proof (Z.mul_div_le n d Hd) as H1.
  pose proof (Z.mul_succ_div_gt n d Hd) as H2.
  apply qtrunc_bounds.
  - apply (Qmult_le_r _ _ (inject_Z d) HD). rewrite Hx, <- inject_Z_mult, <- Zle_Qle. lia.
  - apply (Qmult_lt_r _ _ (inject_Z d) HD). rewrite Hx, <- inject_Z_mult, <- Zlt_Qlt. lia.
  - apply Z.div_pos; assumption.
Qed.

Lemma lightness_half : forall M m,
  Qle_bool (HlsQ.lightness M m) (inject_Z 5 / inject_Z 10) = (M + m <=? 255).
Proof.
  intros M m. apply eq_iff_eq_true. rewrite Qle_bool_iff, Z.leb_le.
  unfold HlsQ.lightness, q255, Qle, Qdiv, Qmult, Qinv, Qplus, inject_Z.
  cbn [Qnum Qden Z.mul Pos.mul]. lia.
Qed.



(** *** The ends of the interpolation in whole numbers *)



(** *** One channel *)


(** *** The hue in whole degrees *)



(** *** Grey and coloured triples *)






(** ** The name of a palette *)

(** The name of that palette is three words from the word lists. *)
Lemma palette_name_shape :
  forall (g : Rng) (colors : list PaletteColor) (mood style : string),
    exists prefix theme suffix,
      fst (_generate_palette_name g colors mood style)
      = (prefix ++ " " ++ theme ++ " " ++ suffix)%string
      /\ In prefix (prefixes ++ ["Soft"%string])
      /\ In theme themes /\ In suffix suffixes.
Proof.
  intros g colors mood style.
  assert (Hin : forall seq g0, seq <> [] -> In (fst (choice seq g0)) seq).
  { intros seq g0 Hne. unfold choice; cbn [fst].
    apply nth_In. apply Nat.mod_upper_bound.
    destruct seq; [congruence | discriminate]. }
  unfold _generate_palette_name.
  pose proof (Hin prefixes g ltac:(discriminate)) as Hp.
  destruct (choice prefixes g) as [p g1]; cbn [fst] in Hp.
  pose proof (Hin themes g1 ltac:(discriminate)) as Ht.
  destruct (choice themes g1) as [t g2]; cbn [fst] in Ht.
  pose proof (Hin suffixes g2 ltac:(discriminate)) as Hs.
  destruct (choice suffixes g2) as [s g3]; cbn [fst] in Hs.
  pose proof (Hin ["Rich"; "Deep"; "Bold"]%string g3 ltac:(discriminate)) as H1.
  pose proof (Hin ["Serene"; "Gentle"; "Soft"]%string g3 ltac:(discriminate)) as H2.
  pose proof (Hin ["Vibrant"; "Bold"; "Fresh"]%string g3 ltac:(discriminate)) as H3.
  destruct (String.eqb mood "luxury");
    [ destruct (choice _ g3) as [p' g4]; cbn [fst] in *
    | destruct (String.eqb mood "calm");
      [ destruct (choice _ g3) as [p' g4]; cbn [fst] in *
      | destruct (String.eqb mood "energetic");
        [ destruct (choice _ g3) as [p' g4]; cbn [fst] in * | ] ] ];
    eexists _, t, s; (split; [reflexivity | split; [ | split; assumption ]]).
  - cbn in H1 |- *. intuition.
  - cbn in H2 |- *. intuition.
  - cbn in H3 |- *. intuition.
  - apply in_or_app; left; assumption.
Qed.

(** * The claims *)

(** ** C1: the round trip *)





(** ** C2: the range of the harmony colours *)




(** ** C3: lighting, stand-alone and in the pipeline *)




(** In binary64 the two routes can also part by one unit where the exact
    results agree.  For the red (255, 15, 10) the saturation computed by
    [colorsys.rgb_to_hls] is the float just above 1: the pipeline step clamps
    it to 1 before converting back, the stand-alone adjustment does not, and
    under daylight, which shifts nothing, the two truncations fall on
    different sides. *)
Example relight_binary64_rounding :
  let entry (rgb : RGB) :=
    mkPaletteColor (Some rgb) None (mkHSL 0 0 0) (mkCMYK 0 0 0 0) "Primary"%string false in
  _apply_style_mood_lighting (T := float) [(255, 15, 10)] EmptyString "neutral" "daylight"
  = Ok [(254, 15, 10)]
  /\ option_map (map pc_rgb)
       (match adjust_for_lighting (T := float) [entry (255, 15, 10)] "daylight" with
        | Ok relit => Some relit | Err _ => None end)
     = Some [Some (255, 14, 9)]
  /\ _apply_style_mood_lighting (T := Q) [(255, 15, 10)] EmptyString "neutral" "daylight"
     = Ok [(255, 15, 10)]
  /\ option_map (map pc_rgb)
       (match adjust_for_lighting (T := Q) [entry (255, 15, 10)] "daylight" with
        | Ok relit => Some relit | Err _ => None end)
     = Some [Some (255, 15, 10)].
Proof. vm_compute. repeat split; reflexivity. Qed.

(** ** C4 and C5: the harmony schemes *)

(** C4.  Whatever the seed and whatever the arithmetic, the harmony generator
    returns five colours for each of the five scheme names and the empty list
    for every other name. *)
Theorem harmony_five_or_none :
  forall (T : Type) (N : PyNum T) (h s l : T) (harmony_type : string),
    if existsb (String.eqb harmony_type) known_schemes
    then List.length (_generate_harmony_colors h s l harmony_type) = 5%nat
    else _generate_harmony_colors h s l harmony_type = [].
Proof.
  intros T N h s l name.
  unfold _generate_harmony_colors, known_schemes; cbn [existsb].
  repeat
    match goal with
    | |- context [String.eqb name ?k] => destruct (String.eqb name k); cbn [orb]
    end; reflexivity.
Qed.


(** The run quoted with C5: hue 0, saturation 1, lightness 0.5, as CPython
    computes it.  The second colour is the conversion of hue 180 at
    saturation 0.8, and reads back as hue 180, saturation 80 percent. *)
Example complementary_red_binary64 :
  _generate_harmony_colors (T := float) 0%float 1%float 0.5%float "complementary"
  = [(255, 0, 0); (25, 229, 229); (201, 155, 155); (155, 201, 201); (209, 198, 198)]
  /\ _hsl_to_rgb (T := float) 180%float (dec 8 10) 0.5%float = (25, 229, 229)
  /\ _rgb_to_hsl (T := float) (25, 229, 229) = Ok (mkHSL 180 80 49).
Proof. vm_compute. repeat split; reflexivity. Qed.

(** ** C6: seed selection *)

(** C6.  Seed selection returns the colours whose saturation and lightness
    fractions lie in the closed ranges of the style, or the first three
    colours when none does; a name that is not a style selects under the
    scandinavian ranges.  In exact arithmetic this holds for every input, in
    binary64 for every input whose percentages lie between 0 and 100. *)
Theorem select_style_colors_spec :
  (forall (dominant_colors : list (DominantColor Q)) (style : string),
     _select_style_colors dominant_colors style = select_spec dominant_colors style)
  /\ (forall (dominant_colors : list (DominantColor float)) (style : string),
        Forall percent_ok dominant_colors ->
        _select_style_colors dominant_colors style = select_spec dominant_colors style)
  /\ (forall style : string,
        ~ In style ["japandi"; "scandinavian"; "minimalist"; "industrial";
                    "mediterranean"]%string ->
        style_ranges style = style_ranges "scandinavian").
Proof.
  split; [| split].
  - intros dcs style. apply select_by_ranges. intros c _. unfold qualifies.
    destruct (ranges_exact style (hsl_s (dc_hsl c))) as [-> _].
    destruct (ranges_exact style (hsl_l (dc_hsl c))) as [_ ->]. reflexivity.
  - intros dcs style Hok. apply select_by_ranges. intros c Hc. unfold qualifies.
    rewrite Forall_forall in Hok. destruct (Hok c Hc) as [Hs Hl].
    destruct (ranges_binary64 style (hsl_s (dc_hsl c)) Hs) as [-> _].
    destruct (ranges_binary64 style (hsl_l (dc_hsl c)) Hl) as [_ ->]. reflexivity.
  - intros style Hnot. unfold style_ranges.
    repeat match goal with
           | |- context [String.eqb style ?k] =>
               destruct (String.eqb_spec style k) as [-> | _];
               [exfalso; apply Hnot; cbn; auto 8 |]
           end.
    reflexivity.
Qed.

(** The example of the specification, under binary64: saturation 50 percent
    lies outside the scandinavian range, saturation 20 and lightness 85
    percent lie inside. *)
Lemma select_style_colors_spec_witness :
  let excluded : DominantColor float :=
    mkDominantColor (217, 191, 140) "#d9bf8c"%string (mkHSL 40 50 80)
                    (mkCMYK 0 12 35 14) 0.75%float 1 in
  let included : DominantColor float :=
    mkDominantColor (224, 209, 209) "#e0d1d1"%string (mkHSL 0 20 85)
                    (mkCMYK 0 6 6 12) 0.25%float 2 in
  Forall percent_ok [excluded; included]
  /\ _select_style_colors [excluded; included] "scandinavian"%string
     = [(224, 209, 209)].
Proof.
  intros excluded included.
  assert (Hok : Forall percent_ok [excluded; included]).
  { repeat constructor; cbn; lia. }
  split; [exact Hok |].
  rewrite (proj1 (proj2 select_style_colors_spec) [excluded; included]
             "scandinavian"%string Hok).
  reflexivity.
Defined.

(** ** C7: the filter of extreme pixels *)

(** C7.  In exact arithmetic the filter keeps the pixels whose mean channel
    brightness is strictly greater than 30 and strictly less than 225, and
    returns all the pixels instead when those kept are fewer than ten percent
    of them. *)
Theorem filter_extreme_colors_spec : forall pixels : list RGB,
  ColorProcessor._filter_extreme_colors (T := Q) pixels = filter_spec pixels.
Proof.
  intro pixels.
  unfold ColorProcessor._filter_extreme_colors, ColorProcessor._filter_extreme_colors_with,
    filter_spec.
  rewrite (filter_ext _ _ (mask_exact 30 225)).
  set (kept := filter (strictly_between 30 225) pixels).
  unfold too_few, dec; qnum.
  rewrite (qltb_ext _ (inject_Z (Z.of_nat (List.length kept)))
                    _ ((1 # 10) * inject_Z (Z.of_nat (List.length pixels))));
    [reflexivity | reflexivity |].
  unfold Qeq, Qdiv, Qmult, Qinv, inject_Z; cbn [Qnum Qden]. lia.
Qed.

(** A run on thirty pixels: the three mid-grey ones are exactly ten percent
    and are kept; with one pixel more they fall below ten percent and every
    pixel is returned.  Binary64 computes the same. *)
Example filter_extreme_colors_runs :
  let dark := repeat ((10, 10, 10) : RGB) 27 in
  let grey := repeat ((128, 128, 128) : RGB) 3 in
  ColorProcessor._filter_extreme_colors (T := Q) (dark ++ grey) = grey
  /\ ColorProcessor._filter_extreme_colors (T := float) (dark ++ grey) = grey
  /\ ColorProcessor._filter_extreme_colors (T := Q) ((30, 30, 30) :: dark ++ grey)
     = (30, 30, 30) :: dark ++ grey
  /\ ColorProcessor._filter_extreme_colors (T := float) ((30, 30, 30) :: dark ++ grey)
     = (30, 30, 30) :: dark ++ grey.
Proof. vm_compute. repeat split; reflexivity. Qed.

(** ** C8: palette assembly *)

(** C8.  Palette assembly of [N] colours of the data model returns, in exact
    arithmetic and in binary64 alike, [N] entries in the order of the colours;
    the entry at position [i] carries the role Primary, Secondary, Accent,
    Neutral, Background for [i] from 0 to 4 and [Color {i+1}] from 5 on, and
    no entry is locked. *)
Theorem assign_color_roles_spec : forall colors : list RGB,
  Forall rgb_ok colors ->
  (exists palette,
     _assign_color_roles (T := Q) colors = Ok palette
     /\ assembled (T := Q) colors palette)
  /\ (exists palette,
        _assign_color_roles (T := float) colors = Ok palette
        /\ assembled (T := float) colors palette).
Proof.
  intros colors Hok. split; apply assign_color_roles_assembled;
    (eapply Forall_impl; [| exact Hok]); intros rgb Hrgb.
  - exact (converters_defined_exact rgb Hrgb).
  - exact (converters_defined_binary64 rgb Hrgb).
Qed.

(** Seven colours: the roles of the specification's example. *)
Lemma assign_color_roles_spec_witness :
  let colors : list RGB :=
    [(200, 100, 50); (0, 0, 0); (255, 255, 255); (12, 34, 56); (1, 2, 3);
     (90, 90, 90); (255, 0, 4)] in
  Forall rgb_ok colors
  /\ (exists palette,
        _assign_color_roles (T := float) colors = Ok palette
        /\ map pc_role palette
           = ["Primary"; "Secondary"; "Accent"; "Neutral"; "Background";
              "Color 6"; "Color 7"]%string).
Proof.
  intro colors.
  assert (Hok : Forall rgb_ok colors).
  { unfold colors. repeat constructor; unfold channel_ok; lia. }
  split; [exact Hok |].
  destruct (proj2 (assign_color_roles_spec colors Hok)) as (palette & Hp & Ha).
  exists palette. split; [exact Hp |].
  destruct Ha as (_ & _ & _ & _ & _ & Hrole & _). exact Hrole.
Defined.

(** ** C9: CMYK *)

(** C9.  [_rgb_to_cmyk] returns on every colour with channels in
    [[0, 255]], in exact arithmetic and in binary64: a colour whose largest
    channel is 0 takes the special case and yields (0, 0, 0, 100), every other
    colour divides by [1 - k], which is not zero.  Black yields
    (0, 0, 0, 100) and white (0, 0, 0, 0). *)
Theorem rgb_to_cmyk_total :
  (forall rgb : RGB, rgb_ok rgb ->
     (exists cmyk, ColorProcessor._rgb_to_cmyk (T := Q) rgb = Ok cmyk
        /\ (let '(r, g, b) := rgb in
            Z.max (Z.max r g) b = 0 -> cmyk = mkCMYK 0 0 0 100))
     /\ (exists cmyk, ColorProcessor._rgb_to_cmyk (T := float) rgb = Ok cmyk))
  /\ ColorProcessor._rgb_to_cmyk (T := Q) (0, 0, 0) = Ok (mkCMYK 0 0 0 100)
  /\ ColorProcessor._rgb_to_cmyk (T := Q) (255, 255, 255) = Ok (mkCMYK 0 0 0 0)
  /\ ColorProcessor._rgb_to_cmyk (T := float) (0, 0, 0) = Ok (mkCMYK 0 0 0 100)
  /\ ColorProcessor._rgb_to_cmyk (T := float) (255, 255, 255) = Ok (mkCMYK 0 0 0 0).
Proof.
  split; [| repeat split; vm_compute; reflexivity].
  intros [[r g] b] Hok. split.
  - destruct Hok as (Hr & Hg & Hb). exact (rgb_to_cmyk_exact r g b Hr Hg Hb).
  - exact (proj2 (converters_defined_binary64 (r, g, b) Hok)).
Qed.

Lemma rgb_to_cmyk_total_witness :
  rgb_ok (200, 100, 50)
  /\ exists cmyk, ColorProcessor._rgb_to_cmyk (T := float) (200, 100, 50) = Ok cmyk.
Proof.
  assert (Hok : rgb_ok (200, 100, 50)) by (repeat split; lia).
  split; [exact Hok |].
  exact (proj2 (proj1 rgb_to_cmyk_total (200, 100, 50) Hok)).
Defined.

(** ** C10: an empty list of dominant colours *)

(** C10.  [generate_palette] does not raise on an empty list of dominant
    colours: it returns a palette without colours that carries the generated
    name, the style, mood and lighting it was given and the time stamp, while
    [generate_harmony_palette] raises [ValueError] on an empty list. *)
Theorem generate_palette_empty :
  forall (T : Type) (N : PyNum T) (g : Rng) (now harmony_type style mood lighting : string),
    generate_palette (T := T) g now [] style mood lighting
    = Ok (mkPalette (fst (_generate_palette_name g [] mood style)) []
                    None style mood lighting now,
          snd (_generate_palette_name g [] mood style))
    /\ generate_harmony_palette (T := T) g now [] harmony_type style mood lighting
       = Err (ValueError "No base colors provided").
Proof.
  intros T N g now harmony_type style mood lighting. split.
  - unfold generate_palette, _select_style_colors, _apply_style_mood_lighting,
      _assign_color_roles.
    cbn [filter map firstn map_res assign_from bind].
    destruct (_generate_palette_name g [] mood style) as [palette_name g']; reflexivity.
  - reflexivity.
Qed.

(** * Further properties *)

(** ** Which colours [rgb_to_hls] converts *)

Lemma q255_sum : forall a b, (q255 a + q255 b == inject_Z (a + b) * (1 # 255))%Q.
Proof.
  intros a b. rewrite inject_Z_plus. unfold q255. change (inject_Z 255) with 255%Q. field.
Qed.

Lemma hls_defined_exact : forall M m,
  hls_defined (q255 M) (q255 m)
  = (m =? M) || negb ((M + m =? 0) || (M + m =? 510)).
Proof.
  intros M m. unfold hls_defined, dec; qnum.
  rewrite qeqb_q255.
  destruct (m =? M) eqn:E; [reflexivity | cbn [orb]].
  apply Z.eqb_neq in E.
  assert (Hr : Qeq_bool (q255 M - q255 m) (inject_Z 0) = false).
  { apply qeqb_false. intro Hq. apply E. symmetry. apply q255_eq.
    change (inject_Z 0) with 0%Q in Hq. lra. }
  rewrite Hr. cbn [negb andb]. f_equal.
  pose proof (q255_sum M m) as Hs.
  assert (Hz : (inject_Z (M + m) == q255 M * 255 + q255 m * 255)%Q).
  { rewrite inject_Z_plus. unfold q255. change (inject_Z 255) with 255%Q. field. }
  set (a := q255 M) in *. set (b := q255 m) in *. clearbody a b.
  change (inject_Z 5 / inject_Z 10)%Q with (5 # 10)%Q.
  change (inject_Z 2) with 2%Q. change (inject_Z 0) with 0%Q.
  assert (E2 : ((a + b) / 2 == (a + b) * (1 # 2))%Q) by field.
  destruct (Qle_bool ((a + b) / 2) (5 # 10)) eqn:El.
  - apply Qle_bool_iff in El. rewrite E2 in El.
    assert (H510 : (M + m =? 510) = false).
    { apply Z.eqb_neq. intro H5. rewrite H5 in Hz. 
      change (inject_Z 510) with 510%Q in Hz. lra. }
    rewrite H510, orb_false_r.
    apply eq_iff_eq_true. rewrite Qeq_bool_iff, Z.eqb_eq. split; intro Hx.
    + assert (Hq : (inject_Z (M + m) == inject_Z 0)%Q) by (change (inject_Z 0) with 0%Q; lra).
      exact (proj1 (inject_Z_injective _ _) Hq).
    + rewrite Hx in Hz. change (inject_Z 0) with 0%Q in Hz. lra.
  - apply qleb_false in El. rewrite E2 in El.
    assert (H0 : (M + m =? 0) = false).
    { apply Z.eqb_neq. intro H5. rewrite H5 in Hz. 
      change (inject_Z 0) with 0%Q in Hz. lra. }
    rewrite H0, orb_false_l.
    apply eq_iff_eq_true. rewrite Qeq_bool_iff, Z.eqb_eq. split; intro Hx.
    + assert (Hq : (inject_Z (M + m) == inject_Z 510)%Q) by (change (inject_Z 510) with 510%Q; lra).
      exact (proj1 (inject_Z_injective _ _) Hq).
    + rewrite Hx in Hz. change (inject_Z 510) with 510%Q in Hz. lra.
Qed.

Lemma rgb_to_hls_undefined : forall (T : Type) (N : PyNum T) (r g b : T),
  hls_defined (max3 r g b) (min3 r g b) = false ->
  colorsys.rgb_to_hls r g b = Err ZeroDivisionError.
Proof.
  intros T N r g b Hd. unfold colorsys.rgb_to_hls, pydiv. unfold hls_defined in Hd.
  destruct (min3 r g b ==? max3 r g b)%py; [discriminate |].
  cbn [orb] in Hd. apply andb_false_iff in Hd.
  destruct ((max3 r g b + min3 r g b) / ofZ 2 <=? dec 5 10)%py.
  - destruct ((max3 r g b + min3 r g b) ==? ofZ 0)%py; [reflexivity | cbn [bind]].
    destruct Hd as [Hd | Hd]; [| discriminate].
    apply negb_false_iff in Hd. rewrite Hd. reflexivity.
  - destruct ((ofZ 2 - (max3 r g b + min3 r g b)) ==? ofZ 0)%py; [reflexivity | cbn [bind]].
    destruct Hd as [Hd | Hd]; [| discriminate].
    apply negb_false_iff in Hd. rewrite Hd. reflexivity.
Qed.

(** [rgb_to_hls] on the three channels over 255, for any three integers. *)
Lemma rgb_to_hls_raises : forall r g b : Z,
  if divides_by_zero (r, g, b)
  then colorsys.rgb_to_hls (q255 r) (q255 g) (q255 b) = Err ZeroDivisionError
  else exists hls, colorsys.rgb_to_hls (q255 r) (q255 g) (q255 b) = Ok hls.
Proof.
  intros r g b.
  pose proof (hls_defined_exact (Z.max (Z.max r g) b) (Z.min (Z.min r g) b)) as Hd.
  rewrite <- max3_q255, <- min3_q255 in Hd.
  unfold divides_by_zero, max_channel, min_channel.
  destruct (Z.min (Z.min r g) b =? Z.max (Z.max r g) b); cbn [negb andb orb] in *.
  - apply rgb_to_hls_defined. exact Hd.
  - destruct ((_ =? 0) || (_ =? 510)); cbn [negb] in Hd.
    + apply rgb_to_hls_undefined. exact Hd.
    + apply rgb_to_hls_defined. exact Hd.
Qed.

Lemma in_range_divides : forall rgb, rgb_ok rgb -> divides_by_zero rgb = false.
Proof.
  intros [[r g] b] (Hr & Hg & Hb). unfold channel_ok in *.
  unfold divides_by_zero, max_channel, min_channel.
  destruct (Z.eqb_spec (Z.min (Z.min r g) b) (Z.max (Z.max r g) b)) as [E | E];
    [reflexivity | cbn [negb andb]].
  apply orb_false_iff. split; apply Z.eqb_neq; lia.
Qed.

(** ** The pipeline step clamps *)

(** The loop body of [_apply_style_mood_lighting]: whatever the integers it
    is given, it raises where [rgb_to_hls] divides by zero and returns a
    colour of the data model anywhere else. *)
Lemma adjust_one_spec : forall (mood_adj lighting_adj : Q * Q) (rgb : RGB),
  if divides_by_zero rgb
  then adjust_one mood_adj lighting_adj rgb = Err ZeroDivisionError
  else exists out, adjust_one mood_adj lighting_adj rgb = Ok out /\ rgb_ok out.
Proof.
  intros mood_adj lighting_adj [[r g] b].
  pose proof (rgb_to_hls_raises r g b) as Hh.
  unfold adjust_one.
  change (@div Q QNum (ofZ r) (ofZ 255)) with (q255 r).
  change (@div Q QNum (ofZ g) (ofZ 255)) with (q255 g).
  change (@div Q QNum (ofZ b) (ofZ 255)) with (q255 b).
  destruct (divides_by_zero (r, g, b)).
  - rewrite Hh. reflexivity.
  - destruct Hh as [[[h l] s] Hh]. rewrite Hh. cbn [bind].
    set (s' := clamp01 (s + fst mood_adj)%py).
    set (l' := clamp01 (clamp01 (l + snd mood_adj)%py + snd lighting_adj)%py).
    match goal with |- context [colorsys.hls_to_rgb ?hh l' s'] => set (h' := hh) end.
    destruct (clamp01_unit (s + fst mood_adj)%py) as (Hs0 & Hs1 & _).
    destruct (clamp01_unit (clamp01 (l + snd mood_adj)%py + snd lighting_adj)%py)
      as (Hl0 & Hl1 & _).
    pose proof (hls_to_rgb_unit h' l' s' Hs0 Hs1 Hl0 Hl1) as Hu.
    destruct (colorsys.hls_to_rgb h' l' s') as [[r1 g1] b1].
    destruct Hu as ([? ?] & [? ?] & [? ?]).
    eexists. split; [reflexivity |].
    unfold rgb_ok. repeat split; apply qtrunc_unit_255; assumption.
Qed.

Lemma map_res_ok : forall (A B : Type) (f : A -> Res B) (P : B -> Prop) (xs : list A),
  Forall (fun x => exists y, f x = Ok y /\ P y) xs ->
  exists ys, map_res f xs = Ok ys /\ List.length ys = List.length xs /\ Forall P ys.
Proof.
  intros A B f P xs Hall. induction Hall as [| x rest (y & Hy & Py) _ IH].
  - exists []. repeat split. constructor.
  - destruct IH as (ys & Hys & Hlen & HP). exists (y :: ys).
    cbn [map_res]. rewrite Hy. cbn [bind]. rewrite Hys. cbn [bind].
    repeat split; [cbn; congruence | constructor; assumption].
Qed.


Lemma apply_style_mood_lighting_ok : forall (colors : list RGB) (style mood lighting : string),
  Forall (fun rgb => divides_by_zero rgb = false) colors ->
  exists adjusted,
    _apply_style_mood_lighting (T := Q) colors style mood lighting = Ok adjusted
    /\ List.length adjusted = List.length colors
    /\ Forall rgb_ok adjusted.
Proof.
  intros colors style mood lighting Hall. unfold _apply_style_mood_lighting.
  apply map_res_ok. eapply Forall_impl; [| exact Hall].
  intros rgb Hrgb. cbv beta in Hrgb.
  pose proof (adjust_one_spec (dict_get mood mood_adjustments (ofZ 0, ofZ 0))
                (dict_get lighting lighting_adjustments (ofZ 0, ofZ 0)) rgb) as Ha.
  rewrite Hrgb in Ha. exact Ha.
Qed.



(** ** The harmony colours, however light the seed *)

Lemma qtrunc_at_least_255 : forall x : Q,
  (1 <= x)%Q -> 255 <= ExactQ.qtrunc (x * inject_Z 255).
Proof.
  intros x Hx.
  assert (Hy : (255 <= x * inject_Z 255)%Q) by (change (inject_Z 255) with 255%Q; lra).
  rewrite qtrunc_floor by lra.
  exact (Qfloor_resp_le 255 _ Hy).
Qed.

(** A lightness of 1 or more gives channels of 255 or more. *)
Lemma hsl_to_rgb_bright : forall h s l : Q,
  (0 <= s)%Q -> (s <= 1)%Q -> (1 <= l)%Q ->
  let '(r, g, b) := _hsl_to_rgb h s l in 255 <= r /\ 255 <= g /\ 255 <= b.
Proof.
  intros h s l Hs0 Hs1 Hl. unfold _hsl_to_rgb.
  pose proof (hls_to_rgb_wave (h / ofZ 360)%py l s) as Hw.
  set (h' := (h / ofZ 360)%py) in *. clearbody h'.
  assert (Hm : (1 <= back_m1 l s)%Q /\ (1 <= back_m2 l s)%Q).
  { unfold back_m1, back_m2.
    change (inject_Z 5 / inject_Z 10)%Q with (5 # 10)%Q.
    change (inject_Z 1) with 1%Q. change (inject_Z 2) with 2%Q.
    assert (P1 : (0 <= (l - 1) * (1 - s))%Q) by (apply Qmult_le_0_compat; lra).
    assert (P2 : (0 <= (l - 1) * s)%Q) by (apply Qmult_le_0_compat; lra).
    destruct (Qle_bool l (5 # 10)) eqn:E.
    - apply Qle_bool_iff in E. lra.
    - split; lra. }
  destruct Hm as [Hm1 Hm2].
  set (m1 := back_m1 l s) in *. set (m2 := back_m2 l s) in *. clearbody m1 m2.
  assert (Hv : forall w, (0 <= w)%Q -> (w <= 1)%Q -> (1 <= m1 + (m2 - m1) * w)%Q).
  { intros w H0 H1.
    assert (P1 : (0 <= (1 - w) * (m1 - 1))%Q) by (apply Qmult_le_0_compat; lra).
    assert (P2 : (0 <= w * (m2 - 1))%Q) by (apply Qmult_le_0_compat; lra).
    lra. }
  destruct (colorsys.hls_to_rgb h' l s) as [[r g] b].
  cbv [qeq3] in Hw. destruct Hw as (Er & Eg & Eb).
  change (@int_ Q QNum) with ExactQ.qtrunc.
  change (@mul Q QNum) with Qmult. change (@ofZ Q QNum 255) with (inject_Z 255).
  repeat split; apply qtrunc_at_least_255.
  - rewrite Er. apply Hv; apply wave_unit.
  - rewrite Eg. apply Hv; apply wave_unit.
  - rewrite Eb. apply Hv; apply wave_unit.
Qed.

(** No harmony colour is one on which [rgb_to_hls] divides by zero. *)
Lemma hsl_to_rgb_converts : forall h s l : Q,
  (0 <= s)%Q -> (s <= 1)%Q -> (0 <= l)%Q ->
  divides_by_zero (_hsl_to_rgb h s l) = false.
Proof.
  intros h s l Hs0 Hs1 Hl0.
  destruct (Qlt_le_dec l 1) as [Hlt | Hge].
  - apply in_range_divides. apply hsl_to_rgb_ok; lra.
  - pose proof (hsl_to_rgb_bright h s l Hs0 Hs1 Hge) as Hb.
    destruct (_hsl_to_rgb h s l) as [[r g] b]. destruct Hb as (Hr & Hg & Hb).
    unfold divides_by_zero, max_channel, min_channel.
    destruct (Z.eqb_spec (Z.min (Z.min r g) b) (Z.max (Z.max r g) b)) as [E | E];
      [reflexivity | cbn [negb andb]].
    apply orb_false_iff. split; apply Z.eqb_neq; lia.
Qed.

Lemma harmony_colors_convert : forall (h s l : Q) (harmony_type : string),
  (0 <= s)%Q -> (s <= 1)%Q -> (0 <= l)%Q ->
  Forall (fun rgb => divides_by_zero rgb = false)
         (_generate_harmony_colors h s l harmony_type).
Proof.
  intros h s l name Hs0 Hs1 Hl0.
  unfold _generate_harmony_colors, dec; qnum.
  repeat match goal with
         | |- context [String.eqb name ?k] => destruct (String.eqb name k)
         end;
    repeat (apply Forall_cons || apply Forall_nil);
    apply hsl_to_rgb_converts;
    qfrac; lra.
Qed.

(** ** Seed selection never comes back empty-handed *)

Lemma in_firstn : forall (A : Type) (n : nat) (xs : list A) (x : A),
  In x (firstn n xs) -> In x xs.
Proof.
  intros A n xs x Hin. rewrite <- (firstn_skipn n xs). apply in_or_app. left. exact Hin.
Qed.

Lemma select_style_colors_incl :
  forall (T : Type) (N : PyNum T) (dominant_colors : list (DominantColor T)) (style : string),
    incl (_select_style_colors dominant_colors style) (map dc_rgb dominant_colors)
    /\ (dominant_colors <> [] -> _select_style_colors dominant_colors style <> []).
Proof.
  intros T N dominant_colors style. unfold _select_style_colors.
  set (rule := dict_get style style_rules scandinavian). clearbody rule.
  destruct (map dc_rgb (filter (fits_style rule) dominant_colors)) as [| x xs] eqn:E.
  - split.
    + intros rgb Hin. apply in_map_iff in Hin. destruct Hin as (c & <- & Hc).
      apply in_map. exact (in_firstn _ 3 _ _ Hc).
    + intros Hne. destruct dominant_colors as [| c rest]; [congruence |].
      cbn. discriminate.
  - split; [| intros _; discriminate].
    rewrite <- E. intros rgb Hin. apply in_map_iff in Hin.
    destruct Hin as (c & <- & Hc). apply in_map. apply filter_In in Hc. tauto.
Qed.

(** ** The palette generators return a palette of colours in range *)

Lemma seed_of_unit : forall rgb,
  rgb_ok rgb ->
  exists h l s,
    seed_of (T := Q) rgb = Ok (h, l, s)
    /\ (0 <= l)%Q /\ (l <= 1)%Q /\ (0 <= s)%Q /\ (s <= 1)%Q.
Proof.
  intros [[r g] b] (Hr & Hg & Hb). unfold seed_of.
  change (@div Q QNum (ofZ r) (ofZ 255)) with (q255 r).
  change (@div Q QNum (ofZ g) (ofZ 255)) with (q255 g).
  change (@div Q QNum (ofZ b) (ofZ 255)) with (q255 b).
  destruct (rgb_to_hls_unit r g b Hr Hg Hb) as (h & l & s & Hh & Hl0 & Hl1 & Hs0 & Hs1).
  rewrite Hh. cbn [bind]. do 3 eexists. split; [reflexivity |]. repeat split; assumption.
Qed.

Lemma roles_of_assembled : forall (colors : list RGB) (palette : list PaletteColor),
  assembled (T := Q) colors palette -> Forall rgb_ok colors ->
  Forall entry_ok palette
  /\ map pc_rgb palette = map Some colors
  /\ map pc_role palette = map role_at (seq 0 (List.length colors)).
Proof.
  intros colors palette (Hlen & Hrgb & Hhex & Hhsl & Hcmyk & Hrole & _) Hok.
  split; [| split; [exact Hrgb |]].
  - clear Hrole. revert palette Hlen Hrgb Hhex Hhsl Hcmyk.
    induction Hok as [| rgb rest Hr _ IH]; intros [| c palette] Hlen Hrgb Hhex Hhsl Hcmyk;
      try discriminate; constructor.
    + cbn [map] in *. exists rgb.
      inversion Hrgb. inversion Hhex. inversion Hhsl. inversion Hcmyk.
      repeat split; auto.
    + cbn [map] in *. inversion Hrgb. inversion Hhex. inversion Hhsl. inversion Hcmyk.
      apply IH; auto.
  - rewrite Hrole. apply map_ext. intro i. symmetry. apply role_at_name.
Qed.

(** From the harmony colours to the palette: the last three steps of both
    generators. *)
Lemma finish_palette : forall (colors : list RGB) (style mood lighting : string),
  Forall (fun rgb => divides_by_zero rgb = false) colors ->
  exists adjusted final_palette,
    _apply_style_mood_lighting (T := Q) colors style mood lighting = Ok adjusted
    /\ _assign_color_roles (T := Q) adjusted = Ok final_palette
    /\ Forall entry_ok final_palette
    /\ map pc_rgb final_palette = map Some adjusted
    /\ map pc_role final_palette = map role_at (seq 0 (List.length colors)).
Proof.
  intros colors style mood lighting Hall.
  destruct (apply_style_mood_lighting_ok colors style mood lighting Hall)
    as (adjusted & Ha & Hlen & Hok).
  assert (Hconv : Forall (convertible (T := Q)) adjusted).
  { eapply Forall_impl; [| exact Hok]. intros rgb Hrgb.
    exact (converters_defined_exact rgb Hrgb). }
  destruct (assign_color_roles_assembled adjusted Hconv) as (palette & Hp & Hasm).
  destruct (roles_of_assembled adjusted palette Hasm Hok) as (He & Hrgb & Hrole).
  exists adjusted, palette. rewrite Hlen in Hrole. repeat split; assumption.
Qed.

Lemma harmony_colors_count : forall (h s l : Q) (harmony_type : string),
  List.length (_generate_harmony_colors h s l harmony_type)
  = if existsb (String.eqb harmony_type) known_schemes then 5%nat else 0%nat.
Proof.
  intros h s l name. unfold _generate_harmony_colors, known_schemes. cbn [existsb].
  repeat match goal with
         | |- context [String.eqb name ?k] => destruct (String.eqb name k)
         end; reflexivity.
Qed.

(** ** The generators on colours in range *)

Lemma harmony_palette_ok :
  forall (g : Rng) (now : string) (primary_color : BaseColor) (rest : list BaseColor)
         (harmony_type style mood lighting : string),
    rgb_ok (seed_rgb primary_color) ->
    exists (palette : Palette) (g' : Rng),
      generate_harmony_palette (T := Q) g now (primary_color :: rest)
                               harmony_type style mood lighting
      = Ok (palette, g')
      /\ List.length (p_colors palette)
         = (if existsb (String.eqb harmony_type) known_schemes then 5%nat else 0%nat)
      /\ Forall entry_ok (p_colors palette)
      /\ map pc_role (p_colors palette)
         = firstn (List.length (p_colors palette)) roles
      /\ p_harmony_type palette = Some harmony_type
      /\ p_style palette = style /\ p_mood palette = mood
      /\ p_lighting palette = lighting /\ p_created_at palette = now.
Proof.
  intros g now primary_color rest harmony_type style mood lighting Hok.
  unfold generate_harmony_palette.
  change (match primary_color with
          | Triple rgb => rgb
          | Dict (Some rgb) => rgb
          | Dict None => (128, 128, 128)
          end) with (seed_rgb primary_color).
  destruct (seed_of_unit _ Hok) as (h & l & s & Hseed & Hl0 & Hl1 & Hs0 & Hs1).
  rewrite Hseed. cbn [bind].
  pose proof (harmony_colors_convert h s l harmony_type Hs0 Hs1 Hl0) as Hconv.
  pose proof (harmony_colors_count h s l harmony_type) as Hcount.
  destruct (finish_palette _ style mood lighting Hconv)
    as (adjusted & final_palette & Ha & Hf & Hentries & Hrgb & Hroles).
  rewrite Ha. cbn [bind]. rewrite Hf. cbn [bind].
  destruct (_generate_palette_name g final_palette mood style) as [palette_name g'].
  eexists. eexists. split; [reflexivity |]. cbn [p_colors p_harmony_type p_style p_mood
                                                   p_lighting p_created_at].
  assert (Hlen : List.length final_palette
                 = List.length (_generate_harmony_colors h s l harmony_type)).
  { rewrite <- (length_map pc_role final_palette), Hroles, length_map, length_seq.
    reflexivity. }
  repeat split; try assumption.
  - rewrite Hlen. exact Hcount.
  - rewrite Hroles, Hlen, Hcount.
    destruct (existsb (String.eqb harmony_type) known_schemes); reflexivity.
Qed.


Lemma relight_one_range : forall (lighting_adj : Q * Q) (c : PaletteColor),
  rgb_ok (rgb_or_default c) ->
  exists out, relight_one lighting_adj c = Ok (with_rgb c out) /\ rgb_ok out.
Proof.
  intros lighting_adj c Hok. unfold relight_one, rgb_or_default in *.
  destruct (match pc_rgb c with Some rgb => rgb | None => (128, 128, 128) end)
    as [[r g] b].
  pose proof Hok as (Hr & Hg & Hb).
  change (@div Q QNum (ofZ r) (ofZ 255)) with (q255 r).
  change (@div Q QNum (ofZ g) (ofZ 255)) with (q255 g).
  change (@div Q QNum (ofZ b) (ofZ 255)) with (q255 b).
  destruct (rgb_to_hls_unit r g b Hr Hg Hb) as (h & l & s & Hh & Hl0 & Hl1 & Hs0 & Hs1).
  rewrite Hh. cbn [bind].
  destruct (clamp01_unit (l + snd lighting_adj)%py) as (Hc0 & Hc1 & _).
  match goal with |- context [colorsys.hls_to_rgb ?hh _ s] => set (h' := hh) end.
  pose proof (hls_to_rgb_unit h' _ s Hs0 Hs1 Hc0 Hc1) as Hu.
  destruct (colorsys.hls_to_rgb h' _ s) as [[r1 g1] b1].
  destruct Hu as ([? ?] & [? ?] & [? ?]).
  eexists. split; [reflexivity |].
  unfold rgb_ok. repeat split; apply qtrunc_unit_255; assumption.
Qed.

Lemma adjust_for_lighting_ok :
  forall (colors : list PaletteColor) (lighting_type : string),
    Forall (fun c => rgb_ok (rgb_or_default c)) colors ->
    exists adjusted_rgbs : list RGB,
      adjust_for_lighting (T := Q) colors lighting_type
      = Ok (map (fun '(c, rgb) => with_rgb c rgb) (combine colors adjusted_rgbs))
      /\ List.length adjusted_rgbs = List.length colors
      /\ Forall rgb_ok adjusted_rgbs.
Proof.
  intros colors lighting_type Hall. unfold adjust_for_lighting.
  set (lighting_adj := dict_get lighting_type lighting_adjustments (ofZ 0, ofZ 0)).
  clearbody lighting_adj.
  induction Hall as [| c rest Hc _ IH].
  - exists []. repeat split. constructor.
  - destruct IH as (outs & Hrest & Hlen & Hok).
    destruct (relight_one_range lighting_adj c Hc) as (out & Ho & Hout).
    exists (out :: outs). cbn [map_res]. rewrite Ho. cbn [bind]. rewrite Hrest. cbn [bind].
    repeat split; [cbn; congruence | constructor; assumption].
Qed.

Lemma palette_ok :
  forall (g : Rng) (now : string) (dominant_colors : list (DominantColor Q))
         (style mood lighting : string),
    dominant_colors <> [] ->
    Forall (fun c => rgb_ok (dc_rgb c)) dominant_colors ->
    exists (palette : Palette) (g' : Rng),
      generate_palette (T := Q) g now dominant_colors style mood lighting = Ok (palette, g')
      /\ Forall entry_ok (p_colors palette)
      /\ map pc_role (p_colors palette) = roles
      /\ p_harmony_type palette = None
      /\ p_style palette = style /\ p_mood palette = mood
      /\ p_lighting palette = lighting /\ p_created_at palette = now.
Proof.
  intros g now dominant_colors style mood lighting Hne Hall.
  unfold generate_palette.
  destruct (select_style_colors_incl Q QNum dominant_colors style) as [Hincl Hsome].
  specialize (Hsome Hne).
  destruct (_select_style_colors dominant_colors style) as [| primary_rgb others];
    [congruence |].
  assert (Hok : rgb_ok primary_rgb).
  { specialize (Hincl primary_rgb (or_introl eq_refl)).
    apply in_map_iff in Hincl. destruct Hincl as (c & <- & Hc).
    rewrite Forall_forall in Hall. exact (Hall c Hc). }
  destruct (seed_of_unit _ Hok) as (h & l & s & Hseed & Hl0 & Hl1 & Hs0 & Hs1).
  rewrite Hseed. cbn [bind].
  pose proof (harmony_colors_convert h s l "complementary" Hs0 Hs1 Hl0) as Hconv.
  destruct (finish_palette _ style mood lighting Hconv)
    as (adjusted & final_palette & Ha & Hf & Hentries & Hrgb & Hroles).
  rewrite Ha. cbn [bind]. rewrite Hf. cbn [bind].
  destruct (_generate_palette_name g final_palette mood style) as [palette_name g'].
  eexists. eexists. split; [reflexivity |]. cbn [p_colors p_harmony_type p_style p_mood
                                                   p_lighting p_created_at].
  change (map role_at (seq 0 (List.length (_generate_harmony_colors h s l "complementary"))))
    with roles in Hroles.
  repeat split; assumption.
Qed.

(** ** [hls_to_rgb] undoes [rgb_to_hls] *)

Lemma back_ends : forall M m,
  channel_ok M -> channel_ok m -> m < M ->
  (back_m2 (HlsQ.lightness M m) (HlsQ.saturation M m) == q255 M)%Q
  /\ (back_m1 (HlsQ.lightness M m) (HlsQ.saturation M m) == q255 m)%Q.
Proof.
  intros M m HM Hm Hlt.
  assert (H2 : (back_m2 (HlsQ.lightness M m) (HlsQ.saturation M m) == q255 M)%Q).
  { unfold back_m2, HlsQ.saturation, HlsQ.lightness.
    destruct (q255_unit M HM) as [? ?]. destruct (q255_unit m Hm) as [? ?].
    assert (Hab : (q255 m < q255 M)%Q) by (apply q255_lt; exact Hlt).
    set (a := q255 M) in *. set (b := q255 m) in *. clearbody a b.
    change (inject_Z 2) with 2%Q. change (inject_Z 1) with 1%Q.
    destruct (Qle_bool ((a + b) / 2) (inject_Z 5 / inject_Z 10)) eqn:E.
    - field. lra.
    - apply qleb_false in E. change (inject_Z 5 / inject_Z 10)%Q with (5 # 10)%Q in E.
      assert (E2 : ((a + b) / 2 == (a + b) * (1 # 2))%Q) by field.
      rewrite E2 in E. field. lra. }
  split; [exact H2 |].
  unfold back_m1. rewrite H2. unfold HlsQ.lightness. change (inject_Z 2) with 2%Q. field.
Qed.

Lemma byte_back : forall (c : Z) (x : Q),
  0 <= c -> (x == q255 c)%Q -> ExactQ.qtrunc (x * inject_Z 255) = c.
Proof.
  intros c x Hc Hx.
  assert (E : (x * inject_Z 255 == inject_Z c)%Q).
  { rewrite Hx. unfold q255. change (inject_Z 255) with 255%Q. field. }
  apply qtrunc_bounds; [rewrite E; apply Qle_refl | | exact Hc].
  rewrite E. rewrite <- Zlt_Qlt. lia.
Qed.

(** The colour [rgb_to_hls] was given comes back from [hls_to_rgb], also
    through a hue, a lightness and a saturation that are merely equal as
    rationals to the ones computed. *)
Lemma convert_back : forall (r g b : Z) (h l s h' l' s' : Q),
  rgb_ok (r, g, b) ->
  colorsys.rgb_to_hls (q255 r) (q255 g) (q255 b) = Ok (h, l, s) ->
  (h' == h)%Q -> (l' == l)%Q -> (s' == s)%Q ->
  to_bytes (colorsys.hls_to_rgb h' l' s') = (r, g, b).
Proof.
  intros r g b h l s h' l' s' (Hr & Hg & Hb) Hh Eh El Es.
  pose proof (hls_to_rgb_ext h' h l' l s' s Eh El Es) as Hext.
  pose proof (hls_to_rgb_wave h l s) as Hw.
  change (@colorsys.ONE_THIRD Q QNum) with (1 # 3)%Q in Hw.
  destruct (colorsys.hls_to_rgb h' l' s') as [[y1 y2] y3].
  destruct (colorsys.hls_to_rgb h l s) as [[x1 x2] x3].
  cbv [qeq3] in Hext, Hw. destruct Hext as (X1 & X2 & X3). destruct Hw as (E1 & E2 & E3).
  assert (Hgoal : (x1 == q255 r)%Q /\ (x2 == q255 g)%Q /\ (x3 == q255 b)%Q).
  { destruct (Z.eq_dec (Z.min (Z.min r g) b) (Z.max (Z.max r g) b)) as [E | E].
    - assert (r = g /\ g = b) as [-> ->] by (unfold channel_ok in *; lia).
      rewrite rgb_to_hls_gray in Hh. inversion Hh; subst h l s.
      assert (Hl : (HlsQ.lightness b b == q255 b)%Q).
      { unfold HlsQ.lightness. change (inject_Z 2) with 2%Q. field. }
      assert (H1 : (back_m1 (HlsQ.lightness b b) (inject_Z 0) == q255 b)%Q).
      { unfold back_m1, back_m2. change (inject_Z 0) with 0%Q.
        change (inject_Z 1) with 1%Q. change (inject_Z 2) with 2%Q.
        destruct (Qle_bool _ _); rewrite Hl; ring. }
      assert (H2 : (back_m2 (HlsQ.lightness b b) (inject_Z 0) == q255 b)%Q).
      { unfold back_m2. change (inject_Z 0) with 0%Q. change (inject_Z 1) with 1%Q.
        destruct (Qle_bool _ _); rewrite Hl; ring. }
      rewrite E1, E2, E3, H1, H2. repeat split; ring.
    - rewrite rgb_to_hls_colored in Hh by assumption. inversion Hh; subst h l s.
      set (M := Z.max (Z.max r g) b) in *. set (m := Z.min (Z.min r g) b) in *.
      assert (Hlt : m < M) by (unfold M, m in *; lia).
      assert (HM : channel_ok M) by (unfold channel_ok, M in *; lia).
      assert (Hm : channel_ok m) by (unfold channel_ok, m in *; lia).
      destruct (back_ends M m HM Hm Hlt) as [B2 B1].
      destruct (wave_of_hue r g b Hlt) as (Wr & Wg & Wb). fold M m in Wr, Wg, Wb.
      assert (Hp : forall c, (q255 m + (q255 M - q255 m) * place M m c == q255 c)%Q).
      { intro c. unfold place. field. intro E0.
        assert (E' : (q255 M == q255 m)%Q) by lra.
        apply -> q255_eq in E'. lia. }
      rewrite E1, E2, E3, B1, B2, Wr, Wg, Wb.
      repeat split; apply Hp. }
  destruct Hgoal as (G1 & G2 & G3).
  unfold to_bytes. unfold channel_ok in *.
  rewrite (byte_back r y1), (byte_back g y2), (byte_back b y3);
    [reflexivity | | | | | | ]; first [lia | rewrite X3; exact G3 | rewrite X2; exact G2
                                        | rewrite X1; exact G1].
Qed.

Lemma clamp01_zero : forall x : Q,
  (0 <= x)%Q -> (x <= 1)%Q -> (clamp01 (clamp01 (x + ofZ 0)%py + ofZ 0)%py == x)%Q.
Proof.
  intros x H0 H1.
  assert (E0 : (clamp01 (x + ofZ 0)%py == x)%Q).
  { destruct (clamp01_unit (x + ofZ 0)%py) as (_ & _ & Hid).
    rewrite Hid; qnum; change (inject_Z 0) with 0%Q; lra. }
  destruct (clamp01_unit (clamp01 (x + ofZ 0)%py + ofZ 0)%py) as (_ & _ & Hid).
  rewrite Hid; qnum; change (inject_Z 0) with 0%Q; rewrite ?E0; lra.
Qed.

Lemma clamp01_zero_once : forall x : Q,
  (0 <= x)%Q -> (x <= 1)%Q -> (clamp01 (x + ofZ 0)%py == x)%Q.
Proof.
  intros x H0 H1.
  destruct (clamp01_unit (x + ofZ 0)%py) as (_ & _ & Hid).
  rewrite Hid; qnum; change (inject_Z 0) with 0%Q; lra.
Qed.

(** A lighting that is neither warm nor cool shifts nothing: daylight, and
    any name the table does not hold. *)
Lemma zero_lighting : forall lighting : string,
  lighting <> "warm_light"%string -> lighting <> "cool_led"%string ->
  dict_get lighting (lighting_adjustments (T := Q)) (ofZ 0, ofZ 0) = (ofZ 0, ofZ 0).
Proof.
  intros lighting Hw Hc. unfold lighting_adjustments; cbn [dict_get].
  destruct (String.eqb lighting "daylight"); [reflexivity |].
  destruct (String.eqb_spec lighting "warm_light") as [E | _]; [contradiction |].
  destruct (String.eqb_spec lighting "cool_led") as [E | _]; [contradiction |].
  reflexivity.
Qed.

Lemma adjust_one_neutral : forall rgb : RGB,
  rgb_ok rgb -> adjust_one (T := Q) (ofZ 0, ofZ 0) (ofZ 0, ofZ 0) rgb = Ok rgb.
Proof.
  intros [[r g] b] Hok. pose proof Hok as (Hr & Hg & Hb).
  unfold adjust_one.
  change (@div Q QNum (ofZ r) (ofZ 255)) with (q255 r).
  change (@div Q QNum (ofZ g) (ofZ 255)) with (q255 g).
  change (@div Q QNum (ofZ b) (ofZ 255)) with (q255 b).
  destruct (rgb_to_hls_unit r g b Hr Hg Hb) as (h & l & s & Hh & Hl0 & Hl1 & Hs0 & Hs1).
  rewrite Hh. cbn [bind fst snd].
  change (ofZ 0 <? ofZ 0)%py with false. cbv iota.
  pose proof (convert_back r g b h l s h
                (clamp01 (clamp01 (l + ofZ 0)%py + ofZ 0)%py) (clamp01 (s + ofZ 0)%py)
                Hok Hh (Qeq_refl _) (clamp01_zero l Hl0 Hl1) (clamp01_zero_once s Hs0 Hs1))
    as Hback.
  unfold to_bytes in Hback.
  destruct (colorsys.hls_to_rgb h _ _) as [[x1 x2] x3].
  exact (f_equal Ok Hback).
Qed.

Lemma relight_one_neutral : forall c : PaletteColor,
  rgb_ok (rgb_or_default c) ->
  relight_one (T := Q) (ofZ 0, ofZ 0) c
  = Ok (mkPaletteColor (Some (rgb_or_default c)) (Some (_rgb_to_hex (rgb_or_default c)))
                       (pc_hsl c) (pc_cmyk c) (pc_role c) (pc_locked c)).
Proof.
  intros c Hok. unfold relight_one, rgb_or_default in *.
  destruct (match pc_rgb c with Some rgb => rgb | None => (128, 128, 128) end)
    as [[r g] b].
  pose proof Hok as (Hr & Hg & Hb).
  change (@div Q QNum (ofZ r) (ofZ 255)) with (q255 r).
  change (@div Q QNum (ofZ g) (ofZ 255)) with (q255 g).
  change (@div Q QNum (ofZ b) (ofZ 255)) with (q255 b).
  destruct (rgb_to_hls_unit r g b Hr Hg Hb) as (h & l & s & Hh & Hl0 & Hl1 & Hs0 & Hs1).
  rewrite Hh. cbn [bind fst snd].
  change (ofZ 0 <? ofZ 0)%py with false. cbv iota.
  pose proof (convert_back r g b h l s h (clamp01 (l + ofZ 0)%py) s
                Hok Hh (Qeq_refl _) (clamp01_zero_once l Hl0 Hl1) (Qeq_refl _))
    as Hback.
  unfold to_bytes in Hback.
  destruct (colorsys.hls_to_rgb h _ _) as [[x1 x2] x3].
  change (@int_ Q QNum) with ExactQ.qtrunc.
  change (@mul Q QNum) with Qmult. change (@ofZ Q QNum 255) with (inject_Z 255).
  rewrite Hback. reflexivity.
Qed.

(** [generate_harmony_palette] on a request that names a colour in range
    first (a triple, a dict with [rgb], or a dict without, which reads as the
    grey 128), in exact arithmetic, for every harmony name, style, mood and
    lighting: it raises nothing; the palette holds five entries for a name of
    the five schemes and none for any other name; every entry holds a colour
    with channels in [[0, 255]] together with the hex string, the HSL and the
    CMYK of that colour; the roles are the first of the list of roles, in
    order; the harmony name, style, mood and lighting are recorded as
    given. *)
Theorem generate_harmony_palette_total :
  forall (g : Rng) (now : string) (primary_color : BaseColor) (rest : list BaseColor)
         (harmony_type style mood lighting : string),
    rgb_ok (seed_rgb primary_color) ->
    exists (palette : Palette) (g' : Rng),
      generate_harmony_palette (T := Q) g now (primary_color :: rest)
                               harmony_type style mood lighting
      = Ok (palette, g')
      /\ List.length (p_colors palette)
         = (if existsb (String.eqb harmony_type) known_schemes then 5%nat else 0%nat)
      /\ Forall entry_ok (p_colors palette)
      /\ map pc_role (p_colors palette)
         = firstn (List.length (p_colors palette)) roles
      /\ p_harmony_type palette = Some harmony_type
      /\ p_style palette = style /\ p_mood palette = mood
      /\ p_lighting palette = lighting /\ p_created_at palette = now.
Proof. exact harmony_palette_ok. Qed.

Lemma generate_harmony_palette_total_witness :
  rgb_ok (seed_rgb (Triple (255, 255, 255)))
  /\ exists (palette : Palette) (g' : Rng),
       generate_harmony_palette (T := Q) (mkRng (fun n => n) 0) "2024-01-01T00:00:00"
                                [Triple (255, 255, 255)] "complementary" "japandi"
                                "cozy" "warm_light"
       = Ok (palette, g')
       /\ List.length (p_colors palette)
          = (if existsb (String.eqb "complementary") known_schemes then 5%nat else 0%nat)
       /\ Forall entry_ok (p_colors palette)
       /\ map pc_role (p_colors palette)
          = firstn (List.length (p_colors palette)) roles
       /\ p_harmony_type palette = Some "complementary"%string
       /\ p_style palette = "japandi"%string /\ p_mood palette = "cozy"%string
       /\ p_lighting palette = "warm_light"%string
       /\ p_created_at palette = "2024-01-01T00:00:00"%string.
Proof.
  assert (Hok : rgb_ok (seed_rgb (Triple (255, 255, 255)))) by (cbv; intuition discriminate).
  split; [exact Hok |].
  exact (generate_harmony_palette_total (mkRng (fun n => n) 0) "2024-01-01T00:00:00"
           (Triple (255, 255, 255)) [] "complementary" "japandi" "cozy" "warm_light" Hok).
Defined.

(** [generate_palette] on a list of dominant colours that is not empty and
    whose colours are in range, in exact arithmetic, for every style, mood
    and lighting: it raises nothing; the palette holds exactly five entries
    with the roles Primary, Secondary, Accent, Neutral and Background in that
    order; every entry holds a colour with channels in [[0, 255]] together
    with the hex string, the HSL and the CMYK of that colour; no harmony name
    is recorded. *)
Theorem generate_palette_total :
  forall (g : Rng) (now : string) (dominant_colors : list (DominantColor Q))
         (style mood lighting : string),
    dominant_colors <> [] ->
    Forall (fun c => rgb_ok (dc_rgb c)) dominant_colors ->
    exists (palette : Palette) (g' : Rng),
      generate_palette (T := Q) g now dominant_colors style mood lighting = Ok (palette, g')
      /\ Forall entry_ok (p_colors palette)
      /\ map pc_role (p_colors palette) = roles
      /\ p_harmony_type palette = None
      /\ p_style palette = style /\ p_mood palette = mood
      /\ p_lighting palette = lighting /\ p_created_at palette = now.
Proof. exact palette_ok. Qed.

Lemma generate_palette_total_witness :
  let plum : DominantColor Q :=
    mkDominantColor (142, 69, 133) "#8e4585" (mkHSL 307 34 41) (mkCMYK 0 51 6 44)
                    (1 # 1)%Q 1 in
  [plum] <> []
  /\ Forall (fun c => rgb_ok (dc_rgb c)) [plum]
  /\ exists (palette : Palette) (g' : Rng),
       generate_palette (T := Q) (mkRng (fun n => n) 0) "2024-01-01T00:00:00" [plum]
                        "industrial" "luxury" "cool_led"
       = Ok (palette, g')
       /\ Forall entry_ok (p_colors palette)
       /\ map pc_role (p_colors palette) = roles
       /\ p_harmony_type palette = None
       /\ p_style palette = "industrial"%string /\ p_mood palette = "luxury"%string
       /\ p_lighting palette = "cool_led"%string
       /\ p_created_at palette = "2024-01-01T00:00:00"%string.
Proof.
  cbv zeta.
  assert (Hne : [mkDominantColor (T := Q) (142, 69, 133) "#8e4585" (mkHSL 307 34 41)
                   (mkCMYK 0 51 6 44) (1 # 1)%Q 1] <> []) by discriminate.
  assert (Hall : Forall (fun c : DominantColor Q => rgb_ok (dc_rgb c))
                   [mkDominantColor (142, 69, 133) "#8e4585" (mkHSL 307 34 41)
                      (mkCMYK 0 51 6 44) (1 # 1)%Q 1]).
  { constructor; [| constructor]. cbv. intuition discriminate. }
  split; [exact Hne |]. split; [exact Hall |].
  exact (generate_palette_total (mkRng (fun n => n) 0) "2024-01-01T00:00:00" _
           "industrial" "luxury" "cool_led" Hne Hall).
Defined.

(** [adjust_for_lighting] on entries whose colour is in range (an entry
    without [rgb] reads as the grey 128), in exact arithmetic, for every
    lighting name: it raises nothing and returns one entry for each entry
    given, in order; the new [rgb] has its channels in [[0, 255]] and the new
    [hex] is the hex string of the new [rgb]; [hsl], [cmyk], [role] and
    [locked] are those of the entry given, so that [hsl] and [cmyk] still
    describe the colour before the adjustment. *)
Theorem adjust_for_lighting_range :
  forall (colors : list PaletteColor) (lighting_type : string),
    Forall (fun c => rgb_ok (rgb_or_default c)) colors ->
    exists adjusted_rgbs : list RGB,
      adjust_for_lighting (T := Q) colors lighting_type
      = Ok (map (fun '(c, rgb) => with_rgb c rgb) (combine colors adjusted_rgbs))
      /\ List.length adjusted_rgbs = List.length colors
      /\ Forall rgb_ok adjusted_rgbs.
Proof. exact adjust_for_lighting_ok. Qed.

Lemma adjust_for_lighting_range_witness :
  let entry :=
    mkPaletteColor (Some (200, 120, 40)) (Some "#c87828"%string) (mkHSL 30 66 47)
                   (mkCMYK 0 40 80 21) "Accent" true in
  let bare := mkPaletteColor None None (mkHSL 0 0 0) (mkCMYK 0 0 0 0) "Neutral" false in
  Forall (fun c => rgb_ok (rgb_or_default c)) [entry; bare]
  /\ exists adjusted_rgbs : list RGB,
       adjust_for_lighting (T := Q) [entry; bare] "warm_light"
       = Ok (map (fun '(c, rgb) => with_rgb c rgb) (combine [entry; bare] adjusted_rgbs))
       /\ List.length adjusted_rgbs = List.length [entry; bare]
       /\ Forall rgb_ok adjusted_rgbs.
Proof.
  cbv zeta.
  assert (Hall : Forall (fun c => rgb_ok (rgb_or_default c))
                   [mkPaletteColor (Some (200, 120, 40)) (Some "#c87828"%string)
                      (mkHSL 30 66 47) (mkCMYK 0 40 80 21) "Accent" true;
                    mkPaletteColor None None (mkHSL 0 0 0) (mkCMYK 0 0 0 0) "Neutral" false]).
  { repeat constructor; cbv; discriminate. }
  split; [exact Hall |].
  exact (adjust_for_lighting_range _ "warm_light" Hall).
Defined.

(** With nothing to apply, the pipeline step and the stand-alone adjustment
    convert to hue, lightness and saturation and back.  In exact arithmetic
    that returns the colours given: for colours in range,
    [_apply_style_mood_lighting] with a mood outside the table and a lighting
    that is neither [warm_light] nor [cool_led] returns the list it was
    given, and [adjust_for_lighting] with such a lighting returns each entry
    with its own colour as [rgb] and the hex string of that colour as [hex].
    In binary64 the product with 255 can fall just below the whole number,
    which [int] then truncates: (255, 15, 10) and (12, 200, 99) come back as
    (254, 15, 10) and (11, 200, 99). *)
Theorem neutral_adjustment_is_identity :
  forall (colors : list RGB) (entries : list PaletteColor) (style mood lighting : string),
    ~ In mood known_moods ->
    lighting <> "warm_light"%string -> lighting <> "cool_led"%string ->
    Forall rgb_ok colors ->
    Forall (fun c => rgb_ok (rgb_or_default c)) entries ->
    _apply_style_mood_lighting (T := Q) colors style mood lighting = Ok colors
    /\ adjust_for_lighting (T := Q) entries lighting
       = Ok (map (fun c => with_rgb c (rgb_or_default c)) entries)
    /\ _apply_style_mood_lighting (T := float) [(255, 15, 10); (12, 200, 99)]
                                  style "neutral" "daylight"
       = Ok [(254, 15, 10); (11, 200, 99)].
Proof.
  intros colors entries style mood lighting Hmood Hw Hc Hcolors Hentries.
  split; [| split; [| vm_compute; reflexivity]];
    unfold _apply_style_mood_lighting, adjust_for_lighting;
    rewrite ?(zero_mood mood Hmood), (zero_lighting lighting Hw Hc).
  - induction Hcolors as [| rgb rest Hrgb _ IH]; [reflexivity |].
    cbn [map_res]. rewrite (adjust_one_neutral rgb Hrgb). cbn [bind].
    rewrite IH. reflexivity.
  - induction Hentries as [| c rest Hrgb _ IH]; [reflexivity |].
    cbn [map_res map]. rewrite (relight_one_neutral c Hrgb). cbn [bind].
    rewrite IH. reflexivity.
Qed.

Lemma neutral_adjustment_is_identity_witness :
  let entry :=
    mkPaletteColor (Some (255, 15, 10)) (Some "#ff0f0a"%string) (mkHSL 1 100 51)
                   (mkCMYK 0 94 96 0) "Primary" false in
  ~ In "neutral"%string known_moods
  /\ "daylight"%string <> "warm_light"%string
  /\ "daylight"%string <> "cool_led"%string
  /\ Forall rgb_ok [(255, 15, 10); (12, 200, 99)]
  /\ Forall (fun c => rgb_ok (rgb_or_default c)) [entry]
  /\ _apply_style_mood_lighting (T := Q) [(255, 15, 10); (12, 200, 99)] "japandi"
                                "neutral" "daylight"
     = Ok [(255, 15, 10); (12, 200, 99)]
  /\ adjust_for_lighting (T := Q) [entry] "daylight"
     = Ok (map (fun c => with_rgb c (rgb_or_default c)) [entry])
  /\ _apply_style_mood_lighting (T := float) [(255, 15, 10); (12, 200, 99)]
                                "japandi" "neutral" "daylight"
     = Ok [(254, 15, 10); (11, 200, 99)].
Proof.
  cbv zeta.
  assert (Hmood : ~ In "neutral"%string known_moods).
  { cbn. intros [H | [H | [H | [H | []]]]]; discriminate. }
  assert (Hw : "daylight"%string <> "warm_light"%string) by discriminate.
  assert (Hc : "daylight"%string <> "cool_led"%string) by discriminate.
  assert (Hcolors : Forall rgb_ok [(255, 15, 10); (12, 200, 99)]).
  { repeat constructor; cbv; discriminate. }
  assert (Hentries : Forall (fun c => rgb_ok (rgb_or_default c))
                       [mkPaletteColor (Some (255, 15, 10)) (Some "#ff0f0a"%string)
                          (mkHSL 1 100 51) (mkCMYK 0 94 96 0) "Primary" false]).
  { repeat constructor; cbv; discriminate. }
  split; [exact Hmood |]. split; [exact Hw |]. split; [exact Hc |].
  split; [exact Hcolors |]. split; [exact Hentries |].
  exact (neutral_adjustment_is_identity _ _ "japandi" "neutral" "daylight"
           Hmood Hw Hc Hcolors Hentries).
Defined.

(** ** The seed is the first colour of its palette *)






(** ** The converters in whole numbers *)

(** [_rgb_to_cmyk] in whole numbers.  In exact arithmetic, for a colour in
    range whose largest channel is [M]: black gives (0, 0, 0, 100); any other
    colour gives, for each channel [c], the ink [100 * (M - c) / M] rounded
    down, and the key [100 * (255 - M) / 255] rounded down.  Hence every
    component lies in [[0, 100]], the key is below 100 for every colour but
    black, and the ink of a largest channel is 0.  In binary64 a quotient
    that is a whole number can be computed just below it and lose a unit to
    [int]: (100, 95, 5) has the inks 0, 5 and 95 and comes out with 0, 4 and
    94. *)
Theorem rgb_to_cmyk_whole_numbers :
  forall r g b : Z,
    rgb_ok (r, g, b) ->
    let M := max_channel (r, g, b) in
    exists cmyk : CMYK,
      _rgb_to_cmyk (T := Q) (r, g, b) = Ok cmyk
      /\ cmyk = (if M =? 0 then mkCMYK 0 0 0 100
                 else mkCMYK (100 * (M - r) / M) (100 * (M - g) / M) (100 * (M - b) / M)
                             (100 * (255 - M) / 255))
      /\ 0 <= cmyk_c cmyk <= 100 /\ 0 <= cmyk_m cmyk <= 100
      /\ 0 <= cmyk_y cmyk <= 100 /\ 0 <= cmyk_k cmyk <= 100
      /\ Z.min (Z.min (cmyk_c cmyk) (cmyk_m cmyk)) (cmyk_y cmyk) = 0
      /\ (if M =? 0 then cmyk_k cmyk = 100 else cmyk_k cmyk < 100)
      /\ _rgb_to_cmyk (T := float) (100, 95, 5) = Ok (mkCMYK 0 4 94 60).
Proof.
  intros r g b (Hr & Hg & Hb) M. unfold channel_ok in *.
  assert (Hfloat : _rgb_to_cmyk (T := float) (100, 95, 5) = Ok (mkCMYK 0 4 94 60))
    by (vm_compute; reflexivity).
  revert Hfloat. generalize (_rgb_to_cmyk (T := float) (100, 95, 5)). intros run Hfloat.
  assert (HM : 0 <= M <= 255 /\ r <= M /\ g <= M /\ b <= M /\ (r = M \/ g = M \/ b = M))
    by (unfold M, max_channel; lia).
  destruct HM as (HM & HrM & HgM & HbM & Hmax).
  unfold _rgb_to_cmyk, ColorProcessor._rgb_to_cmyk, pydiv; qnum.
  fold (q255 r) (q255 g) (q255 b). rewrite max3_q255.
  change (Z.max (Z.max r g) b) with M.
  destruct (Z.eqb_spec M 0) as [E0 | E0].
  - rewrite E0. change (Qeq_bool (inject_Z 1 - q255 0) (inject_Z 1)) with true. cbv iota.
    eexists. split; [reflexivity |]. split; [reflexivity |]. cbn. repeat split; try lia.
    exact Hfloat.
  - assert (Ek : Qeq_bool (inject_Z 1 - q255 M) (inject_Z 1) = false).
    { apply qeqb_false. intro Hq.
      assert (Hz : (q255 M == q255 0)%Q).
      { assert (H0 : (q255 0 == 0)%Q) by reflexivity.
        change (inject_Z 1) with 1%Q in Hq. rewrite H0. lra. }
      apply -> q255_eq in Hz. contradiction. }
    assert (Hd : Qeq_bool (inject_Z 1 - (inject_Z 1 - q255 M)) (inject_Z 0) = false).
    { apply qeqb_false. intro Hq. apply qeqb_false in Ek. apply Ek.
      change (inject_Z 1) with 1%Q in *. change (inject_Z 0) with 0%Q in *. lra. }
    rewrite Ek, Hd. cbn [bind].
    assert (HMq : ~ (inject_Z M == 0)%Q).
    { intro Hq. apply E0. change 0%Q with (inject_Z 0) in Hq.
      exact (proj1 (inject_Z_injective _ _) Hq). }
    assert (Hink : forall c, c <= M ->
              ExactQ.qtrunc ((inject_Z 1 - q255 c - (inject_Z 1 - q255 M))
                             / (inject_Z 1 - (inject_Z 1 - q255 M)) * inject_Z 100)
              = 100 * (M - c) / M).
    { intros c Hc. apply qtrunc_div; [lia | lia |].
      rewrite inject_Z_mult, inject_Z_sub. unfold q255.
      change (inject_Z 255) with 255%Q. change (inject_Z 1) with 1%Q.
      change (inject_Z 100) with 100%Q. field. intro Hq. apply HMq. lra. }
    assert (Hkey : ExactQ.qtrunc ((inject_Z 1 - q255 M) * inject_Z 100)
                   = 100 * (255 - M) / 255).
    { apply qtrunc_div; [lia | lia |].
      rewrite inject_Z_mult, inject_Z_sub. unfold q255.
      change (inject_Z 255) with 255%Q. change (inject_Z 1) with 1%Q.
      change (inject_Z 100) with 100%Q. field. }
    rewrite (Hink r HrM), (Hink g HgM), (Hink b HbM), Hkey.
    eexists. split; [reflexivity |]. split; [reflexivity |].
    cbn [cmyk_c cmyk_m cmyk_y cmyk_k].
    assert (Hc : forall c, 0 <= c <= M -> 0 <= 100 * (M - c) / M <= 100).
    { intros c Hc. split.
      - apply Z.div_pos; lia.
      - apply Z.div_le_upper_bound; lia. }
    assert (Hz : 100 * (M - M) / M = 0) by (rewrite Z.sub_diag; reflexivity).
    pose proof (Hc r ltac:(lia)). pose proof (Hc g ltac:(lia)). pose proof (Hc b ltac:(lia)).
    assert (Hk : 0 <= 100 * (255 - M) / 255 < 100).
    { split.
      - apply Z.div_pos; lia.
      - apply Z.div_lt_upper_bound; lia. }
    repeat split; try lia; try exact Hfloat.
    destruct Hmax as [E | [E | E]]; rewrite E in *; rewrite Hz; lia.
Qed.

Lemma rgb_to_cmyk_whole_numbers_witness :
  rgb_ok (200, 120, 40)
  /\ exists cmyk : CMYK,
       _rgb_to_cmyk (T := Q) (200, 120, 40) = Ok cmyk
       /\ cmyk = (if max_channel (200, 120, 40) =? 0 then mkCMYK 0 0 0 100
                  else mkCMYK (100 * (max_channel (200, 120, 40) - 200)
                               / max_channel (200, 120, 40))
                              (100 * (max_channel (200, 120, 40) - 120)
                               / max_channel (200, 120, 40))
                              (100 * (max_channel (200, 120, 40) - 40)
                               / max_channel (200, 120, 40))
                              (100 * (255 - max_channel (200, 120, 40)) / 255))
       /\ 0 <= cmyk_c cmyk <= 100 /\ 0 <= cmyk_m cmyk <= 100
       /\ 0 <= cmyk_y cmyk <= 100 /\ 0 <= cmyk_k cmyk <= 100
       /\ Z.min (Z.min (cmyk_c cmyk) (cmyk_m cmyk)) (cmyk_y cmyk) = 0
       /\ (if max_channel (200, 120, 40) =? 0 then cmyk_k cmyk = 100
           else cmyk_k cmyk < 100)
       /\ _rgb_to_cmyk (T := float) (100, 95, 5) = Ok (mkCMYK 0 4 94 60).
Proof.
  assert (Hok : rgb_ok (200, 120, 40)) by (cbv; intuition discriminate).
  split; [exact Hok |].
  exact (rgb_to_cmyk_whole_numbers 200 120 40 Hok).
Defined.

Lemma percent_l_exact : forall M m,
  0 <= m -> 0 <= M ->
  ExactQ.qtrunc (HlsQ.lightness M m * inject_Z 100) = percent_l M m.
Proof.
  intros M m Hm HM. unfold percent_l.
  apply qtrunc_div; [lia | lia |].
  rewrite inject_Z_mult, inject_Z_plus. unfold HlsQ.lightness, q255.
  change (inject_Z 255) with 255%Q. change (inject_Z 2) with 2%Q.
  change (inject_Z 100) with 100%Q. change (inject_Z 510) with 510%Q. field.
Qed.

Lemma percent_s_exact : forall M m,
  0 <= m -> m < M -> M <= 255 ->
  ExactQ.qtrunc (HlsQ.saturation M m * inject_Z 100) = percent_s M m.
Proof.
  intros M m Hm Hlt HM. unfold percent_s, HlsQ.saturation.
  rewrite lightness_half.
  assert (HqM : (q255 M == inject_Z M * (1 # 255))%Q)
    by (unfold q255; change (inject_Z 255) with 255%Q; field).
  assert (Hqm : (q255 m == inject_Z m * (1 # 255))%Q)
    by (unfold q255; change (inject_Z 255) with 255%Q; field).
  assert (HMq : (inject_Z m < inject_Z M)%Q) by (rewrite <- Zlt_Qlt; exact Hlt).
  assert (Hmq : (0 <= inject_Z m)%Q)
    by (change 0%Q with (inject_Z 0); rewrite <- Zle_Qle; exact Hm).
  assert (HM1 : (inject_Z M <= 255)%Q)
    by (change 255%Q with (inject_Z 255); rewrite <- Zle_Qle; exact HM).
  destruct (M + m <=? 255) eqn:E.
  - apply qtrunc_div; [lia | lia |].
    rewrite inject_Z_mult, inject_Z_sub, inject_Z_plus, HqM, Hqm.
    change (inject_Z 100) with 100%Q. field. lra.
  - apply Z.leb_gt in E. apply qtrunc_div; [lia | lia |].
    rewrite inject_Z_mult, !inject_Z_sub, inject_Z_plus, HqM, Hqm.
    change (inject_Z 100) with 100%Q. change (inject_Z 510) with 510%Q.
    change (inject_Z 2) with 2%Q. field. lra.
Qed.

Lemma percent_ranges : forall M m,
  0 <= m -> m <= M -> M <= 255 ->
  0 <= percent_l M m <= 100 /\ (m < M -> 0 <= percent_s M m <= 100).
Proof.
  intros M m Hm Hle HM. unfold percent_l, percent_s. split.
  - split; [apply Z.div_pos; lia | apply Z.div_le_upper_bound; lia].
  - intro Hlt. destruct (M + m <=? 255) eqn:E.
    + apply Z.leb_le in E. split; [apply Z.div_pos; lia | apply Z.div_le_upper_bound; lia].
    + apply Z.leb_gt in E. split; [apply Z.div_pos; lia | apply Z.div_le_upper_bound; lia].
Qed.

(** [_rgb_to_hsl] in whole numbers.  In exact arithmetic, for a colour in
    range whose largest channel is [M] and whose smallest is [m]: the
    lightness is [100 * (M + m) / 510] rounded down; a grey has hue 0 and
    saturation 0; any other colour has a hue from 0 to 359 and the saturation
    [100 * (M - m) / (M + m)] rounded down where [M + m <= 255] and
    [100 * (M - m) / (510 - (M + m))] rounded down above.  Saturation and
    lightness lie in [[0, 100]].  In binary64 a value that is a whole number
    can be computed just below it and lose a unit to [int]: (39, 25, 11) has
    hue 30 and saturation 56 and comes out with 29 and 55. *)
Theorem rgb_to_hsl_whole_numbers :
  forall r g b : Z,
    rgb_ok (r, g, b) ->
    let M := max_channel (r, g, b) in
    let m := min_channel (r, g, b) in
    exists hsl : HSL,
      _rgb_to_hsl (T := Q) (r, g, b) = Ok hsl
      /\ hsl_l hsl = 100 * (M + m) / 510
      /\ (if M =? m then hsl_h hsl = 0 /\ hsl_s hsl = 0
          else 0 <= hsl_h hsl <= 359
               /\ hsl_s hsl = (if M + m <=? 255 then 100 * (M - m) / (M + m)
                               else 100 * (M - m) / (510 - (M + m))))
      /\ 0 <= hsl_s hsl <= 100 /\ 0 <= hsl_l hsl <= 100
      /\ _rgb_to_hsl (T := float) (39, 25, 11) = Ok (mkHSL 29 55 9).
Proof.
  intros r g b (Hr & Hg & Hb) M m. unfold channel_ok in *.
  assert (Hfloat : _rgb_to_hsl (T := float) (39, 25, 11) = Ok (mkHSL 29 55 9))
    by (vm_compute; reflexivity).
  revert Hfloat. generalize (_rgb_to_hsl (T := float) (39, 25, 11)). intros run Hfloat.
  assert (HM : 0 <= m /\ m <= M /\ M <= 255) by (unfold M, m, max_channel, min_channel; lia).
  assert (EM : M = Z.max (Z.max r g) b) by reflexivity.
  assert (Em : m = Z.min (Z.min r g) b) by reflexivity.
  clearbody M m.
  unfold _rgb_to_hsl, ColorProcessor._rgb_to_hsl.
  change (@div Q QNum (ofZ r) (ofZ 255)) with (q255 r).
  change (@div Q QNum (ofZ g) (ofZ 255)) with (q255 g).
  change (@div Q QNum (ofZ b) (ofZ 255)) with (q255 b).
  destruct (percent_ranges M m ltac:(lia) ltac:(lia) ltac:(lia)) as [Hpl Hps].
  unfold percent_l, percent_s in Hpl, Hps.
  destruct (Z.eqb_spec M m) as [E | E].
  - assert (r = g /\ g = b) as [-> ->] by lia.
    assert (M = b /\ m = b) as [-> ->] by lia.
    rewrite rgb_to_hls_gray. cbn [bind]. eexists. split; [reflexivity |].
    cbn [hsl_h hsl_s hsl_l]. change (@int_ Q QNum) with ExactQ.qtrunc.
    change (@mul Q QNum) with Qmult. change (@ofZ Q QNum) with inject_Z.
    rewrite percent_l_exact by lia. unfold percent_l.
    change (ExactQ.qtrunc (inject_Z 0 * inject_Z 360)) with 0.
    change (ExactQ.qtrunc (inject_Z 0 * inject_Z 100)) with 0.
    repeat split; try lia. exact Hfloat.
  - assert (Hlt : m < M) by lia.
    rewrite rgb_to_hls_colored by (unfold channel_ok; lia).
    rewrite <- EM, <- Em.
    cbn [bind]. eexists. split; [reflexivity |].
    cbn [hsl_h hsl_s hsl_l]. change (@int_ Q QNum) with ExactQ.qtrunc.
    change (@mul Q QNum) with Qmult. change (@ofZ Q QNum) with inject_Z.
    rewrite percent_l_exact, percent_s_exact by lia.
    specialize (Hps Hlt). unfold percent_l, percent_s.
    assert (Hh : 0 <= ExactQ.qtrunc (HlsQ.hue r g b * inject_Z 360) <= 359).
    { destruct (qmod_1_range (HlsQ.hue6 r g b / inject_Z 6)) as [H0 H1].
      fold (HlsQ.hue r g b) in H0, H1.
      assert (Hx : (0 <= HlsQ.hue r g b * inject_Z 360)%Q)
        by (change (inject_Z 360) with 360%Q; lra).
      rewrite qtrunc_floor by exact Hx. split.
      - exact (Qfloor_resp_le 0 _ Hx).
      - assert (Hy : (HlsQ.hue r g b * inject_Z 360 < inject_Z 360)%Q)
          by (change (inject_Z 360) with 360%Q; lra).
        pose proof (Qfloor_le (HlsQ.hue r g b * inject_Z 360)) as Hf.
        assert (Hz : (inject_Z (Qfloor (HlsQ.hue r g b * inject_Z 360)) < inject_Z 360)%Q)
          by (eapply Qle_lt_trans; eassumption).
        rewrite <- Zlt_Qlt in Hz. lia. }
    repeat split; try lia. exact Hfloat.
Qed.

Lemma rgb_to_hsl_whole_numbers_witness :
  rgb_ok (39, 25, 11)
  /\ exists hsl : HSL,
       _rgb_to_hsl (T := Q) (39, 25, 11) = Ok hsl
       /\ hsl_l hsl = 100 * (max_channel (39, 25, 11) + min_channel (39, 25, 11)) / 510
       /\ (if max_channel (39, 25, 11) =? min_channel (39, 25, 11)
           then hsl_h hsl = 0 /\ hsl_s hsl = 0
           else 0 <= hsl_h hsl <= 359
                /\ hsl_s hsl
                   = (if max_channel (39, 25, 11) + min_channel (39, 25, 11) <=? 255
                      then 100 * (max_channel (39, 25, 11) - min_channel (39, 25, 11))
                           / (max_channel (39, 25, 11) + min_channel (39, 25, 11))
                      else 100 * (max_channel (39, 25, 11) - min_channel (39, 25, 11))
                           / (510 - (max_channel (39, 25, 11) + min_channel (39, 25, 11)))))
       /\ 0 <= hsl_s hsl <= 100 /\ 0 <= hsl_l hsl <= 100
       /\ _rgb_to_hsl (T := float) (39, 25, 11) = Ok (mkHSL 29 55 9).
Proof.
  assert (Hok : rgb_ok (39, 25, 11)) by (cbv; intuition discriminate).
  split; [exact Hok |].
  exact (rgb_to_hsl_whole_numbers 39 25 11 Hok).
Defined.

(** ** The hex string of a colour *)

(** The number two hex digits stand for; a proof device. *)
Definition digit_value (c : ascii) : Z :=
  let n := Z.of_nat (nat_of_ascii c) in
  if n <? 58 then n - 48 else n - 87.

Definition two_digits_value (s : string) : Z :=
  match s with
  | String a (String b EmptyString) => 16 * digit_value a + digit_value b
  | _ => -1
  end.

Lemma x02_checked :
  forallb (fun z => (String.length (Fmt.x02 z) =? 2)%nat
                    && (two_digits_value (Fmt.x02 z) =? z)) (upto 256) = true.
Proof. vm_compute. reflexivity. Qed.

Lemma x02_channel : forall z,
  channel_ok z -> String.length (Fmt.x02 z) = 2%nat /\ two_digits_value (Fmt.x02 z) = z.
Proof.
  intros z Hz. unfold channel_ok in Hz.
  pose proof (forallb_upto _ _ x02_checked z ltac:(lia)) as H.
  cbv beta in H. apply andb_true_iff in H. destruct H as [H1 H2].
  apply Nat.eqb_eq in H1. apply Z.eqb_eq in H2. split; assumption.
Qed.

Lemma length_append : forall a b : string,
  String.length (a ++ b) = (String.length a + String.length b)%nat.
Proof.
  induction a as [| c a IH]; intro b; [reflexivity |].
  cbn. rewrite IH. reflexivity.
Qed.

Lemma append_same_length : forall a a' b b' : string,
  String.length a = String.length a' -> (a ++ b)%string = (a' ++ b')%string ->
  a = a' /\ b = b'.
Proof.
  induction a as [| c a IH]; intros [| c' a'] b b' Hlen Happ; try discriminate.
  - split; [reflexivity | exact Happ].
  - cbn in Hlen, Happ. inversion Happ. subst c'.
    destruct (IH a' b b' ltac:(lia) ltac:(assumption)) as [-> ->]. split; reflexivity.
Qed.

(** [_rgb_to_hex] on colours in range: the string is ['#'] and six
    characters, two for each channel, and two colours with the same string are
    the same colour.  A channel above 255 takes three characters: (306, 306,
    306), which the harmony generator makes of white, gives a string of ten
    characters. *)
Theorem rgb_to_hex_injective :
  forall rgb rgb' : RGB,
    rgb_ok rgb -> rgb_ok rgb' ->
    String.length (_rgb_to_hex rgb) = 7%nat
    /\ (exists digits, _rgb_to_hex rgb = String "#" digits)
    /\ (_rgb_to_hex rgb = _rgb_to_hex rgb' <-> rgb = rgb')
    /\ _rgb_to_hex (306, 306, 306) = "#132132132"%string.
Proof.
  intros [[r g] b] [[r' g'] b'] (Hr & Hg & Hb) (Hr' & Hg' & Hb').
  destruct (x02_channel r Hr) as [Lr Vr]. destruct (x02_channel g Hg) as [Lg Vg].
  destruct (x02_channel b Hb) as [Lb Vb]. destruct (x02_channel r' Hr') as [Lr' Vr'].
  destruct (x02_channel g' Hg') as [Lg' Vg']. destruct (x02_channel b' Hb') as [Lb' Vb'].
  unfold _rgb_to_hex, ColorProcessor._rgb_to_hex.
  split; [| split; [| split]].
  - cbn [append String.length]. rewrite !length_append, Lr, Lg, Lb. reflexivity.
  - eexists. reflexivity.
  - split; intro E.
    + cbn [append] in E. inversion E as [E1].
      assert (Lrr : String.length (Fmt.x02 r) = String.length (Fmt.x02 r')) by congruence.
      assert (Lgg : String.length (Fmt.x02 g) = String.length (Fmt.x02 g')) by congruence.
      destruct (append_same_length _ _ _ _ Lrr E1) as [Er E2].
      destruct (append_same_length _ _ _ _ Lgg E2) as [Eg Eb].
      rewrite <- Vr, <- Vg, <- Vb, Er, Eg, Eb, Vr', Vg', Vb'. reflexivity.
    + inversion E. reflexivity.
  - vm_compute. reflexivity.
Qed.

Lemma rgb_to_hex_injective_witness :
  rgb_ok (200, 120, 40) /\ rgb_ok (200, 120, 41)
  /\ String.length (_rgb_to_hex (200, 120, 40)) = 7%nat
  /\ (exists digits, _rgb_to_hex (200, 120, 40) = String "#" digits)
  /\ (_rgb_to_hex (200, 120, 40) = _rgb_to_hex (200, 120, 41)
      <-> (200, 120, 40) = (200, 120, 41))
  /\ _rgb_to_hex (306, 306, 306) = "#132132132"%string.
Proof.
  assert (H1 : rgb_ok (200, 120, 40)) by (cbv; intuition discriminate).
  assert (H2 : rgb_ok (200, 120, 41)) by (cbv; intuition discriminate).
  split; [exact H1 |]. split; [exact H2 |].
  exact (rgb_to_hex_injective (200, 120, 40) (200, 120, 41) H1 H2).
Defined.

(** ** The filter of extreme pixels keeps a tenth *)

Lemma tenth_exact : forall a b : Z,
  (ofZ (T := Q) a <? ofZ b * dec 1 10)%py = (10 * a <? b).
Proof.
  intros a b. unfold dec; qnum.
  change (inject_Z 1 / inject_Z 10)%Q with (1 # 10)%Q.
  apply eq_iff_eq_true. rewrite qltb_true, Z.ltb_lt.
  unfold Qlt, Qmult, inject_Z; cbn [Qnum Qden]. lia.
Qed.

Lemma filter_twice : forall (A : Type) (f : A -> bool) (xs : list A),
  filter f (filter f xs) = filter f xs.
Proof.
  intros A f xs. induction xs as [| x xs IH]; [reflexivity |].
  cbn [filter]. destruct (f x) eqn:E; [cbn [filter]; rewrite E, IH; reflexivity | exact IH].
Qed.

(** [_filter_extreme_colors], with any two thresholds, in exact arithmetic:
    the result is empty only for an empty input, so that a picture which is
    all dark or all light still reaches the clustering; it holds pixels of
    the input only, and at least a tenth of them; and filtering the result
    again changes nothing. *)
Theorem filter_extreme_colors_keeps_a_tenth :
  forall (pixels : list RGB) (dark_threshold light_threshold : Z),
    let filtered :=
      ColorProcessor._filter_extreme_colors_with (T := Q) pixels dark_threshold
                                                 light_threshold in
    (filtered = [] <-> pixels = [])
    /\ incl filtered pixels
    /\ (List.length filtered <= List.length pixels)%nat
    /\ (List.length pixels <= 10 * List.length filtered)%nat
    /\ ColorProcessor._filter_extreme_colors_with (T := Q) filtered dark_threshold
                                                  light_threshold
       = filtered.
Proof.
  intros pixels dark light. cbv zeta.
  unfold ColorProcessor._filter_extreme_colors_with.
  set (kept := filter (ColorProcessor.mask dark light) pixels).
  rewrite tenth_exact.
  assert (Hlen : (List.length kept <= List.length pixels)%nat) by apply filter_length_le.
  assert (Hincl : incl kept pixels) by (intros p Hp; apply filter_In in Hp; tauto).
  destruct (Z.ltb_spec (10 * Z.of_nat (List.length kept)) (Z.of_nat (List.length pixels)))
    as [Hfew | Hmany].
  - fold kept. rewrite tenth_exact.
    destruct (Z.ltb_spec (10 * Z.of_nat (List.length kept)) (Z.of_nat (List.length pixels)));
      [| lia].
    repeat split; try tauto; try apply incl_refl; lia.
  - rewrite tenth_exact.
    assert (Etwice : filter (ColorProcessor.mask (T := Q) dark light) kept = kept)
      by (unfold kept; apply filter_twice).
    rewrite Etwice.
    destruct (Z.ltb_spec (10 * Z.of_nat (List.length kept)) (Z.of_nat (List.length kept)));
      [lia |].
    repeat split; try assumption; try lia.
    + intro E. rewrite E in Hmany. cbn in Hmany.
      destruct pixels; [reflexivity | cbn in Hmany; lia].
    + intro E. unfold kept. rewrite E. reflexivity.
Qed.

(** [_select_style_colors], in any arithmetic: the selection is empty only
    for an empty input; every colour selected is the colour of a dominant
    colour given; and there are no more of them than dominant colours. *)
Theorem select_style_colors_nonempty :
  forall (T : Type) (N : PyNum T) (dominant_colors : list (DominantColor T)) (style : string),
    (_select_style_colors dominant_colors style = [] <-> dominant_colors = [])
    /\ incl (_select_style_colors dominant_colors style) (map dc_rgb dominant_colors)
    /\ (List.length (_select_style_colors dominant_colors style)
        <= List.length dominant_colors)%nat.
Proof.
  intros T N dominant_colors style.
  destruct (select_style_colors_incl T N dominant_colors style) as [Hincl Hsome].
  split; [| split; [exact Hincl |]].
  - split.
    + intro E. destruct dominant_colors as [| c rest]; [reflexivity |].
      exfalso. apply Hsome; [discriminate | exact E].
    + intros ->. reflexivity.
  - unfold _select_style_colors.
    set (rule := dict_get style style_rules scandinavian). clearbody rule.
    destruct (map dc_rgb (filter (fits_style rule) dominant_colors)) as [| x xs] eqn:E.
    + rewrite length_map, length_firstn. lia.
    + rewrite <- E, length_map. apply filter_length_le.
Qed.

(** ** The name of a palette, mood by mood *)

Lemma choice_in : forall (seq : list string) (g : Rng),
  seq <> [] ->
  In (fst (choice seq g)) seq
  /\ snd (choice seq g) = mkRng (rng_draw g) (S (rng_pos g)).
Proof.
  intros seq g Hne. unfold choice; cbn [fst snd]. split; [| reflexivity].
  apply nth_In. apply Nat.mod_upper_bound. destruct seq; [congruence | discriminate].
Qed.

(** [_generate_palette_name]: the name is a prefix, a theme and a suffix with
    single spaces between; theme and suffix come from their lists; the prefix
    comes from the three words of the mood for luxury, calm and energetic,
    and from the list of prefixes for any other mood.  The function draws
    three times, and a fourth time where the mood overrides the prefix
    already drawn.  Neither the colours nor the style enter the name. *)
Theorem palette_name_by_mood :
  forall (g : Rng) (colors : list PaletteColor) (mood style : string),
    (exists prefix theme suffix,
       fst (_generate_palette_name g colors mood style)
       = (prefix ++ " " ++ theme ++ " " ++ suffix)%string
       /\ In prefix (mood_prefixes mood) /\ In theme themes /\ In suffix suffixes)
    /\ snd (_generate_palette_name g colors mood style)
       = mkRng (rng_draw g) (rng_pos g + (if overrides_prefix mood then 4 else 3))
    /\ _generate_palette_name g colors mood style
       = _generate_palette_name g [] mood EmptyString.
Proof.
  intros g colors mood style. split; [| split; [| reflexivity]].
  - unfold _generate_palette_name, mood_prefixes.
    destruct (choice_in prefixes g ltac:(discriminate)) as [Hp _].
    destruct (choice prefixes g) as [p g1]; cbn [fst] in Hp.
    destruct (choice_in themes g1 ltac:(discriminate)) as [Ht _].
    destruct (choice themes g1) as [t g2]; cbn [fst] in Ht.
    destruct (choice_in suffixes g2 ltac:(discriminate)) as [Hs _].
    destruct (choice suffixes g2) as [s g3]; cbn [fst] in Hs.
    destruct (choice_in ["Rich"; "Deep"; "Bold"]%string g3 ltac:(discriminate)) as [H1 _].
    destruct (choice_in ["Serene"; "Gentle"; "Soft"]%string g3 ltac:(discriminate)) as [H2 _].
    destruct (choice_in ["Vibrant"; "Bold"; "Fresh"]%string g3 ltac:(discriminate)) as [H3 _].
    destruct (String.eqb mood "luxury");
      [ destruct (choice _ g3) as [p' g4]; cbn [fst] in *
      | destruct (String.eqb mood "calm");
        [ destruct (choice _ g3) as [p' g4]; cbn [fst] in *
        | destruct (String.eqb mood "energetic");
          [ destruct (choice _ g3) as [p' g4]; cbn [fst] in * | ] ] ];
      eexists _, t, s; (split; [reflexivity | split; [assumption | split; assumption]]).
  - unfold _generate_palette_name, overrides_prefix, choice.
    destruct (String.eqb mood "luxury"); [cbn; f_equal; lia |].
    destruct (String.eqb mood "calm"); [cbn; f_equal; lia |].
    destruct (String.eqb mood "energetic"); cbn; f_equal; lia.
Qed.

(** ** A grey seed *)

Lemma hsl_to_rgb_gray_exact : forall h s l : Q,
  (s == 0)%Q -> is_gray (_hsl_to_rgb h s l).
Proof.
  intros h s l Hs. unfold _hsl_to_rgb, colorsys.hls_to_rgb; qnum.
  assert (E : Qeq_bool s (inject_Z 0) = true) by (apply Qeq_bool_iff; exact Hs).
  rewrite E. cbn. split; reflexivity.
Qed.

Lemma hsl_to_rgb_gray_binary64 : forall h s l : float,
  PrimFloat.eqb s 0 = true -> is_gray (_hsl_to_rgb h s l).
Proof.
  intros h s l Hs. unfold _hsl_to_rgb, colorsys.hls_to_rgb.
  change (s ==? ofZ 0)%py with (PrimFloat.eqb s 0). rewrite Hs. cbn. split; reflexivity.
Qed.

Lemma harmony_gray_exact : forall (h l : Q) (harmony_type : string),
  Forall is_gray (_generate_harmony_colors h 0%Q l harmony_type).
Proof.
  intros h l name. unfold _generate_harmony_colors.
  repeat match goal with
         | |- context [String.eqb name ?k] => destruct (String.eqb name k)
         end;
    repeat (apply Forall_cons || apply Forall_nil);
    apply hsl_to_rgb_gray_exact; reflexivity.
Qed.

Lemma harmony_gray_binary64 : forall (h l : float) (harmony_type : string),
  Forall is_gray (_generate_harmony_colors h 0%float l harmony_type).
Proof.
  intros h l name. unfold _generate_harmony_colors.
  repeat match goal with
         | |- context [String.eqb name ?k] => destruct (String.eqb name k)
         end;
    repeat (apply Forall_cons || apply Forall_nil);
    apply hsl_to_rgb_gray_binary64; vm_compute; reflexivity.
Qed.

Lemma channels_equal_themselves :
  forallb (fun x => PrimFloat.eqb x x) channels_binary64 = true.
Proof. vm_compute. reflexivity. Qed.

Lemma seed_of_gray_binary64 : forall v : Z,
  channel_ok v ->
  exists l : float, seed_of (T := float) (v, v, v) = Ok (0%float, l, 0%float).
Proof.
  intros v Hv. unfold seed_of, colorsys.rgb_to_hls. fold (f255 v).
  assert (Esame : forall x : float, pymax x x = x /\ pymin x x = x).
  { intro x. unfold pymax, pymin. destruct (x <? x)%py; split; reflexivity. }
  assert (Emax : max3 (f255 v) (f255 v) (f255 v) = f255 v).
  { unfold max3. rewrite !(proj1 (Esame _)). reflexivity. }
  assert (Emin : min3 (f255 v) (f255 v) (f255 v) = f255 v).
  { unfold min3. rewrite !(proj2 (Esame _)). reflexivity. }
  rewrite Emax, Emin.
  pose proof channels_equal_themselves as Hall. rewrite forallb_forall in Hall.
  specialize (Hall _ (f255_in v Hv)). cbv beta in Hall.
  change (f255 v ==? f255 v)%py with (PrimFloat.eqb (f255 v) (f255 v)). rewrite Hall.
  cbn [bind]. eexists. reflexivity.
Qed.

(** A grey seed gives greys.  For a grey in range, in exact arithmetic and in
    binary64: the seed has saturation 0, and with it every colour of every
    harmony scheme has three equal channels, so that the rotation of the hue
    goes unseen.  The pipeline step can tint them afterwards: with the mood
    [cozy], which raises the saturation from 0 to 0.1 at hue 0, the grey 128
    becomes the reddish (112, 92, 92). *)
Theorem gray_seed_gray_harmony :
  forall (v : Z) (harmony_type : string),
    channel_ok v ->
    (exists h l : Q,
       seed_of (T := Q) (v, v, v) = Ok (h, l, 0%Q)
       /\ Forall is_gray (_generate_harmony_colors h 0%Q l harmony_type))
    /\ (exists h l : float,
          seed_of (T := float) (v, v, v) = Ok (h, l, 0%float)
          /\ Forall is_gray (_generate_harmony_colors h 0%float l harmony_type))
    /\ _apply_style_mood_lighting (T := float) [(128, 128, 128)] harmony_type "cozy"
                                  "daylight"
       = Ok [(112, 92, 92)].
Proof.
  intros v harmony_type Hv. split; [| split].
  - unfold seed_of.
    change (@div Q QNum (ofZ v) (ofZ 255)) with (q255 v).
    rewrite rgb_to_hls_gray. cbn [bind].
    do 2 eexists. split; [reflexivity |]. apply harmony_gray_exact.
  - destruct (seed_of_gray_binary64 v Hv) as [l Hl].
    exists 0%float, l. split; [exact Hl |]. apply harmony_gray_binary64.
  - vm_compute. reflexivity.
Qed.

Lemma gray_seed_gray_harmony_witness :
  channel_ok 128
  /\ (exists h l : Q,
        seed_of (T := Q) (128, 128, 128) = Ok (h, l, 0%Q)
        /\ Forall is_gray (_generate_harmony_colors h 0%Q l "triadic"))
  /\ (exists h l : float,
        seed_of (T := float) (128, 128, 128) = Ok (h, l, 0%float)
        /\ Forall is_gray (_generate_harmony_colors h 0%float l "triadic"))
  /\ _apply_style_mood_lighting (T := float) [(128, 128, 128)] "triadic" "cozy" "daylight"
     = Ok [(112, 92, 92)].
Proof.
  assert (Hv : channel_ok 128) by (unfold channel_ok; lia).
  split; [exact Hv |].
  exact (gray_seed_gray_harmony 128 "triadic" Hv).
Defined.

(** ** The size of the resized image *)



(** ** Colour temperature and contrast *)

(** [get_color_temperature] in whole numbers, in exact arithmetic: a colour
    is warm exactly when twice its red plus its green exceeds twice its blue.
    So black is cool and every other grey is warm.  Four runs in binary64,
    where sums of whole and half numbers of this size are exact, agree. *)
Theorem color_temperature_rule :
  forall r g b : Z,
    ColorProcessor.get_color_temperature (T := Q) (r, g, b)
    = (if 2 * b <? 2 * r + g then "warm"%string else "cool"%string)
    /\ ColorProcessor.get_color_temperature (T := Q) (0, 0, 0) = "cool"%string
    /\ ColorProcessor.get_color_temperature (T := float) (0, 0, 0) = "cool"%string
    /\ ColorProcessor.get_color_temperature (T := float) (1, 1, 1) = "warm"%string
    /\ ColorProcessor.get_color_temperature (T := float) (10, 1, 10) = "warm"%string
    /\ ColorProcessor.get_color_temperature (T := float) (10, 0, 10) = "cool"%string.
Proof.
  assert (Hrule : forall r g b : Z,
            ColorProcessor.get_color_temperature (T := Q) (r, g, b)
            = (if 2 * b <? 2 * r + g then "warm"%string else "cool"%string)).
  { intros r g b. unfold ColorProcessor.get_color_temperature, dec; qnum.
    change (inject_Z 5 / inject_Z 10)%Q with (5 # 10)%Q.
    assert (E : ExactQ.qltb (inject_Z 0) (inject_Z r + inject_Z g * (5 # 10) - inject_Z b)
                = (2 * b <? 2 * r + g)).
    { apply eq_iff_eq_true. rewrite qltb_true, Z.ltb_lt.
      unfold Qlt, Qminus, Qplus, Qmult, Qopp, inject_Z; cbn [Qnum Qden]. lia. }
    rewrite E. reflexivity. }
  intros r g b. split; [apply Hrule |]. split; [reflexivity |].
  repeat split; vm_compute; reflexivity.
Qed.

Section ContrastRatio.

Variable pow : Q -> Q -> Q.
Hypothesis pow_nonneg : forall x y : Q, (0 <= pow x y)%Q.

Lemma luminance_nonneg : forall rgb : RGB,
  rgb_ok rgb -> (0 <= ColorProcessor.get_luminance pow rgb)%Q.
Proof.
  intros [[r g] b] (Hr & Hg & Hb). unfold ColorProcessor.get_luminance, dec; qnum.
  fold (q255 r) (q255 g) (q255 b).
  destruct (q255_unit r Hr) as [Hr0 _]. destruct (q255_unit g Hg) as [Hg0 _].
  destruct (q255_unit b Hb) as [Hb0 _].
  assert (Hlin : forall x : Q, (0 <= x)%Q ->
            (0 <= (if Qle_bool x (inject_Z 3928 / inject_Z 100000)
                   then x / (inject_Z 1292 / inject_Z 100)
                   else pow ((x + inject_Z 55 / inject_Z 1000)
                             / (inject_Z 1055 / inject_Z 1000))
                            (inject_Z 24 / inject_Z 10)))%Q).
  { intros x Hx. destruct (Qle_bool x (inject_Z 3928 / inject_Z 100000)).
    - change (inject_Z 1292 / inject_Z 100)%Q with (1292 # 100)%Q.
      apply Qle_shift_div_l; lra.
    - apply pow_nonneg. }
  pose proof (Hlin _ Hr0) as Lr. pose proof (Hlin _ Hg0) as Lg. pose proof (Hlin _ Hb0) as Lb.
  set (lr := if Qle_bool (q255 r) _ then _ else _) in *.
  set (lg := if Qle_bool (q255 g) _ then _ else _) in *.
  set (lb := if Qle_bool (q255 b) _ then _ else _) in *.
  clearbody lr lg lb.
  change (inject_Z 2126 / inject_Z 10000)%Q with (2126 # 10000)%Q.
  change (inject_Z 7152 / inject_Z 10000)%Q with (7152 # 10000)%Q.
  change (inject_Z 722 / inject_Z 10000)%Q with (722 # 10000)%Q.
  lra.
Qed.

Lemma contrast_of_luminances : forall l1 l2 : Q,
  (0 <= l1)%Q -> (0 <= l2)%Q ->
  exists ratio : Q,
    pydiv (pymax l1 l2 + dec 5 100)%py (pymin l1 l2 + dec 5 100)%py = Ok ratio
    /\ (1 <= ratio)%Q
    /\ ((l1 <= l2)%Q -> (ratio == (l2 + (5 # 100)) / (l1 + (5 # 100)))%Q)
    /\ ((l2 <= l1)%Q -> (ratio == (l1 + (5 # 100)) / (l2 + (5 # 100)))%Q).
Proof.
  intros l1 l2 H1 H2. unfold pydiv, pymax, pymin, dec; qnum.
  change (inject_Z 5 / inject_Z 100)%Q with (5 # 100)%Q. change (inject_Z 0) with 0%Q.
  destruct (ExactQ.qltb l1 l2) eqn:E12; destruct (ExactQ.qltb l2 l1) eqn:E21;
    try apply qltb_true in E12; try apply qltb_true in E21;
    try apply qltb_false in E12; try apply qltb_false in E21.
  - lra.
  - assert (E : Qeq_bool (l1 + (5 # 100)) 0 = false) by (apply qeqb_false; lra).
    rewrite E. eexists. split; [reflexivity |]. split; [apply Qle_shift_div_l; lra |].
    split; intro Hle; [reflexivity |].
    assert (E' : (l1 == l2)%Q) by lra. rewrite E'. reflexivity.
  - assert (E : Qeq_bool (l2 + (5 # 100)) 0 = false) by (apply qeqb_false; lra).
    rewrite E. eexists. split; [reflexivity |]. split; [apply Qle_shift_div_l; lra |].
    split; intro Hle; [| reflexivity].
    assert (E' : (l1 == l2)%Q) by lra. rewrite E'. reflexivity.
  - assert (E : Qeq_bool (l1 + (5 # 100)) 0 = false) by (apply qeqb_false; lra).
    rewrite E. eexists. split; [reflexivity |]. split; [apply Qle_shift_div_l; lra |].
    assert (E' : (l2 == l1)%Q) by lra.
    split; intro Hle; rewrite E'; reflexivity.
Qed.

End ContrastRatio.

(** [calculate_contrast_ratio] on two colours in range, in exact arithmetic
    and for whatever non-negative values [pow] returns: no division is by
    zero; the ratio is at least 1; it is the same whichever colour is given
    first; and a colour against itself has the ratio 1. *)
Theorem contrast_ratio_symmetric :
  forall (pow : Q -> Q -> Q) (color1 color2 : RGB),
    (forall x y : Q, (0 <= pow x y)%Q) ->
    rgb_ok color1 -> rgb_ok color2 ->
    exists ratio swapped same : Q,
      ColorProcessor.calculate_contrast_ratio pow color1 color2 = Ok ratio
      /\ ColorProcessor.calculate_contrast_ratio pow color2 color1 = Ok swapped
      /\ ColorProcessor.calculate_contrast_ratio pow color1 color1 = Ok same
      /\ (1 <= ratio)%Q /\ (ratio == swapped)%Q /\ (same == 1)%Q.
Proof.
  intros pow color1 color2 Hpow H1 H2.
  pose proof (luminance_nonneg pow Hpow color1 H1) as L1.
  pose proof (luminance_nonneg pow Hpow color2 H2) as L2.
  unfold ColorProcessor.calculate_contrast_ratio.
  set (l1 := ColorProcessor.get_luminance pow color1) in *.
  set (l2 := ColorProcessor.get_luminance pow color2) in *.
  clearbody l1 l2.
  destruct (contrast_of_luminances l1 l2 L1 L2) as (ratio & Hr & Hge & Er1 & Er2).
  destruct (contrast_of_luminances l2 l1 L2 L1) as (swapped & Hs & _ & Es1 & Es2).
  destruct (contrast_of_luminances l1 l1 L1 L1) as (same & Hsame & _ & Esame & _).
  exists ratio, swapped, same. repeat split; try assumption.
  - destruct (Qlt_le_dec l1 l2) as [Hlt | Hle].
    + rewrite Er1, Es2 by lra. reflexivity.
    + rewrite Er2, Es1 by lra. reflexivity.
  - rewrite Esame by lra. field. lra.
Qed.

Lemma contrast_ratio_symmetric_witness :
  (forall x y : Q, (0 <= (fun a _ : Q => a * a) x y)%Q)
  /\ rgb_ok (255, 255, 255) /\ rgb_ok (10, 10, 10)
  /\ exists ratio swapped same : Q,
       ColorProcessor.calculate_contrast_ratio (fun a _ : Q => a * a)%Q
                                               (255, 255, 255) (10, 10, 10) = Ok ratio
       /\ ColorProcessor.calculate_contrast_ratio (fun a _ : Q => a * a)%Q
                                                  (10, 10, 10) (255, 255, 255) = Ok swapped
       /\ ColorProcessor.calculate_contrast_ratio (fun a _ : Q => a * a)%Q
                                                  (255, 255, 255) (255, 255, 255) = Ok same
       /\ (1 <= ratio)%Q /\ (ratio == swapped)%Q /\ (same == 1)%Q.
Proof.
  assert (Hpow : forall x y : Q, (0 <= (fun a _ : Q => a * a) x y)%Q).
  { intros x y. cbv beta. nra. }
  assert (H1 : rgb_ok (255, 255, 255)) by (cbv; intuition discriminate).
  assert (H2 : rgb_ok (10, 10, 10)) by (cbv; intuition discriminate).
  split; [exact Hpow |]. split; [exact H1 |]. split; [exact H2 |].
  exact (contrast_ratio_symmetric (fun a _ : Q => a * a)%Q (255, 255, 255) (10, 10, 10)
           Hpow H1 H2).
Defined.

(** ** The only exception of the generators *)

Section OnlyZeroDivision.
Context {T : Type} `{PyNum T}.













End OnlyZeroDivision.

(** ** The extension of a file name *)

Lemma rsplit1_last : forall (sep : ascii) (stem ext : string),
  App.contains sep ext = false ->
  App.rsplit1 sep ext = [ext]
  /\ App.rsplit1 sep (stem ++ String sep ext) = [stem; ext]
  /\ App.contains sep (stem ++ String sep ext) = true.
Proof.
  intros sep stem ext Hext.
  assert (H1 : App.rsplit1 sep ext = [ext]).
  { induction ext as [| c ext IH]; [reflexivity |].
    cbn [App.contains] in Hext. apply orb_false_iff in Hext. destruct Hext as [Hc Hrest].
    cbn [App.rsplit1]. rewrite (IH Hrest).
    rewrite Ascii.eqb_sym, Hc. reflexivity. }
  split; [exact H1 |].
  induction stem as [| c stem IH].
  - cbn [append App.rsplit1 App.contains]. rewrite H1, !Ascii.eqb_refl. split; reflexivity.
  - destruct IH as [IH1 IH2]. cbn [append App.rsplit1 App.contains].
    rewrite IH1, IH2, orb_true_r. split; reflexivity.
Qed.

(** [allowed_file] looks at the text after the last dot only, whatever its
    case.  For a name [stem.ext] whose [ext] holds no dot, the file is
    allowed exactly when [ext] in lower case is [png], [jpg] or [jpeg]; a
    name without a dot is not allowed.  So [photo.PNG], [.jpeg] and
    [archive.exe.jpg] pass, and [photo.png.exe], [photo.] and [png] do
    not. *)
Theorem allowed_file_by_extension :
  forall stem ext : string,
    App.contains "." ext = false ->
    App.allowed_file (stem ++ "." ++ ext)
    = existsb (String.eqb (App.lower ext)) App.ALLOWED_EXTENSIONS
    /\ App.allowed_file ext = false
    /\ App.allowed_file "photo.PNG" = true
    /\ App.allowed_file ".jpeg" = true
    /\ App.allowed_file "archive.exe.jpg" = true
    /\ App.allowed_file "photo.png.exe" = false
    /\ App.allowed_file "photo." = false
    /\ App.allowed_file "png" = false.
Proof.
  intros stem ext Hext.
  destruct (rsplit1_last "." stem ext Hext) as (H1 & H2 & H3).
  split; [| split; [| repeat split; reflexivity]].
  - unfold App.allowed_file. cbn [append]. rewrite H2, H3. reflexivity.
  - unfold App.allowed_file. rewrite Hext. reflexivity.
Qed.

Lemma allowed_file_by_extension_witness :
  App.contains "." "JpEg" = false
  /\ App.allowed_file ("holiday.2024" ++ "." ++ "JpEg")
     = existsb (String.eqb (App.lower "JpEg")) App.ALLOWED_EXTENSIONS
  /\ App.allowed_file "JpEg" = false
  /\ App.allowed_file "photo.PNG" = true
  /\ App.allowed_file ".jpeg" = true
  /\ App.allowed_file "archive.exe.jpg" = true
  /\ App.allowed_file "photo.png.exe" = false
  /\ App.allowed_file "photo." = false
  /\ App.allowed_file "png" = false.
Proof.
  assert (Hext : App.contains "." "JpEg" = false) by reflexivity.
  split; [exact Hext |].
  exact (allowed_file_by_extension "holiday.2024" "JpEg" Hext).
Defined.

(** ** The routes *)


(** The two routes on colours in range, in exact arithmetic: neither
    answers 500.  [/generate_palette] answers 200 with a palette whose
    entries hold colours in range and which records the style, mood,
    lighting and harmony of the request, or their defaults [scandinavian],
    [calm], [daylight] and [complementary]; [/adjust_lighting] answers 200
    with one colour for each colour sent. *)
Theorem routes_succeed_in_range :
  forall (g : Rng) (now : string) (data : App.PaletteRequest)
         (primary_color : BaseColor) (rest : list BaseColor)
         (relight : App.LightingRequest) (entry : PaletteColor) (entries : list PaletteColor),
    App.pr_colors data = Some (primary_color :: rest) ->
    rgb_ok (seed_rgb primary_color) ->
    App.lr_colors relight = Some (entry :: entries) ->
    Forall (fun c => rgb_ok (rgb_or_default c)) (entry :: entries) ->
    (exists (palette : Palette) (g' : Rng),
       App.generate_palette (T := Q) g now data = ((App.PaletteBody palette, 200), g')
       /\ Forall entry_ok (p_colors palette)
       /\ p_harmony_type palette = Some (App.get (App.pr_harmony data) "complementary"%string)
       /\ p_style palette = App.get (App.pr_style data) "scandinavian"%string
       /\ p_mood palette = App.get (App.pr_mood data) "calm"%string
       /\ p_lighting palette = App.get (App.pr_lighting data) "daylight"%string)
    /\ (exists adjusted_colors : list PaletteColor,
          App.adjust_lighting (T := Q) relight = (App.ColorsBody adjusted_colors, 200)
          /\ List.length adjusted_colors = List.length (entry :: entries)
          /\ Forall (fun c => exists rgb, pc_rgb c = Some rgb /\ rgb_ok rgb) adjusted_colors).
Proof.
  intros g now data primary_color rest relight entry entries Hcolors Hok Hentries Hall.
  split.
  - unfold App.generate_palette. rewrite Hcolors. cbn [App.get].
    destruct (harmony_palette_ok g now primary_color rest
                (App.get (App.pr_harmony data) "complementary"%string)
                (App.get (App.pr_style data) "scandinavian"%string)
                (App.get (App.pr_mood data) "calm"%string)
                (App.get (App.pr_lighting data) "daylight"%string) Hok)
      as (palette & g' & Hp & _ & He & _ & Hh & Hs & Hm & Hl & _).
    fold (App.get (App.pr_harmony data) "complementary"%string).
    fold (App.get (App.pr_style data) "scandinavian"%string).
    fold (App.get (App.pr_mood data) "calm"%string).
    fold (App.get (App.pr_lighting data) "daylight"%string).
    rewrite Hp. exists palette, g'. repeat split; assumption.
  - unfold App.adjust_lighting. rewrite Hentries. cbn [App.get].
    destruct (adjust_for_lighting_ok (entry :: entries)
                (App.get (App.lr_lighting relight) "daylight"%string) Hall)
      as (outs & Ha & Hlen & Hrange).
    fold (App.get (App.lr_lighting relight) "daylight"%string).
    rewrite Ha. eexists. split; [reflexivity |]. split.
    + rewrite length_map, length_combine, Hlen. apply Nat.min_id.
    + clear Ha. revert outs Hlen Hrange.
      generalize (entry :: entries) as cs.
      induction cs as [| c cs IH]; intros [| o outs] Hlen Hrange; cbn [combine map];
        try constructor.
      * exists o. split; [reflexivity |]. inversion Hrange; assumption.
      * apply IH; [cbn in Hlen; lia | inversion Hrange; assumption].
Qed.

Lemma routes_succeed_in_range_witness :
  let data :=
    App.mkPaletteRequest (Some [Triple (12, 200, 99)]) None (Some "luxury"%string) None
                         (Some "triadic"%string) in
  let entry :=
    mkPaletteColor (Some (200, 120, 40)) (Some "#c87828"%string) (mkHSL 30 66 47)
                   (mkCMYK 0 40 80 21) "Accent" true in
  let relight := App.mkLightingRequest (Some [entry]) (Some "cool_led"%string) in
  App.pr_colors data = Some [Triple (12, 200, 99)]
  /\ rgb_ok (seed_rgb (Triple (12, 200, 99)))
  /\ App.lr_colors relight = Some [entry]
  /\ Forall (fun c => rgb_ok (rgb_or_default c)) [entry]
  /\ (exists (palette : Palette) (g' : Rng),
        App.generate_palette (T := Q) (mkRng (fun n => n) 0) "2024-01-01T00:00:00" data
        = ((App.PaletteBody palette, 200), g')
        /\ Forall entry_ok (p_colors palette)
        /\ p_harmony_type palette
           = Some (App.get (App.pr_harmony data) "complementary"%string)
        /\ p_style palette = App.get (App.pr_style data) "scandinavian"%string
        /\ p_mood palette = App.get (App.pr_mood data) "calm"%string
        /\ p_lighting palette = App.get (App.pr_lighting data) "daylight"%string)
  /\ (exists adjusted_colors : list PaletteColor,
        App.adjust_lighting (T := Q) relight = (App.ColorsBody adjusted_colors, 200)
        /\ List.length adjusted_colors = List.length [entry]
        /\ Forall (fun c => exists rgb, pc_rgb c = Some rgb /\ rgb_ok rgb) adjusted_colors).
Proof.
  cbv zeta.
  assert (H1 : App.pr_colors
                 (App.mkPaletteRequest (Some [Triple (12, 200, 99)]) None
                    (Some "luxury"%string) None (Some "triadic"%string))
               = Some [Triple (12, 200, 99)]) by reflexivity.
  assert (H2 : rgb_ok (seed_rgb (Triple (12, 200, 99)))) by (cbv; intuition discriminate).
  assert (H3 : App.lr_colors
                 (App.mkLightingRequest
                    (Some [mkPaletteColor (Some (200, 120, 40)) (Some "#c87828"%string)
                             (mkHSL 30 66 47) (mkCMYK 0 40 80 21) "Accent" true])
                    (Some "cool_led"%string))
               = Some [mkPaletteColor (Some (200, 120, 40)) (Some "#c87828"%string)
                         (mkHSL 30 66 47) (mkCMYK 0 40 80 21) "Accent" true])
    by reflexivity.
  assert (H4 : Forall (fun c => rgb_ok (rgb_or_default c))
                 [mkPaletteColor (Some (200, 120, 40)) (Some "#c87828"%string)
                    (mkHSL 30 66 47) (mkCMYK 0 40 80 21) "Accent" true]).
  { repeat constructor; cbv; discriminate. }
  split; [exact H1 |]. split; [exact H2 |]. split; [exact H3 |]. split; [exact H4 |].
  exact (routes_succeed_in_range (mkRng (fun n => n) 0) "2024-01-01T00:00:00" _ _ _ _ _ _
           H1 H2 H3 H4).
Defined.

(** ** The dominant colours, ranked *)

Lemma insert_pair_perm : forall (x : RGB * Z) (l : list (RGB * Z)),
  Permutation (x :: l) (ColorProcessor.insert_pair x l).
Proof.
  intros x l. induction l as [| y l IH]; cbn [ColorProcessor.insert_pair].
  - apply Permutation_refl.
  - destruct (snd x <? snd y); [| apply Permutation_refl].
    eapply Permutation_trans; [apply perm_swap |]. apply perm_skip. exact IH.
Qed.

Lemma sort_pairs_perm : forall l : list (RGB * Z),
  Permutation l (ColorProcessor.sort_pairs l).
Proof.
  induction l as [| x l IH]; [apply Permutation_refl |].
  unfold ColorProcessor.sort_pairs in *. cbn [fold_right].
  eapply Permutation_trans; [| apply insert_pair_perm]. apply perm_skip. exact IH.
Qed.

(** Counts that never rise along the list. *)
Definition falling (l : list (RGB * Z)) : Prop :=
  StronglySorted (fun a b => snd b <= snd a) l.

Lemma insert_pair_falling : forall (x : RGB * Z) (l : list (RGB * Z)),
  falling l -> falling (ColorProcessor.insert_pair x l).
Proof.
  intros x l Hl. induction Hl as [| y l Hl IH Hy]; cbn [ColorProcessor.insert_pair].
  - constructor; constructor.
  - destruct (Z.ltb_spec (snd x) (snd y)) as [Hlt | Hge].
    + constructor; [exact IH |].
      apply (Permutation_Forall (insert_pair_perm x l)).
      constructor; [lia | exact Hy].
    + constructor; [constructor; assumption |].
      constructor; [exact Hge |].
      eapply Forall_impl; [| exact Hy]. intros z Hz. cbv beta in *. lia.
Qed.

Lemma sort_pairs_falling : forall l : list (RGB * Z), falling (ColorProcessor.sort_pairs l).
Proof.
  induction l as [| x l IH]; [constructor |].
  unfold ColorProcessor.sort_pairs in *. cbn [fold_right].
  apply insert_pair_falling. exact IH.
Qed.

Section Ranked.
Context {T : Type} `{PyNum T}.

(** An entry of the list of dominant colours, made of a colour and its
    count. *)
Definition entry_of (n_labels : nat) (i : nat) (p : RGB * Z)
    (d : DominantColor T) : Prop :=
  dc_rgb d = fst p
  /\ dc_hex d = ColorProcessor._rgb_to_hex (fst p)
  /\ ColorProcessor._rgb_to_hsl (fst p) = Ok (dc_hsl d)
  /\ ColorProcessor._rgb_to_cmyk (fst p) = Ok (dc_cmyk d)
  /\ dc_frequency d = (ofZ (snd p) / ofZ (Z.of_nat n_labels))%py
  /\ dc_rank d = Z.of_nat i + 1.

(** [ds] holds one entry for each pair, ranked from [i] on. *)
Fixpoint entries_of (n_labels : nat) (i : nat) (pairs : list (RGB * Z))
    (ds : list (DominantColor T)) : Prop :=
  match pairs, ds with
  | [], [] => True
  | p :: pairs', d :: ds' =>
      entry_of n_labels i p d /\ entries_of n_labels (S i) pairs' ds'
  | _, _ => False
  end.

Lemma dominant_from_spec : forall (pairs : list (RGB * Z)) (n_labels i : nat),
  Forall (fun p => convertible (fst p)) pairs ->
  exists ds, ColorProcessor.dominant_from i n_labels pairs = Ok ds
             /\ entries_of n_labels i pairs ds.
Proof.
  induction pairs as [| [color count] rest IH]; intros n_labels i Hall.
  - exists []. split; [reflexivity | exact I].
  - inversion Hall as [| ? ? [[hsl Hh] [cmyk Hc]] Hrest]; subst.
    destruct (IH n_labels (S i) Hrest) as (ds & Hds & Hent).
    cbn [fst] in Hh, Hc. unfold _rgb_to_hsl in Hh. unfold _rgb_to_cmyk in Hc.
    eexists. cbn [ColorProcessor.dominant_from]. rewrite Hh, Hc. cbn [bind].
    rewrite Hds. cbn [bind]. split; [reflexivity |].
    cbn [entries_of]. split; [| exact Hent].
    unfold entry_of. cbn [fst snd dc_rgb dc_hex dc_hsl dc_cmyk dc_frequency dc_rank].
    repeat split; assumption.
Qed.

Lemma entries_of_ranks : forall (pairs : list (RGB * Z)) (n_labels i : nat)
    (ds : list (DominantColor T)),
  entries_of n_labels i pairs ds ->
  map dc_rgb ds = map fst pairs
  /\ map dc_rank ds = map (fun k => Z.of_nat k + 1) (seq i (List.length pairs))
  /\ map dc_frequency ds
     = map (fun p => (ofZ (snd p) / ofZ (Z.of_nat n_labels))%py) pairs.
Proof.
  induction pairs as [| p rest IH]; intros n_labels i [| d ds] Hent;
    cbn [entries_of] in Hent; try contradiction.
  - repeat split.
  - destruct Hent as [(Hrgb & _ & _ & _ & Hf & Hr) Hrest].
    destruct (IH n_labels (S i) ds Hrest) as (E1 & E2 & E3).
    cbn [map List.length seq]. rewrite Hrgb, Hr, Hf, E1, E2, E3. repeat split.
Qed.

End Ranked.

Lemma dominant_colors_ok :
  forall (T : Type) (N : PyNum T) (kmeans : ColorProcessor.KMeans),
    let colors := map ColorProcessor.astype_int (ColorProcessor.cluster_centers_ kmeans) in
    let labels := ColorProcessor.labels_ kmeans in
    Forall convertible colors ->
    exists (dominant_colors : list (DominantColor T)) (pairs : list (RGB * Z)),
      ColorProcessor.extract_dominant_colors kmeans = Ok dominant_colors
      /\ Permutation (combine colors (ColorProcessor.bincount labels)) pairs
      /\ StronglySorted (fun a b => snd b <= snd a) pairs
      /\ map dc_rgb dominant_colors = map fst pairs
      /\ map dc_frequency dominant_colors
         = map (fun p => (ofZ (snd p) / ofZ (Z.of_nat (List.length labels)))%py) pairs
      /\ map dc_rank dominant_colors
         = map (fun k => Z.of_nat k + 1) (seq 0 (List.length pairs))
      /\ Forall (fun d => dc_hex d = _rgb_to_hex (dc_rgb d)
                          /\ _rgb_to_hsl (dc_rgb d) = Ok (dc_hsl d)
                          /\ _rgb_to_cmyk (dc_rgb d) = Ok (dc_cmyk d)) dominant_colors.
Proof.
  intros T N kmeans colors labels Hconv.
  set (pairs := ColorProcessor.sort_pairs (combine colors (ColorProcessor.bincount labels))).
  pose proof (sort_pairs_perm (combine colors (ColorProcessor.bincount labels))) as Hperm.
  fold pairs in Hperm.
  assert (Hall : Forall (fun p => convertible (fst p)) pairs).
  { apply (Permutation_Forall Hperm). apply Forall_forall. intros [c n] Hin.
    apply in_combine_l in Hin. rewrite Forall_forall in Hconv. exact (Hconv c Hin). }
  destruct (dominant_from_spec pairs (List.length labels) 0 Hall) as (ds & Hds & Hent).
  destruct (entries_of_ranks pairs (List.length labels) 0 ds Hent) as (E1 & E2 & E3).
  exists ds, pairs. split; [exact Hds |]. split; [exact Hperm |].
  split; [apply sort_pairs_falling |]. split; [exact E1 |]. split; [exact E3 |].
  split; [exact E2 |].
  clear - Hent. revert ds Hent. generalize 0%nat as i.
  induction pairs as [| p rest IH]; intros i [| d ds] Hent; cbn [entries_of] in Hent;
    try contradiction; constructor.
  - destruct Hent as [(Hrgb & Hhex & Hhsl & Hcmyk & _) _].
    unfold _rgb_to_hex, _rgb_to_hsl, _rgb_to_cmyk. rewrite Hrgb. repeat split; assumption.
  - destruct Hent as [_ Hrest]. exact (IH (S i) ds Hrest).
Qed.

(** [extract_dominant_colors], from the fitted clustering on, in any
    arithmetic in which HSL and CMYK of the cluster colours are defined, as
    they are in exact arithmetic and in binary64 for colours in range.  The
    list returned holds the pairs of cluster colour and cluster size in an
    order in which the size never rises; ranks count from 1 in that order;
    each frequency is the size over the number of labels; hex, HSL and CMYK
    of an entry are those of its colour.  A cluster without a size (more
    centres than labels seen) is left out, as [zip] leaves it out. *)
Theorem dominant_colors_ranked :
  forall (T : Type) (N : PyNum T) (kmeans : ColorProcessor.KMeans),
    let colors := map ColorProcessor.astype_int (ColorProcessor.cluster_centers_ kmeans) in
    let labels := ColorProcessor.labels_ kmeans in
    Forall convertible colors ->
    exists (dominant_colors : list (DominantColor T)) (pairs : list (RGB * Z)),
      ColorProcessor.extract_dominant_colors kmeans = Ok dominant_colors
      /\ Permutation (combine colors (ColorProcessor.bincount labels)) pairs
      /\ StronglySorted (fun a b => snd b <= snd a) pairs
      /\ map dc_rgb dominant_colors = map fst pairs
      /\ map dc_frequency dominant_colors
         = map (fun p => (ofZ (snd p) / ofZ (Z.of_nat (List.length labels)))%py) pairs
      /\ map dc_rank dominant_colors
         = map (fun k => Z.of_nat k + 1) (seq 0 (List.length pairs))
      /\ Forall (fun d => dc_hex d = _rgb_to_hex (dc_rgb d)
                          /\ _rgb_to_hsl (dc_rgb d) = Ok (dc_hsl d)
                          /\ _rgb_to_cmyk (dc_rgb d) = Ok (dc_cmyk d)) dominant_colors.
Proof. exact dominant_colors_ok. Qed.

Lemma dominant_colors_ranked_witness :
  let kmeans :=
    ColorProcessor.mkKMeans
      [(200.5, 120.25, 40.75); (12.5, 200, 99.5); (250.125, 250.75, 249.5)]%float
      [1; 0; 1; 2; 1; 0]%nat in
  Forall (convertible (T := float))
         (map ColorProcessor.astype_int (ColorProcessor.cluster_centers_ kmeans))
  /\ exists (dominant_colors : list (DominantColor float)) (pairs : list (RGB * Z)),
       ColorProcessor.extract_dominant_colors kmeans = Ok dominant_colors
       /\ Permutation
            (combine (map ColorProcessor.astype_int (ColorProcessor.cluster_centers_ kmeans))
                     (ColorProcessor.bincount (ColorProcessor.labels_ kmeans))) pairs
       /\ StronglySorted (fun a b => snd b <= snd a) pairs
       /\ map dc_rgb dominant_colors = map fst pairs
       /\ map dc_frequency dominant_colors
          = map (fun p => (ofZ (snd p)
                           / ofZ (Z.of_nat (List.length (ColorProcessor.labels_ kmeans))))%py)
                pairs
       /\ map dc_rank dominant_colors
          = map (fun k => Z.of_nat k + 1) (seq 0 (List.length pairs))
       /\ Forall (fun d => dc_hex d = _rgb_to_hex (dc_rgb d)
                           /\ _rgb_to_hsl (dc_rgb d) = Ok (dc_hsl d)
                           /\ _rgb_to_cmyk (dc_rgb d) = Ok (dc_cmyk d)) dominant_colors.
Proof.
  cbv zeta.
  assert (Hconv : Forall (convertible (T := float))
                    (map ColorProcessor.astype_int
                       (ColorProcessor.cluster_centers_
                          (ColorProcessor.mkKMeans
                             [(200.5, 120.25, 40.75); (12.5, 200, 99.5);
                              (250.125, 250.75, 249.5)]%float
                             [1; 0; 1; 2; 1; 0]%nat)))).
  { repeat constructor; apply converters_defined_binary64; vm_compute; intuition discriminate. }
  split; [exact Hconv |].
  exact (dominant_colors_ranked float FNum _ Hconv).
Defined.

(** ** The layout of the swatch image *)

Lemma centred_half : forall left w span : Z,
  centred left (left + span) (left + (span - w) / 2) w.
Proof.
  intros left w span. unfold centred.
  pose proof (Z.div_mod (span - w) 2 ltac:(lia)) as Hd.
  pose proof (Z.mod_pos_bound (span - w) 2 ltac:(lia)) as Hm. lia.
Qed.

(** [create_swatch_image] on a picture of width 0 or more, in any
    arithmetic and for any font.  Without colours the division of the width
    by their number raises [ZeroDivisionError].  Otherwise the calls are three
    for each colour, in the order of the colours, and the palette name last.
    The swatches are equally wide, the width over the number of colours
    rounded down; they follow one another edge to edge from the left edge of
    the picture and none reaches beyond its right edge; each is filled with
    the colour of its entry, or grey 128 without one; hex code and role are
    centred under their swatch, the role 20 below the hex code; the palette
    name is centred in the picture. *)
Theorem swatch_image_layout :
  forall (T : Type) (N : PyNum T) (text_width : string -> Z)
         (colors : list SwatchColor) (palette_name : string) (width height : Z),
    0 <= width ->
    let n := Z.of_nat (List.length colors) in
    match colors with
    | [] =>
        create_swatch_image text_width colors palette_name width height
        = Err ZeroDivisionError
    | _ :: _ =>
        exists (name_x name_y : Z),
          create_swatch_image text_width colors palette_name width height
          = Ok (List.concat (map (fun '(i, color) => swatch_calls text_width (width / n) height i color)
                            (combine (seq 0 (List.length colors)) colors))
                ++ [text (name_x, name_y) palette_name (0, 0, 0)])
          /\ centred 0 width name_x (text_width palette_name)
          /\ Forall (fun '(i, color) =>
                       swatch_ok text_width width (width / n) i color
                                 (swatch_calls text_width (width / n) height i color))
                    (combine (seq 0 (List.length colors)) colors)
    end.
Proof.
  intros T N text_width colors palette_name width height Hw n.
  destruct colors as [| c0 rest]; [reflexivity |].
  assert (Hn : 0 < n) by (unfold n; cbn [List.length]; lia).
  set (colors := c0 :: rest) in *.
  unfold create_swatch_image. fold n.
  destruct (Z.eqb_spec n 0) as [E0 | _]; [lia |].
  do 2 eexists. split; [| split].
  - f_equal. f_equal.
    generalize (width / n) as sw. generalize 0%nat as i. generalize colors as cs. clear.
    induction cs as [| c cs IH]; intros i sw; [reflexivity |].
    cbn [swatches_from List.length seq combine map List.concat]. rewrite IH. reflexivity.
  - pose proof (centred_half 0 (text_width palette_name) width) as Hc.
    rewrite !Z.add_0_l in Hc. exact Hc.
  - apply Forall_forall. intros [i color] Hin.
    assert (Hi : (i < List.length colors)%nat).
    { apply in_combine_l in Hin. apply in_seq in Hin. lia. }
    unfold swatch_ok, swatch_calls.
    assert (Hsw : 0 <= width / n) by (apply Z.div_pos; lia).
    assert (Hfit : (Z.of_nat i + 1) * (width / n) <= width).
    { pose proof (Z.mul_div_le width n Hn) as Hle.
      assert (Hin' : Z.of_nat i + 1 <= n) by (unfold n; lia). nia. }
    repeat split; try reflexivity; try nia; apply centred_half.
Qed.

Lemma swatch_image_layout_witness :
  let colors :=
    [mkSwatchColor (Some (200, 120, 40)) (Some "#c87828"%string) (Some "Primary"%string);
     mkSwatchColor None None None;
     mkSwatchColor (Some (12, 200, 99)) (Some "#0cc863"%string) None] in
  let text_width := fun s : string => 6 * Z.of_nat (String.length s) in
  0 <= 800
  /\ exists (name_x name_y : Z),
       create_swatch_image (T := float) text_width colors "Warm Stone Glow" 800 400
       = Ok (List.concat (map (fun '(i, color) =>
                            swatch_calls text_width
                                         (800 / Z.of_nat (List.length colors)) 400 i color)
                         (combine (seq 0 (List.length colors)) colors))
             ++ [text (name_x, name_y) "Warm Stone Glow" (0, 0, 0)])
       /\ centred 0 800 name_x (text_width "Warm Stone Glow"%string)
       /\ Forall (fun '(i, color) =>
                    swatch_ok text_width 800 (800 / Z.of_nat (List.length colors)) i color
                              (swatch_calls text_width
                                            (800 / Z.of_nat (List.length colors)) 400 i color))
                 (combine (seq 0 (List.length colors)) colors).
Proof.
  cbv zeta.
  assert (Hw : 0 <= 800) by lia.
  split; [exact Hw |].
  exact (swatch_image_layout float FNum (fun s : string => 6 * Z.of_nat (String.length s))
           [mkSwatchColor (Some (200, 120, 40)) (Some "#c87828"%string)
              (Some "Primary"%string);
            mkSwatchColor None None None;
            mkSwatchColor (Some (12, 200, 99)) (Some "#0cc863"%string) None]
           "Warm Stone Glow" 800 400 Hw).
Defined.

(** ** The hue counts modulo a full turn *)






(** ** From the upload to the palette *)

Lemma bincount_nonempty : forall labels : list nat,
  labels <> [] -> ColorProcessor.bincount labels <> [].
Proof.
  intros [| l labels] Hne; [congruence |].
  unfold ColorProcessor.bincount. cbn [seq map]. discriminate.
Qed.

Lemma dominant_colors_in_range : forall kmeans : ColorProcessor.KMeans (T := Q),
  ColorProcessor.cluster_centers_ kmeans <> [] ->
  ColorProcessor.labels_ kmeans <> [] ->
  Forall rgb_ok (map ColorProcessor.astype_int (ColorProcessor.cluster_centers_ kmeans)) ->
  exists dominant_colors : list (DominantColor Q),
    ColorProcessor.extract_dominant_colors kmeans = Ok dominant_colors
    /\ dominant_colors <> []
    /\ Forall (fun c => rgb_ok (dc_rgb c)) dominant_colors.
Proof.
  intros kmeans Hc Hl Hok.
  assert (Hconv : Forall (convertible (T := Q))
                    (map ColorProcessor.astype_int (ColorProcessor.cluster_centers_ kmeans))).
  { eapply Forall_impl; [| exact Hok]. intros rgb Hrgb.
    exact (converters_defined_exact rgb Hrgb). }
  destruct (dominant_colors_ok Q QNum kmeans Hconv)
    as (ds & pairs & Hds & Hperm & _ & Hrgb & _).
  exists ds. split; [exact Hds |]. split.
  - intro E. subst ds. cbn [map] in Hrgb.
    assert (Hp : pairs = []) by (destruct pairs; [reflexivity | discriminate]).
    subst pairs. apply Permutation_sym, Permutation_nil in Hperm.
    destruct (map ColorProcessor.astype_int (ColorProcessor.cluster_centers_ kmeans))
      as [| c cs] eqn:Ecs.
    + destruct (ColorProcessor.cluster_centers_ kmeans); [congruence | discriminate].
    + pose proof (bincount_nonempty _ Hl) as Hb.
      destruct (ColorProcessor.bincount (ColorProcessor.labels_ kmeans)); [congruence |].
      discriminate.
  - apply Forall_forall. intros d Hd.
    assert (Hin : In (dc_rgb d) (map fst pairs)) by (rewrite <- Hrgb; apply in_map; exact Hd).
    apply in_map_iff in Hin. destruct Hin as ([c n] & Hfst & Hin). cbn [fst] in Hfst.
    apply (Permutation_in _ (Permutation_sym Hperm)) in Hin.
    apply in_combine_l in Hin. rewrite Forall_forall in Hok. rewrite <- Hfst.
    exact (Hok c Hin).
Qed.

(** The route [/upload] for a file whose picture opens and clusters, in
    exact arithmetic.  Without a file, with an empty name or with a name that
    [allowed_file] refuses, the answer is 400 and nothing is computed.  With
    an allowed name, at least one cluster and cluster colours in range, the
    answer is 200: the dominant colours of [extract_dominant_colors] and a
    palette of five entries with the roles Primary to Background, colours in
    range, and the style, mood and lighting of the form or their defaults
    [scandinavian], [calm] and [daylight]. *)
Theorem upload_yields_palette :
  forall (g : Rng) (now name : string) (kmeans : ColorProcessor.KMeans (T := Q))
         (form : App.UploadForm),
    App.allowed_file name = true ->
    ColorProcessor.cluster_centers_ kmeans <> [] ->
    ColorProcessor.labels_ kmeans <> [] ->
    Forall rgb_ok (map ColorProcessor.astype_int (ColorProcessor.cluster_centers_ kmeans)) ->
    (exists (dominant_colors : list (DominantColor Q)) (palette : Palette) (g' : Rng),
       App.upload_file g now (Some (App.mkUpload name kmeans)) form
       = ((App.UploadOk dominant_colors palette, 200), g')
       /\ ColorProcessor.extract_dominant_colors kmeans = Ok dominant_colors
       /\ map pc_role (p_colors palette) = roles
       /\ Forall entry_ok (p_colors palette)
       /\ p_style palette = App.get (App.uf_style form) "scandinavian"%string
       /\ p_mood palette = App.get (App.uf_mood form) "calm"%string
       /\ p_lighting palette = App.get (App.uf_lighting form) "daylight"%string)
    /\ App.upload_file (T := Q) g now None form
       = ((App.UploadError "No file uploaded", 400), g)
    /\ App.upload_file g now (Some (App.mkUpload EmptyString kmeans)) form
       = ((App.UploadError "No file selected", 400), g)
    /\ (forall other : string,
          if App.allowed_file other
          then True
          else exists error,
                 App.upload_file g now (Some (App.mkUpload other kmeans)) form
                 = ((App.UploadError error, 400), g)).
Proof.
  intros g now name kmeans form Hname Hc Hl Hok.
  split; [| split; [reflexivity | split; [reflexivity |]]].
  - destruct (dominant_colors_in_range kmeans Hc Hl Hok) as (ds & Hds & Hne & Hrange).
    destruct (palette_ok g now ds
                (App.get (App.uf_style form) "scandinavian"%string)
                (App.get (App.uf_mood form) "calm"%string)
                (App.get (App.uf_lighting form) "daylight"%string) Hne Hrange)
      as (palette & g' & Hp & He & Hr & _ & Hs & Hm & Hli & _).
    exists ds, palette, g'. unfold App.upload_file. cbn [App.filename App.fitted].
    assert (Hnonempty : String.eqb name EmptyString = false).
    { destruct name; [discriminate | reflexivity]. }
    rewrite Hnonempty, Hname. cbn [negb]. rewrite Hds. cbn [bind]. rewrite Hp. cbn [bind].
    repeat split; assumption.
  - intro other. destruct (App.allowed_file other) eqn:E; [exact I |].
    unfold App.upload_file. cbn [App.filename]. rewrite E. cbn [negb].
    destruct (String.eqb other EmptyString); eexists; reflexivity.
Qed.

Lemma upload_yields_palette_witness :
  let kmeans :=
    ColorProcessor.mkKMeans (T := Q)
      [(401 # 2, 481 # 4, 163 # 4); (25 # 2, 200 # 1, 199 # 2)]%Q [1; 0; 1; 1]%nat in
  let form := App.mkUploadForm (Some "japandi"%string) None (Some "warm_light"%string) in
  App.allowed_file "sofa.JPG" = true
  /\ ColorProcessor.cluster_centers_ kmeans <> []
  /\ ColorProcessor.labels_ kmeans <> []
  /\ Forall rgb_ok (map ColorProcessor.astype_int (ColorProcessor.cluster_centers_ kmeans))
  /\ (exists (dominant_colors : list (DominantColor Q)) (palette : Palette) (g' : Rng),
        App.upload_file (mkRng (fun n => n) 0) "2024-01-01T00:00:00"
                        (Some (App.mkUpload "sofa.JPG" kmeans)) form
        = ((App.UploadOk dominant_colors palette, 200), g')
        /\ ColorProcessor.extract_dominant_colors kmeans = Ok dominant_colors
        /\ map pc_role (p_colors palette) = roles
        /\ Forall entry_ok (p_colors palette)
        /\ p_style palette = App.get (App.uf_style form) "scandinavian"%string
        /\ p_mood palette = App.get (App.uf_mood form) "calm"%string
        /\ p_lighting palette = App.get (App.uf_lighting form) "daylight"%string)
  /\ App.upload_file (T := Q) (mkRng (fun n => n) 0) "2024-01-01T00:00:00" None form
     = ((App.UploadError "No file uploaded", 400), mkRng (fun n => n) 0)
  /\ App.upload_file (mkRng (fun n => n) 0) "2024-01-01T00:00:00"
                     (Some (App.mkUpload EmptyString kmeans)) form
     = ((App.UploadError "No file selected", 400), mkRng (fun n => n) 0)
  /\ (forall other : string,
        if App.allowed_file other
        then True
        else exists error,
               App.upload_file (mkRng (fun n => n) 0) "2024-01-01T00:00:00"
                               (Some (App.mkUpload other kmeans)) form
               = ((App.UploadError error, 400), mkRng (fun n => n) 0)).
Proof.
  cbv zeta.
  assert (H1 : App.allowed_file "sofa.JPG" = true) by reflexivity.
  assert (H2 : ColorProcessor.cluster_centers_
                 (ColorProcessor.mkKMeans (T := Q)
                    [(401 # 2, 481 # 4, 163 # 4); (25 # 2, 200 # 1, 199 # 2)]%Q
                    [1; 0; 1; 1]%nat) <> []) by discriminate.
  assert (H3 : ColorProcessor.labels_
                 (ColorProcessor.mkKMeans (T := Q)
                    [(401 # 2, 481 # 4, 163 # 4); (25 # 2, 200 # 1, 199 # 2)]%Q
                    [1; 0; 1; 1]%nat) <> []) by discriminate.
  assert (H4 : Forall rgb_ok
                 (map ColorProcessor.astype_int
                    (ColorProcessor.cluster_centers_
                       (ColorProcessor.mkKMeans (T := Q)
                          [(401 # 2, 481 # 4, 163 # 4); (25 # 2, 200 # 1, 199 # 2)]%Q
                          [1; 0; 1; 1]%nat)))).
  { repeat constructor; vm_compute; discriminate. }
  split; [exact H1 |]. split; [exact H2 |]. split; [exact H3 |]. split; [exact H4 |].
  exact (upload_yields_palette (mkRng (fun n => n) 0) "2024-01-01T00:00:00" "sofa.JPG" _
           (App.mkUploadForm (Some "japandi"%string) None (Some "warm_light"%string))
           H1 H2 H3 H4).
Defined.
